(** * Antigravity Quota Viewer: quota client, analytics engine,
      platform strategies and process detector

    A shallow embedding of [src/core/quotaService.ts],
    [src/insights/insightsService.ts], [src/core/platformStrategies.ts],
    [src/core/processDetector.ts] and of the low-quota warning of
    [src/extension.ts].

    Conventions of the embedding:
    - a JavaScript [number] that is known to be finite is a rational ([Q]);
      where the code can produce [NaN] (a string converted with [Number], the
      time value of an invalid [Date], [parseInt]) the value is an [option],
      [None] standing for [NaN];
    - the percentages of the quota client and the burn rate and the
      prediction of the analytics engine are computed as IEEE 754 binary64
      computes them: [Js.add], [Js.sub], [Js.mul] and [Js.div] round the
      exact result to the nearest double, ties to even ([Js.fl]). The
      exponent is not bounded above, so an overflow to an infinity is outside
      the model;
    - the sums and differences of whole percentages and of counts, which
      the doubles represent below 2^53, are written with the operations of
      [Q], and so are the means that [Math.round] turns into the overall
      health and the session usage: the exact quotient of a whole number by
      a count and the double nearest to it round to the same integer;
    - a [Date] is its time value in milliseconds ([Z]), and so is the
      difference of two time values;
    - a string is a sequence of code units below 256 ([string]);
    - the clock, the outcome of an HTTPS request and the host functions that
      read text ([Number], [new Date(text)], [JSON.parse]) are inputs. A call
      that reads the clock several times takes the readings as a function of
      their rank;
    - so are the outputs of the commands that the process detector runs and
      the answers of the ports that it probes. *)

From Stdlib Require Import ZArith QArith Qround Qabs Qminmax Qpower Ascii String Lia Lqa.
From stdpp Require Import gmap strings list pretty sorting.

Local Open Scope string_scope.
Local Open Scope Z_scope.

(** ** JavaScript built-ins used by the sources *)

Module Js.

Inductive Error : Type :=
| GenericError (message : string)
| TypeError (message : string).

(** Comparison of finite numbers. *)
Definition ltb (a b : Q) : bool := negb (Qle_bool b a).
Definition leb (a b : Q) : bool := Qle_bool a b.
Definition strict_eqb (a b : Q) : bool := Qeq_bool a b.

Definition Math_floor (x : Q) : Z := Qfloor x.
Definition Math_ceil (x : Q) : Z := Qceiling x.
(** [Math.round] rounds halves towards plus infinity. *)
Definition Math_round (x : Q) : Z := Qfloor (x + (1 # 2)).
Definition Math_max (a b : Q) : Q := if Qle_bool a b then b else a.

(** *** Doubles

    The exponent of the leading binary digit of a positive number. *)
Definition ilog2 (x : Q) : Z :=
  let e0 := Z.log2 (Qnum x) - Z.log2 (Z.pos (Qden x)) in
  if Qle_bool (2 ^ e0) x then e0 else e0 - 1.

(** The nearest integer, a tie going to the even one. *)
Definition nearest_even (m : Q) : Z :=
  let f := Qfloor m in
  match (m - inject_Z f ?= 1 # 2)%Q with
  | Lt => f
  | Gt => f + 1
  | Eq => if Z.even f then f else f + 1
  end.

(** The exponent of the last of the 53 binary digits of the double nearest
    to a positive number; the subnormal doubles share the exponent -1074. *)
Definition ulp_exponent (x : Q) : Z := Z.max (ilog2 x - 52) (-1074).

Definition fl_pos (x : Q) : Q :=
  let q := ulp_exponent x in
  (inject_Z (nearest_even (x / 2 ^ q)) * 2 ^ q)%Q.

(** The double nearest to [x]. *)
Definition fl (x : Q) : Q :=
  match (x ?= 0)%Q with
  | Eq => 0%Q
  | Gt => Qred (fl_pos x)
  | Lt => Qred (- fl_pos (- x))
  end.

(** The finite doubles: an integer of at most 53 binary digits scaled by a
    power of two. *)
Definition isDouble (c : Q) : Prop :=
  ∃ n p : Z, Z.abs n < 2 ^ 53 ∧ -1074 <= p ∧ (c == inject_Z n * 2 ^ p)%Q.

(** [a + b], [a - b], [a * b] and [a / b] on doubles. *)
Definition add (a b : Q) : Q := fl (a + b).
Definition sub (a b : Q) : Q := fl (a - b).
Definition mul (a b : Q) : Q := fl (a * b).
Definition div (a b : Q) : Q := fl (a / b).

(** [Math.max(...xs)]; [None] is the [-Infinity] of an empty argument
    list. *)
Fixpoint Math_max_list (xs : list Q) : option Q :=
  match xs with
  | [] => None
  | x :: xs' =>
      match Math_max_list xs' with
      | None => Some x
      | Some m => Some (Math_max x m)
      end
  end.

(** [Array.prototype.sort(cmp)]: a stable sort by a comparator whose sign
    orders two elements. *)
Fixpoint sort_insert {A} (cmp : A → A → Q) (x : A) (sorted : list A) : list A :=
  match sorted with
  | [] => [x]
  | y :: rest =>
      if ltb (cmp x y) 0 then x :: y :: rest
      else y :: sort_insert cmp x rest
  end.

Definition Array_sort {A} (cmp : A → A → Q) (l : list A) : list A :=
  foldl (λ acc x, sort_insert cmp x acc) [] l.

(** White space and line terminators below code unit 256
    (the class [\s], and what [trim] strips). *)
Definition isWhiteSpace (c : ascii) : bool :=
  let n := nat_of_ascii c in
  ((9 <=? n)%nat && (n <=? 13)%nat) || (n =? 32)%nat || (n =? 160)%nat.

Definition isDigit (c : ascii) : bool :=
  let n := nat_of_ascii c in (48 <=? n)%nat && (n <=? 57)%nat.

Definition isLower (c : ascii) : bool :=
  let n := nat_of_ascii c in (97 <=? n)%nat && (n <=? 122)%nat.

Definition isUpper (c : ascii) : bool :=
  let n := nat_of_ascii c in (65 <=? n)%nat && (n <=? 90)%nat.

(** [\w] *)
Definition isWordChar (c : ascii) : bool :=
  isDigit c || isLower c || isUpper c || (nat_of_ascii c =? 95)%nat.

(** Case folding of a regular expression with the [i] flag: only the
    ASCII letters have a partner below code unit 256 that is ASCII. *)
Definition foldCase (c : ascii) : ascii :=
  if isUpper c then ascii_of_nat (nat_of_ascii c + 32) else c.

(** [String.prototype.toLowerCase] on code units below 256. *)
Definition lowerChar (c : ascii) : ascii :=
  let n := nat_of_ascii c in
  if isUpper c then ascii_of_nat (n + 32)
  else if (192 <=? n)%nat && (n <=? 222)%nat && negb (n =? 215)%nat
       then ascii_of_nat (n + 32)
  else c.

Fixpoint toLowerCase (s : string) : string :=
  match s with
  | EmptyString => EmptyString
  | String c s' => String (lowerChar c) (toLowerCase s')
  end.

Fixpoint trimStart (s : string) : string :=
  match s with
  | EmptyString => EmptyString
  | String c s' => if isWhiteSpace c then trimStart s' else s
  end.

(** [trimEnd] keeps a code unit when it is not white space or when
    something is left of what follows it. *)
Fixpoint trimEnd (s : string) : string :=
  match s with
  | EmptyString => EmptyString
  | String c s' =>
      match trimEnd s' with
      | EmptyString => if isWhiteSpace c then EmptyString else String c EmptyString
      | kept => String c kept
      end
  end.

Definition trim (s : string) : string := trimEnd (trimStart s).

(** [s.startsWith(p)], optionally up to case folding. *)
Fixpoint startsWith_by (eqc : ascii → ascii → bool) (s p : string) {struct p} : bool :=
  match p, s with
  | EmptyString, _ => true
  | String _ _, EmptyString => false
  | String a p', String b s' => eqc a b && startsWith_by eqc s' p'
  end.

Definition startsWith : string → string → bool := startsWith_by Ascii.eqb.

(** [s.includes(sub)] *)
Fixpoint includes (s sub : string) : bool :=
  startsWith s sub ||
  match s with
  | EmptyString => false
  | String _ s' => includes s' sub
  end.

(** [s.substring(n)] for [0 <= n]. *)
Fixpoint substring_from (n : nat) (s : string) : string :=
  match n, s with
  | O, _ => s
  | S _, EmptyString => EmptyString
  | S n', String _ s' => substring_from n' s'
  end.

(** [s.split(sep)] for a separator of one code unit. *)
Fixpoint split_char (sep : ascii) (s : string) : list string :=
  match s with
  | EmptyString => [EmptyString]
  | String c s' =>
      if Ascii.eqb c sep then EmptyString :: split_char sep s'
      else match split_char sep s' with
           | piece :: rest => String c piece :: rest
           | [] => [String c EmptyString]
           end
  end.

(** [s.split(/\s+/)]: [insep] tells that the previous code unit belonged
    to a separator. *)
Fixpoint split_ws_go (insep : bool) (s : string) : list string :=
  match s with
  | EmptyString => [EmptyString]
  | String c s' =>
      if isWhiteSpace c then
        if insep then split_ws_go true s'
        else EmptyString :: split_ws_go true s'
      else match split_ws_go false s' with
           | piece :: rest => String c piece :: rest
           | [] => [String c EmptyString]
           end
  end.

Definition split_ws : string → list string := split_ws_go false.

(** The longest prefix of [s] made of code units of the class [cls], and
    what follows it. *)
Fixpoint span (cls : ascii → bool) (s : string) : string * string :=
  match s with
  | EmptyString => (EmptyString, EmptyString)
  | String c s' =>
      if cls c then let '(run, rest) := span cls s' in (String c run, rest)
      else (EmptyString, s)
  end.

Fixpoint digits_value (acc : Z) (s : string) : Z :=
  match s with
  | EmptyString => acc
  | String c s' => digits_value (10 * acc + (Z.of_nat (nat_of_ascii c) - 48)) s'
  end.

(** [parseInt(s, 10)]; [None] is [NaN]. *)
Definition parseInt (s : string) : option Z :=
  let t := trimStart s in
  let '(negative, body) :=
    match t with
    | String "-" r => (true, r)
    | String "+" r => (false, r)
    | _ => (false, t)
    end in
  let '(ds, _) := span isDigit body in
  match ds with
  | EmptyString => None
  | _ => Some (if negative then - digits_value 0 ds else digits_value 0 ds)
  end.

(** The first capture of [s.match(/FLAG[=\s]+(VALUE+)/)], for a literal
    [FLAG] and a class [VALUE] of code units that contains neither [=] nor
    white space ([ci] is the [i] flag, which folds the case of the
    literal). The two classes being disjoint, the greedy run of separators
    never has to give a code unit back, so a match at a position exists
    exactly when the literal is followed by at least one separator and
    then at least one value code unit, and the capture is the longest run
    of value code units. The leftmost such position is taken. *)
Definition isFlagSep (c : ascii) : bool :=
  Ascii.eqb c "=" || isWhiteSpace c.

Definition flag_here (ci : bool) (flag : string) (value : ascii → bool)
    (s : string) : option string :=
  let eqc a b := if ci then Ascii.eqb (foldCase a) (foldCase b) else Ascii.eqb a b in
  if startsWith_by eqc s flag then
    let after := substring_from (String.length flag) s in
    let '(seps, rest) := span isFlagSep after in
    match seps with
    | EmptyString => None
    | _ =>
        let '(capture, _) := span value rest in
        match capture with
        | EmptyString => None
        | _ => Some capture
        end
    end
  else None.

Fixpoint match_flag (ci : bool) (flag : string) (value : ascii → bool)
    (s : string) : option string :=
  match flag_here ci flag value s with
  | Some capture => Some capture
  | None =>
      match s with
      | EmptyString => None
      | String _ s' => match_flag ci flag value s'
      end
  end.

(** The first capture of [s.match(/LITERAL(CLASS+)/)]: the leftmost place
    where the literal is followed by at least one code unit of the class,
    and the longest run of the class there. *)
Definition literal_run_here (lit : string) (cls : ascii → bool) (s : string)
    : option string :=
  if startsWith s lit then
    let '(run, _) := span cls (substring_from (String.length lit) s) in
    match run with
    | EmptyString => None
    | _ => Some run
    end
  else None.

Fixpoint match_literal_run (lit : string) (cls : ascii → bool) (s : string)
    : option string :=
  match literal_run_here lit cls s with
  | Some capture => Some capture
  | None =>
      match s with
      | EmptyString => None
      | String _ s' => match_literal_run lit cls s'
      end
  end.

(** The code units that [.] matches: all but the line terminators. *)
Definition isNotLineTerminator (c : ascii) : bool :=
  negb (Ascii.eqb c "010" || Ascii.eqb c "013").

Fixpoint last_index (c : ascii) (s : string) : option nat :=
  match s with
  | EmptyString => None
  | String a s' =>
      match last_index c s' with
      | Some i => Some (S i)
      | None => if Ascii.eqb a c then Some O else None
      end
  end.

(** The length of the match of [/\n\s*\n/] at the start of [s]: a line
    feed, then the white space up to the last line feed of the run of white
    space that follows (the greedy [\s*] gives back what follows that line
    feed). *)
Definition blankLine_here (s : string) : option nat :=
  match s with
  | String c rest =>
      if Ascii.eqb c "010" then
        let '(ws, _) := span isWhiteSpace rest in
        match last_index "010" ws with
        | Some i => Some (S (S i))
        | None => None
        end
      else None
  | EmptyString => None
  end.

(** [s.split(/\n\s*\n/)]; [skip] counts the code units of the current
    separator that are still to be passed over. *)
Fixpoint split_blankLines_go (skip : nat) (s : string) : list string :=
  match skip, s with
  | _, EmptyString => [EmptyString]
  | S k, String _ s' => split_blankLines_go k s'
  | O, String c s' =>
      match blankLine_here s with
      | Some n => EmptyString :: split_blankLines_go (n - 1) s'
      | None =>
          match split_blankLines_go O s' with
          | piece :: rest => String c piece :: rest
          | [] => [String c EmptyString]
          end
      end
  end.

Definition split_blankLines : string → list string := split_blankLines_go O.

(** *** Pieces of the expressions that list the ports *)

(** Equality of code units, up to case under the [i] flag. *)
Definition eqb_under (ci : bool) (a b : ascii) : bool :=
  if ci then Ascii.eqb (foldCase a) (foldCase b) else Ascii.eqb a b.

(** What is left of [s] after the literal [p], when [s] starts with it. *)
Definition after_literal (ci : bool) (p s : string) : option string :=
  if startsWith_by (eqb_under ci) s p
  then Some (substring_from (String.length p) s)
  else None.

(** [CLASS+] at the start of [s]: the longest run of the class, which must
    not be empty, and what follows it. *)
Definition run1 (cls : ascii → bool) (s : string) : option (string * string) :=
  let '(run, rest) := span cls s in
  match run with
  | EmptyString => None
  | _ => Some (run, rest)
  end.

(** [\S] *)
Definition isNotWhiteSpace (c : ascii) : bool := negb (isWhiteSpace c).

(** The captures of [while ((match = re.exec(s)) !== null)] for a global
    expression: [here t] is the match of the expression at the start of
    [t], as its first capture and what is left of [t] after the match. The
    search resumes where the match ended; [skip] counts the code units of
    the last match that are still to be passed over. *)
Fixpoint exec_all_go (here : string → option (string * string)) (skip : nat)
    (s : string) : list string :=
  match skip with
  | S k =>
      match s with
      | EmptyString => []
      | String _ s' => exec_all_go here k s'
      end
  | O =>
      match here s with
      | Some (capture, rest) =>
          capture ::
          match s with
          | EmptyString => []
          | String _ s' =>
              exec_all_go here (String.length s - String.length rest - 1) s'
          end
      | None =>
          match s with
          | EmptyString => []
          | String _ s' => exec_all_go here O s'
          end
      end
  end.

Definition exec_all (here : string → option (string * string)) (s : string)
    : list string :=
  exec_all_go here O s.

(** [if (!ports.includes(port)) ports.push(port)] *)
Definition pushUnique (ports : list Z) (port : Z) : list Z :=
  if bool_decide (port ∈ ports) then ports else ports ++ [port].

(** The loop that collects the ports: each capture is a run of digits, of
    which [parseInt] always makes a number. *)
Definition collectPorts (here : string → option (string * string)) (stdout : string)
    : list Z :=
  foldl pushUnique [] (map (λ digits, default 0 (parseInt digits)) (exec_all here stdout)).

(** [ports.sort((a, b) => a - b)] *)
Definition sortPorts (ports : list Z) : list Z :=
  Array_sort (λ a b, inject_Z (a - b)) ports.

End Js.

(** ** Types ([src/types/index.ts]) *)

(** A value that [JSON.parse] returns. *)
#[warning="-register-all"] Inductive Json : Type :=
| JNull
| JBool (b : bool)
| JNumber (q : Q)
| JString (s : string)
| JArray (items : list Json)
| JObject (fields : list (string * Json)).

(** The host functions that read text. [Number_of_string s] is [Number(s)]
    and [Date_of_string s] the time value of [new Date(s)], [None] being
    [NaN]; [JSON_parse s] is [None] when [JSON.parse(s)] throws. *)
Class Host : Type := {
  Number_of_string : string → option Q;
  Date_of_string : string → option Z;
  JSON_parse : string → option Json
}.

(** A host for the examples: it reads a run of decimal digits as its
    number (the empty text as 0) and knows no other text. The examples hand
    it nothing else. *)
Definition exampleHost : Host :=
  {| Number_of_string := λ s,
       if forallb Js.isDigit (list_ascii_of_string s)
       then Some (inject_Z (Js.digits_value 0 s)) else None;
     Date_of_string := λ _, None;
     JSON_parse := λ _, None |}.

(** [string | number] *)
Inductive StringOrNumber : Type :=
| IsString (s : string)
| IsNumber (q : Q).

Record PlanInfo : Type := {
  monthlyPromptCredits : StringOrNumber
}.

Record PlanStatus : Type := {
  planInfo : option PlanInfo;
  availablePromptCredits : option StringOrNumber
}.

Record ModelOrAlias : Type := {
  model : option string
}.

Record QuotaInfo : Type := {
  raw_remainingFraction : option Q;
  raw_resetTime : option string
}.

Record RawModelConfig : Type := {
  raw_label : string;
  modelOrAlias : option ModelOrAlias;
  quotaInfo : option QuotaInfo
}.

Record CascadeModelConfigData : Type := {
  clientModelConfigs : option (list RawModelConfig)
}.

Record UserStatus : Type := {
  planStatus : option PlanStatus;
  cascadeModelConfigData : option CascadeModelConfigData
}.

(** The tests hand [parseResponse] a response without [userStatus], so the
    field is optional here although the interface declares it. *)
Record ServerUserStatusResponse : Type := {
  userStatus : option UserStatus
}.

Record ModelQuota : Type := {
  label : string;
  modelId : string;
  remainingFraction : Q;
  remainingPercent : Q;
  isExhausted : bool;
  resetTime : option Z;
  timeUntilReset : option Z;
  timeUntilResetFormatted : string
}.

Record PromptCredits : Type := {
  available : option Q;
  monthly : option Q;
  usedPercentage : option Q;
  remainingPercentage : option Q
}.

Record QuotaSnapshot : Type := {
  timestamp : Z;
  models : list ModelQuota;
  promptCredits : option PromptCredits
}.

Record HistoryEntry : Type := {
  entry_timestamp : Z;
  entry_models : gmap string Q
}.

Inductive TrendDirection : Type := stable | decreasing | warning | critical.

Record UsageInsight : Type := {
  burnRate : Q;
  burnRateLabel : string;
  predictedExhaustion : option Z;
  predictedExhaustionLabel : string;
  trendDirection : TrendDirection;
  sessionUsage : Q;
  isActive : bool
}.

(** [ModelWithInsights extends ModelQuota] *)
Record ModelWithInsights : Type := {
  quota : ModelQuota;
  insights : UsageInsight
}.

(** [SnapshotWithInsights extends QuotaSnapshot] *)
Record SnapshotWithInsights : Type := {
  snapshot : QuotaSnapshot;
  modelsWithInsights : list ModelWithInsights;
  overallHealth : Z;
  healthLabel : string;
  sessionStartTime : Z;
  totalSessionUsage : Z
}.

(** The result of [PlatformStrategy.parseProcessInfo]; [P] is the type of
    the process id as the strategy extracts it. *)
Record ProcessMatch (P : Type) : Type := {
  pid : P;
  extensionPort : Z;
  csrfToken : string
}.
Arguments pid {P} _.
Arguments extensionPort {P} _.
Arguments csrfToken {P} _.

(** ** Quota client ([src/core/quotaService.ts]) *)

Module QuotaService.

Record State : Type := {
  port : Z;
  csrfToken : string;
  lastSnapshot : option QuotaSnapshot
}.

(** [new QuotaService()] *)
Definition init : State :=
  {| port := 0; csrfToken := EmptyString; lastSnapshot := None |}.

Definition setConnection (st : State) (p : Z) (csrf : string) : State :=
  {| port := p; csrfToken := csrf; lastSnapshot := lastSnapshot st |}.

Definition isConfigured (st : State) : bool :=
  (0 <? port st) && (0 <? String.length (csrfToken st))%nat.

Definition getSnapshot (st : State) : option QuotaSnapshot :=
  lastSnapshot st.

(** [formatTime(ms)] for a duration that is a number of milliseconds. *)
Definition formatTime (ms : Z) : string :=
  if ms <=? 0 then "Ready"
  else
    let mins := Js.Math_ceil (inject_Z ms / inject_Z 60000) in
    if mins <? 60 then pretty mins +:+ "m"
    else
      let hours := Js.Math_floor (inject_Z mins / inject_Z 60) in
      let remainingMins := Z.rem mins 60 in
      if hours <? 24 then
        if 0 <? remainingMins
        then pretty hours +:+ "h " +:+ pretty remainingMins +:+ "m"
        else pretty hours +:+ "h"
      else
        let days := Js.Math_floor (inject_Z hours / inject_Z 24) in
        let remainingHours := Z.rem hours 24 in
        if 0 <? remainingHours
        then pretty days +:+ "d " +:+ pretty remainingHours +:+ "h"
        else pretty days +:+ "d".

(** [formatTime(diff)] where [diff] may be [NaN]: every comparison with
    [NaN] is false, so the last branch prints the [NaN] day count. *)
Definition formatTime_number (diff : option Z) : string :=
  match diff with
  | Some ms => formatTime ms
  | None => "NaNd"
  end.

Section WithHost.
Context `{Host}.

(** [Number(v)] for [v : string | number] *)
Definition Number (v : StringOrNumber) : option Q :=
  match v with
  | IsString s => Number_of_string s
  | IsNumber q => Some q
  end.

(** The callback of [rawModels.map]; [qi] is [m.quotaInfo!]. [clock k] is
    the reading of the clock after [k] earlier readings: the callback reads
    it for [Date.now()] when the entry has no reset time, and once more for
    [new Date()]. It returns the resource and the number of readings taken
    so far. *)
Definition parseModel (clock : nat → Z) (k : nat) (m : RawModelConfig) (qi : QuotaInfo)
    : ModelQuota * nat :=
  let '(resetTime, k) :=
    match raw_resetTime qi with
    | Some EmptyString | None => (Some (clock k), S k)
    | Some s => (Date_of_string s, k)
    end in
  let now := clock k in
  let diff := (λ t, t - now) <$> resetTime in
  let remainingFraction := default 1%Q (raw_remainingFraction qi) in
  ({| label := raw_label m;
      modelId :=
        match modelOrAlias m ≫= model with
        | Some EmptyString | None => "unknown"
        | Some s => s
        end;
      remainingFraction := remainingFraction;
      remainingPercent := inject_Z (Js.Math_round (Js.mul remainingFraction 100));
      isExhausted := Js.strict_eqb remainingFraction 0;
      resetTime := resetTime;
      timeUntilReset := diff;
      timeUntilResetFormatted := formatTime_number diff |},
   S k).

(** [rawModels.filter(m => m.quotaInfo).map(...)], the callback being
    called on the entries that pass the filter, in their order. *)
Fixpoint parseModels (clock : nat → Z) (k : nat) (rawModels : list RawModelConfig)
    : list ModelQuota * nat :=
  match rawModels with
  | [] => ([], k)
  | m :: rest =>
      match quotaInfo m with
      | None => parseModels clock k rest
      | Some qi =>
          let '(r, k1) := parseModel clock k m qi in
          let '(rs, k2) := parseModels clock k1 rest in
          (r :: rs, k2)
      end
  end.

(** [parseResponse(data)]; the last reading of the clock is the
    [new Date()] of the timestamp. *)
Definition parseResponse (clock : nat → Z) (data : ServerUserStatusResponse)
    : Js.Error + QuotaSnapshot :=
  match userStatus data with
  | None => inl (Js.TypeError "Cannot read properties of undefined (reading 'planStatus')")
  | Some userStatus =>
      let planInfo := planStatus userStatus ≫= planInfo in
      let availableCredits := planStatus userStatus ≫= availablePromptCredits in
      let promptCredits :=
        match planInfo, availableCredits with
        | Some planInfo, Some availableCredits =>
            let monthly := Number (monthlyPromptCredits planInfo) in
            let available := Number availableCredits in
            match monthly with
            | Some m =>
                if Js.ltb 0 m then
                  Some {| available := available;
                          monthly := Some m;
                          usedPercentage :=
                            (λ a, Js.mul (Js.div (Js.sub m a) m) 100) <$> available;
                          remainingPercentage :=
                            (λ a, Js.mul (Js.div a m) 100) <$> available |}
                else None
            | None => None
            end
        | _, _ => None
        end in
      let rawModels :=
        default [] (cascadeModelConfigData userStatus ≫= clientModelConfigs) in
      let '(models, k) := parseModels clock 0 rawModels in
      inr {| timestamp := clock k;
             models := models;
             promptCredits := promptCredits |}
  end.

(** How the promise of [request] settles. *)
Inductive RequestResult : Type :=
| Rejected (e : Js.Error)
| Resolved (data : ServerUserStatusResponse).

(** [poll()]: the value the promise settles with and the state it
    leaves. [res] is what the request would settle with; it is not
    issued when the service is not configured. [clock] gives the readings
    of the clock while the response is parsed. *)
Definition poll (st : State) (res : RequestResult) (clock : nat → Z)
    : (Js.Error + list ModelQuota) * State :=
  if negb (isConfigured st) then
    (inl (Js.GenericError "QuotaService not configured"), st)
  else
    match res with
    | Rejected e => (inl e, st)
    | Resolved response =>
        match parseResponse clock response with
        | inl e => (inl e, st)
        | inr snap =>
            (inr (models snap),
             {| port := port st; csrfToken := csrfToken st; lastSnapshot := Some snap |})
        end
    end.

End WithHost.

End QuotaService.

(** ** Analytics engine ([src/insights/insightsService.ts]) *)

Module InsightsService.

Definition MAX_HISTORY : nat := 20.

Record State : Type := {
  history : list HistoryEntry;
  sessionStart : Z;
  sessionStartQuotas : gmap string Q;
  lastActiveModelId : option string
}.

(** [new InsightsService()] at clock reading [now] *)
Definition init (now : Z) : State :=
  {| history := [];
     sessionStart := now;
     sessionStartQuotas := ∅;
     lastActiveModelId := None |}.

(** [new Date(t)] for a finite number [t]: the time value is clipped to
    whole milliseconds, and the date is invalid beyond 8.64e15 ms. *)
Definition Date_of_number (t : Q) : option Z :=
  if Js.leb (Qabs t) 8640000000000000
  then Some (Z.quot (Qnum t) (Z.pos (Qden t)))
  else None.

(** The entry that [recordSnapshot] builds. *)
Definition entryOf (snapshot : QuotaSnapshot) : HistoryEntry :=
  {| entry_timestamp := timestamp snapshot;
     entry_models :=
       foldl (λ (acc : gmap string Q) m, <[modelId m := remainingPercent m]> acc)
             ∅ (models snapshot) |}.

Definition recordSnapshot (st : State) (snapshot : QuotaSnapshot) : State :=
  let entry := entryOf snapshot in
  let pushed := (history st ++ [entry])%list in
  {| history := if (MAX_HISTORY <? List.length pushed)%nat then tail pushed else pushed;
     sessionStart := sessionStart st;
     sessionStartQuotas := sessionStartQuotas st;
     lastActiveModelId := lastActiveModelId st |}.

Definition initSessionStart (st : State) (snapshot : QuotaSnapshot) : State :=
  {| history := history st;
     sessionStart := sessionStart st;
     sessionStartQuotas :=
       foldl (λ (acc : gmap string Q) m,
                match acc !! modelId m with
                | Some _ => acc
                | None => <[modelId m := remainingPercent m]> acc
                end)
             (sessionStartQuotas st) (models snapshot);
     lastActiveModelId := lastActiveModelId st |}.

(** Burn rate in percent per hour. The last branch of the outer match is
    not reachable: a history of two entries has a first and a last one. *)
Definition calculateBurnRate (st : State) (id : string) : Q :=
  if (List.length (history st) <? 2)%nat then 0%Q
  else
    match head (history st), last (history st) with
    | Some oldest, Some newest =>
        match entry_models oldest !! id, entry_models newest !! id with
        | Some oldValue, Some newValue =>
            let deltaPercent := Js.sub oldValue newValue in
            let deltaHours :=
              Js.div (inject_Z (entry_timestamp newest - entry_timestamp oldest))
                     (inject_Z (1000 * 60 * 60)) in
            if Js.leb deltaHours 0 then 0%Q
            else Js.Math_max 0 (Js.div deltaPercent deltaHours)
        | _, _ => 0%Q
        end
    | _, _ => 0%Q
    end.

Definition calculateSessionUsage (st : State) (id : string) (currentPercent : Q) : Q :=
  match sessionStartQuotas st !! id with
  | None => 0%Q
  | Some startPercent => Js.Math_max 0 (startPercent - currentPercent)
  end.

Definition detectActiveModel (st : State) (m : ModelQuota) (snapshot : QuotaSnapshot) : bool :=
  let burnRate := calculateBurnRate st (modelId m) in
  let byBurnRate :=
    if Js.ltb 1 burnRate then
      let allBurnRates := map (λ m', calculateBurnRate st (modelId m')) (models snapshot) in
      match Js.Math_max_list allBurnRates with
      | Some maxBurnRate => Js.strict_eqb burnRate maxBurnRate
      | None => false
      end
    else false in
  if byBurnRate then true
  else if decide (lastActiveModelId st = Some (modelId m)) then true
  else false.

Definition getTrendDirection (remainingPercent burnRate : Q) : TrendDirection :=
  if Js.leb remainingPercent 10 || Js.ltb 20 burnRate then critical
  else if Js.leb remainingPercent 25 || Js.ltb 10 burnRate then warning
  else if Js.ltb 2 burnRate then decreasing
  else stable.

Definition getBurnRateLabel (burnRate : Q) : string :=
  if Js.leb burnRate (1 # 2) then "Minimal"
  else if Js.leb burnRate 2 then "Slow"
  else if Js.leb burnRate 5 then "Moderate"
  else if Js.leb burnRate 15 then "Fast"
  else "Very Fast".

Definition formatPrediction (hours : Q) : string :=
  if Js.ltb 48 hours then
    let days := Js.Math_floor (Js.div hours 24) in
    "~" +:+ pretty days +:+ "d"
  else if Js.ltb 1 hours then
    let h := Js.Math_floor hours in
    let m := Js.Math_round (Js.mul (Js.sub hours (inject_Z h)) 60) in
    if 0 <? m then "~" +:+ pretty h +:+ "h " +:+ pretty m +:+ "m"
    else "~" +:+ pretty h +:+ "h"
  else
    let mins := Js.Math_round (Js.mul hours 60) in
    if 0 <? mins then "~" +:+ pretty mins +:+ "m" else "<1m".

(** [analyzeModel]; [now] is what [Date.now()] returns when the call
    reads it, which it does once, for the prediction. *)
Definition analyzeModel (now : Z) (st : State) (m : ModelQuota) (snapshot : QuotaSnapshot)
    : ModelWithInsights * State :=
  let burnRate := calculateBurnRate st (modelId m) in
  let sessionUsage := calculateSessionUsage st (modelId m) (remainingPercent m) in
  let isActive := detectActiveModel st m snapshot in
  let '(predictedExhaustion, predictedExhaustionLabel) :=
    if Js.ltb 0 burnRate && Js.ltb 0 (remainingPercent m) then
      let hoursUntilEmpty := Js.div (remainingPercent m) burnRate in
      (Date_of_number
         (Js.add (inject_Z now) (Js.mul (Js.mul (Js.mul hoursUntilEmpty 60) 60) 1000)),
       formatPrediction hoursUntilEmpty)
    else if isExhausted m then (None, "Exhausted")
    else (None, "Safe") in
  let trendDirection := getTrendDirection (remainingPercent m) burnRate in
  let burnRateLabel := getBurnRateLabel burnRate in
  let st' :=
    if isActive then
      {| history := history st;
         sessionStart := sessionStart st;
         sessionStartQuotas := sessionStartQuotas st;
         lastActiveModelId := Some (modelId m) |}
    else st in
  ({| quota := m;
      insights :=
        {| burnRate := burnRate;
           burnRateLabel := burnRateLabel;
           predictedExhaustion := predictedExhaustion;
           predictedExhaustionLabel := predictedExhaustionLabel;
           trendDirection := trendDirection;
           sessionUsage := sessionUsage;
           isActive := isActive |} |},
   st').

(** [snapshot.models.map(model => this.analyzeModel(model, snapshot))],
    the state being threaded through the calls in the order of the array.
    [ms] are the resources from index [i] on, and [now j] is the clock
    during the call for the resource of index [j]. *)
Fixpoint analyzeModels (now : nat → Z) (i : nat) (st : State) (snapshot : QuotaSnapshot)
    (ms : list ModelQuota) : list ModelWithInsights * State :=
  match ms with
  | [] => ([], st)
  | m :: ms' =>
      let '(r, st1) := analyzeModel (now i) st m snapshot in
      let '(rs, st2) := analyzeModels now (S i) st1 snapshot ms' in
      (r :: rs, st2)
  end.

(** The comparator of the sort: active first, then by lowest remaining. *)
Definition compareModels (a b : ModelWithInsights) : Q :=
  if isActive (insights a) && negb (isActive (insights b)) then (-1)%Q
  else if negb (isActive (insights a)) && isActive (insights b) then 1%Q
  else (remainingPercent (quota a) - remainingPercent (quota b))%Q.

Definition calculateOverallHealth (ms : list ModelWithInsights) : Z * string :=
  match ms with
  | [] => (100, "Unknown")
  | _ =>
      let '(totalWeight, weightedSum) :=
        foldl (λ '(totalWeight, weightedSum) m,
                 let weight := if isActive (insights m) then 3%Q else 1%Q in
                 ((totalWeight + weight)%Q,
                  (weightedSum + remainingPercent (quota m) * weight)%Q))
              (0%Q, 0%Q) ms in
      let overallHealth := Js.Math_round (weightedSum / totalWeight) in
      (overallHealth,
       if 75 <=? overallHealth then "Excellent"
       else if 50 <=? overallHealth then "Good"
       else if 25 <=? overallHealth then "Low"
       else "Critical")
  end.

(** [analyze(snapshot)]; [now j] is the clock while the resource of
    index [j] of the snapshot is analysed. *)
Definition analyze (now : nat → Z) (st : State) (snap : QuotaSnapshot)
    : SnapshotWithInsights * State :=
  let st1 := recordSnapshot st snap in
  let st2 := initSessionStart st1 snap in
  let '(analyzed, st3) := analyzeModels now 0 st2 snap (models snap) in
  let sorted := Js.Array_sort compareModels analyzed in
  let '(overallHealth, healthLabel) := calculateOverallHealth sorted in
  let totalSessionUsage :=
    match sorted with
    | [] => 0%Q
    | _ =>
        (foldl (λ sum m, sum + sessionUsage (insights m)) 0 sorted
         / inject_Z (Z.of_nat (List.length sorted)))%Q
    end in
  ({| snapshot := snap;
      modelsWithInsights := sorted;
      overallHealth := overallHealth;
      healthLabel := healthLabel;
      sessionStartTime := sessionStart st3;
      totalSessionUsage := Js.Math_round totalSessionUsage |},
   st3).

(** The engine after a sequence of [analyze] calls, each with its
    clock. *)
Definition analyzeAll (st : State) (calls : list ((nat → Z) * QuotaSnapshot)) : State :=
  foldl (λ st '(now, snap), snd (analyze now st snap)) st calls.

End InsightsService.

(** ** Platform strategies ([src/core/platformStrategies.ts]) *)

Module UnixStrategy.

(** [[a-zA-Z0-9-]] *)
Definition isTokenChar (c : ascii) : bool :=
  Js.isLower c || Js.isUpper c || Js.isDigit c || Ascii.eqb c "-".

(** The body of the loop for a line that has the port flag. The process id
    is [None] when [parseInt] yields [NaN]; the capture of the port flag is a
    run of digits, of which [parseInt] always makes a number. *)
Definition parseLine (line : string) : ProcessMatch (option Z) :=
  let parts := Js.split_ws (Js.trim line) in
  let part0 := hd EmptyString parts in
  let pid := Js.parseInt part0 in
  let cmd := Js.trim (Js.substring_from (String.length part0) line) in
  let portMatch := Js.match_flag false "--extension_server_port" Js.isDigit cmd in
  let tokenMatch := Js.match_flag false "--csrf_token" isTokenChar cmd in
  {| pid := pid;
     extensionPort :=
       match portMatch with
       | Some digits => default 0 (Js.parseInt digits)
       | None => 0
       end;
     csrfToken :=
       match tokenMatch with
       | Some t => t
       | None => EmptyString
       end |}.

Fixpoint parseLines (lines : list string) : option (ProcessMatch (option Z)) :=
  match lines with
  | [] => None
  | line :: rest =>
      if Js.includes line "--extension_server_port" then Some (parseLine line)
      else parseLines rest
  end.

Definition parseProcessInfo (stdout : string) : option (ProcessMatch (option Z)) :=
  parseLines (Js.split_char "010" stdout).

Inductive Platform : Type := darwin | linux.

(** [[\d.]] *)
Definition isDigitOrDot (c : ascii) : bool := Js.isDigit c || Ascii.eqb c ".".

(** [[\da-f:]] under the [i] flag *)
Definition isHexOrColon (c : ascii) : bool :=
  let n := nat_of_ascii (Js.foldCase c) in
  Js.isDigit c || ((97 <=? n)%nat && (n <=? 102)%nat) || Ascii.eqb c ":".

(** [(?:\*|[\d.]+|\[[\da-f:]+\])] at the start of [s] ([\[[\da-f:]*\]] when
    [emptyBrackets]). The three alternatives start with different code
    units, and none of their classes holds the code unit that must follow,
    so the first one that matches is the only one that can. *)
Definition address (emptyBrackets : bool) (s : string) : option string :=
  match Js.after_literal false "*" s with
  | Some rest => Some rest
  | None =>
      match Js.run1 isDigitOrDot s with
      | Some (_, rest) => Some rest
      | None =>
          rest ← Js.after_literal false "[" s;
          rest ←
            (if emptyBrackets then Some (Js.span isHexOrColon rest).2
             else snd <$> Js.run1 isHexOrColon rest);
          Js.after_literal false "]" rest
      end
  end.

(** [/(?:TCP|UDP)\s+(?:\*|[\d.]+|\[[\da-f:]+\]):(\d+)\s+\(LISTEN\)/gi] at
    the start of [s]. *)
Definition lsof_here (s : string) : option (string * string) :=
  rest ←
    match Js.after_literal true "TCP" s with
    | Some rest => Some rest
    | None => Js.after_literal true "UDP" s
    end;
  '(_, rest) ← Js.run1 Js.isWhiteSpace rest;
  rest ← address false rest;
  rest ← Js.after_literal false ":" rest;
  '(port, rest) ← Js.run1 Js.isDigit rest;
  '(_, rest) ← Js.run1 Js.isWhiteSpace rest;
  rest ← Js.after_literal true "(LISTEN)" rest;
  Some (port, rest).

(** [/LISTEN\s+\d+\s+\d+\s+(?:\*|[\d.]+|\[[\da-f:]*\]):(\d+)/gi] at the
    start of [s]. *)
Definition ss_here (s : string) : option (string * string) :=
  rest ← Js.after_literal true "LISTEN" s;
  '(_, rest) ← Js.run1 Js.isWhiteSpace rest;
  '(_, rest) ← Js.run1 Js.isDigit rest;
  '(_, rest) ← Js.run1 Js.isWhiteSpace rest;
  '(_, rest) ← Js.run1 Js.isDigit rest;
  '(_, rest) ← Js.run1 Js.isWhiteSpace rest;
  rest ← address true rest;
  rest ← Js.after_literal false ":" rest;
  Js.run1 Js.isDigit rest.

Definition parseListeningPorts (platform : Platform) (stdout : string) : list Z :=
  let ports :=
    match platform with
    | darwin => Js.collectPorts lsof_here stdout
    | linux =>
        let ports := Js.collectPorts ss_here stdout in
        if (List.length ports =? 0)%nat then Js.collectPorts lsof_here stdout
        else ports
    end in
  Js.sortPorts ports.

End UnixStrategy.

Module WindowsStrategy.

(** The private field [usePowerShell]; nothing assigns it after its
    initialisation. *)
Definition usePowerShell : bool := true.

Definition eqb_ci (a b : ascii) : bool :=
  Ascii.eqb (Js.foldCase a) (Js.foldCase b).

(** A match of [/--app_data_dir\s+antigravity\b/i] at the start of [s]. *)
Definition appDataDir_here (s : string) : bool :=
  if Js.startsWith_by eqb_ci s "--app_data_dir" then
    let '(ws, rest) := Js.span Js.isWhiteSpace (Js.substring_from 14 s) in
    match ws with
    | EmptyString => false
    | _ =>
        if Js.startsWith_by eqb_ci rest "antigravity" then
          match Js.substring_from 11 rest with
          | EmptyString => true
          | String c _ => negb (Js.isWordChar c)
          end
        else false
    end
  else false.

Fixpoint test_appDataDir (s : string) : bool :=
  appDataDir_here s ||
  match s with
  | EmptyString => false
  | String _ s' => test_appDataDir s'
  end.

Definition isAntigravityProcess (commandLine : string) : bool :=
  let lowerCmd := Js.toLowerCase commandLine in
  if test_appDataDir commandLine then true
  else if Js.includes lowerCmd "\antigravity\" || Js.includes lowerCmd "/antigravity/"
  then true
  else false.

(** [[a-f0-9-]] under the [i] flag *)
Definition isHexTokenChar (c : ascii) : bool :=
  let n := nat_of_ascii (Js.foldCase c) in
  ((97 <=? n)%nat && (n <=? 102)%nat) || Js.isDigit c || Ascii.eqb c "-".

(** What the two strategies do with a command line once the process is
    chosen; [None] when the token flag has no match. *)
Definition matchOfCommandLine {P} (p : P) (commandLine : string) : option (ProcessMatch P) :=
  let portMatch := Js.match_flag false "--extension_server_port" Js.isDigit commandLine in
  let tokenMatch := Js.match_flag true "--csrf_token" isHexTokenChar commandLine in
  match tokenMatch with
  | None => None
  | Some t =>
      Some {| pid := p;
              extensionPort :=
                match portMatch with
                | Some digits => default 0 (Js.parseInt digits)
                | None => 0
                end;
              csrfToken := t |}
  end.

(** [v.name] for a value that came out of [JSON.parse]: reading a property
    of [null] throws, a missing property is [undefined] ([None]). *)
Definition getProperty (v : Json) (name : string) : Js.Error + option Json :=
  match v with
  | JNull => inl (Js.TypeError "Cannot read properties of null")
  | JObject fields => inr ((λ r, r.2.2) <$> list_find (λ kv, kv.1 = name) fields)
  | _ => inr None
  end.

(** [ToBoolean] *)
Definition truthy (v : option Json) : bool :=
  match v with
  | None | Some JNull => false
  | Some (JBool b) => b
  | Some (JNumber q) => negb (Qeq_bool q 0)
  | Some (JString s) => negb (String.eqb s EmptyString)
  | Some (JArray _) | Some (JObject _) => true
  end.

(** [item.CommandLine && this.isAntigravityProcess(item.CommandLine)]: a
    truthy command line that is not a string has no [toLowerCase]. *)
Definition hasAntigravityCommandLine (item : Json) : Js.Error + bool :=
  match getProperty item "CommandLine" with
  | inl e => inl e
  | inr cl =>
      if truthy cl then
        match cl with
        | Some (JString s) => inr (isAntigravityProcess s)
        | _ => inl (Js.TypeError "commandLine.toLowerCase is not a function")
        end
      else inr false
  end.

(** [data.filter(...)]: the callback runs on every item, and the first
    exception ends the filter. *)
Fixpoint filterAntigravity (items : list Json) : Js.Error + list Json :=
  match items with
  | [] => inr []
  | item :: rest =>
      match hasAntigravityCommandLine item with
      | inl e => inl e
      | inr keep =>
          match filterAntigravity rest with
          | inl e => inl e
          | inr kept => inr (if keep then item :: kept else kept)
          end
      end
  end.

(** The statements after the choice of [data]. *)
Definition matchOfRecord (data : Json) : Js.Error + option (ProcessMatch Json) :=
  match getProperty data "CommandLine" with
  | inl e => inl e
  | inr cl =>
      let commandLine :=
        match cl with
        | Some (JString s) => s
        | _ => EmptyString
        end in
      match getProperty data "ProcessId" with
      | inl e => inl e
      | inr p =>
          if negb (truthy p) then inr None
          else inr (matchOfCommandLine (default JNull p) commandLine)
      end
  end.

(** The body of the [try]; [inl] is an exception, which the [catch] turns
    into the WMIC parsing. *)
Definition parsePowerShell `{Host} (stdout : string)
    : Js.Error + option (ProcessMatch Json) :=
  match JSON_parse (Js.trim stdout) with
  | None => inl (Js.GenericError "SyntaxError")
  | Some (JArray items) =>
      match items with
      | [] => inr None
      | _ =>
          match filterAntigravity items with
          | inl e => inl e
          | inr [] => inr None
          | inr (first :: _) => matchOfRecord first
          end
      end
  | Some data =>
      match hasAntigravityCommandLine data with
      | inl e => inl e
      | inr false => inr None
      | inr true => matchOfRecord data
      end
  end.

(** The body of the loop over the WMIC blocks; [None] is [continue]. The
    capture of the process id is a run of digits, of which [parseInt] always
    makes a number. *)
Definition parseBlock (block : string) : option (ProcessMatch Json) :=
  match Js.match_literal_run "ProcessId=" Js.isDigit block,
        Js.match_literal_run "CommandLine=" Js.isNotLineTerminator block with
  | Some pidDigits, Some commandLineText =>
      let commandLine := Js.trim commandLineText in
      if negb (isAntigravityProcess commandLine) then None
      else
        matchOfCommandLine
          (match Js.parseInt pidDigits with
           | Some n => JNumber (inject_Z n)
           | None => JNull
           end)
          commandLine
  | _, _ => None
  end.

Fixpoint parseBlocks (blocks : list string) : option (ProcessMatch Json) :=
  match blocks with
  | [] => None
  | block :: rest =>
      match parseBlock block with
      | Some m => Some m
      | None => parseBlocks rest
      end
  end.

Definition parseWmic (stdout : string) : option (ProcessMatch Json) :=
  parseBlocks
    (filter (λ block, (0 < String.length (Js.trim block))%nat)
            (Js.split_blankLines stdout)).

Definition parseProcessInfo `{Host} (stdout : string) : option (ProcessMatch Json) :=
  let tryJson :=
    usePowerShell
    || Js.startsWith (Js.trim stdout) "{"
    || Js.startsWith (Js.trim stdout) "[" in
  if tryJson then
    match parsePowerShell stdout with
    | inr result => result
    | inl _ => parseWmic stdout
    end
  else parseWmic stdout.

(** [(?:127\.0\.0\.1|0\.0\.0\.0|\[::1?\])] at the start of [s]. *)
Definition loopbackAddress (s : string) : option string :=
  match Js.after_literal false "127.0.0.1" s with
  | Some rest => Some rest
  | None =>
      match Js.after_literal false "0.0.0.0" s with
      | Some rest => Some rest
      | None =>
          rest ← Js.after_literal false "[::" s;
          match Js.after_literal false "1]" rest with
          | Some rest' => Some rest'
          | None => Js.after_literal false "]" rest
          end
      end
  end.

(** [/(?:127\.0\.0\.1|0\.0\.0\.0|\[::1?\]):(\d+)\s+\S+\s+LISTENING/gi] at
    the start of [s]. *)
Definition netstat_here (s : string) : option (string * string) :=
  rest ← loopbackAddress s;
  rest ← Js.after_literal false ":" rest;
  '(port, rest) ← Js.run1 Js.isDigit rest;
  '(_, rest) ← Js.run1 Js.isWhiteSpace rest;
  '(_, rest) ← Js.run1 Js.isNotWhiteSpace rest;
  '(_, rest) ← Js.run1 Js.isWhiteSpace rest;
  rest ← Js.after_literal true "LISTENING" rest;
  Some (port, rest).

Definition parseListeningPorts (stdout : string) : list Z :=
  Js.sortPorts (Js.collectPorts netstat_here stdout).

End WindowsStrategy.

(** ** Process detector ([src/core/processDetector.ts]) *)

Module ProcessDetector.

(** The two parsers of [PlatformStrategy]; [P] is the type of the process
    id as the strategy extracts it. *)
Class PlatformStrategy (P : Type) : Type := {
  parseProcessInfo : string → option (ProcessMatch P);
  parseListeningPorts : string → list Z
}.

Definition windowsStrategy `{Host} : PlatformStrategy Json :=
  {| parseProcessInfo := WindowsStrategy.parseProcessInfo;
     parseListeningPorts := WindowsStrategy.parseListeningPorts |}.

Definition unixStrategy (platform : UnixStrategy.Platform)
    : PlatformStrategy (option Z) :=
  {| parseProcessInfo := UnixStrategy.parseProcessInfo;
     parseListeningPorts := UnixStrategy.parseListeningPorts platform |}.

(** What the detector sees of the machine during attempt [i]: the output of
    the process-list command and of the port-list command for a process id
    ([None] when [exec] rejects: the command fails or times out), and
    whether a port answers the probe made with a token ([testPort]). *)
Record World (P : Type) : Type := {
  processList : nat → option string;
  portList : nat → P → option string;
  answers : nat → Z → string → bool
}.
Arguments processList {P} _ _.
Arguments portList {P} _ _ _.
Arguments answers {P} _ _ _ _.

(** [ProcessInfo] *)
Record ProcessInfo (P : Type) : Type := {
  info_pid : P;
  info_extensionPort : Z;
  connectPort : Z;
  info_csrfToken : string
}.
Arguments info_pid {P} _.
Arguments info_extensionPort {P} _.
Arguments connectPort {P} _.
Arguments info_csrfToken {P} _.

Section Detect.
Context {P : Type} `{PlatformStrategy P} (world : World P).

Definition getListeningPorts (i : nat) (p : P) : list Z :=
  match portList world i p with
  | Some stdout => parseListeningPorts stdout
  | None => []
  end.

Fixpoint findWorkingPort (i : nat) (ports : list Z) (token : string) : option Z :=
  match ports with
  | [] => None
  | port :: rest =>
      if answers world i port token then Some port
      else findWorkingPort i rest token
  end.

(** The body of the loop of [detect]; [None] when the attempt goes on to
    the next one. A port of 0 is falsy and is not taken. *)
Definition attempt (i : nat) : option (ProcessInfo P) :=
  match processList world i with
  | None => None
  | Some stdout =>
      match parseProcessInfo stdout with
      | None => None
      | Some info =>
          let ports := getListeningPorts i (pid info) in
          if (0 <? List.length ports)%nat then
            match findWorkingPort i ports (csrfToken info) with
            | Some validPort =>
                if validPort =? 0 then None
                else Some {| info_pid := pid info;
                             info_extensionPort := extensionPort info;
                             connectPort := validPort;
                             info_csrfToken := csrfToken info |}
            | None => None
            end
          else None
      end
  end.

(** The loop of [detect], from attempt [i] with [remaining] attempts to go. *)
Fixpoint detect_from (i remaining : nat) : option (ProcessInfo P) :=
  match remaining with
  | O => None
  | S remaining' =>
      match attempt i with
      | Some info => Some info
      | None => detect_from (S i) remaining'
      end
  end.

Definition detect (maxRetries : nat) : option (ProcessInfo P) :=
  detect_from O maxRetries.

End Detect.

End ProcessDetector.

(** ** Extension entry point ([src/extension.ts]) *)

Module Extension.

(** The callback of the filter of [checkForWarnings]: some quota is left,
    and no more than the alert threshold of the configuration. *)
Definition isLow (alertThreshold : Q) (m : ModelWithInsights) : bool :=
  Js.ltb 0 (remainingPercent (quota m))
  && Js.leb (remainingPercent (quota m)) alertThreshold.

(** [checkForWarnings]: the resource for which the warning is shown, the
    loop ending at the first active one of the low resources; [None] when
    no warning is shown. *)
Definition checkForWarnings (snapshot : SnapshotWithInsights) (alertThreshold : Q)
    : option ModelWithInsights :=
  let lowModels := List.filter (isLow alertThreshold) (modelsWithInsights snapshot) in
  List.find (λ model, isActive (insights model)) lowModels.

End Extension.

(** ** Vocabulary of the statements *)

Module Spec.

(** Rule (a) of the active-resource inference as the engine applies it to a
    resource of the snapshot: its burn rate exceeds 1 percent per hour and
    no resource of the snapshot burns faster. *)
Definition topBurnRate (st : InsightsService.State) (snap : QuotaSnapshot)
    (m : ModelQuota) : Prop :=
  (1 < InsightsService.calculateBurnRate st (modelId m))%Q
  ∧ ∀ m' : ModelQuota, m' ∈ models snap →
      (InsightsService.calculateBurnRate st (modelId m')
       <= InsightsService.calculateBurnRate st (modelId m))%Q.

(** What the engine remembers once the resources [pre] of the snapshot have
    been analysed, [st0] being the engine when the analysis of the resources
    starts: the id it held then as long as no resource had the top burn
    rate, the id of such a resource afterwards. *)
Definition remembers (snap : QuotaSnapshot) (st0 : InsightsService.State)
    (pre : list ModelQuota) (st : InsightsService.State) : Prop :=
  (InsightsService.lastActiveModelId st = InsightsService.lastActiveModelId st0
   ∧ ∀ m, m ∈ pre → ¬ topBurnRate st0 snap m)
  ∨ (∃ m, m ∈ pre ∧ topBurnRate st0 snap m
          ∧ InsightsService.lastActiveModelId st = Some (modelId m)).

(** The same rule read off the analysed resources. *)
Definition hasTopBurnRate (analyzed : list ModelWithInsights)
    (r : ModelWithInsights) : Prop :=
  (1 < burnRate (insights r))%Q
  ∧ ∀ r' : ModelWithInsights, r' ∈ analyzed →
      (burnRate (insights r') <= burnRate (insights r))%Q.

(** Rule (a) with a strictly maximal burn rate: every other resource burns
    strictly slower. *)
Definition hasStrictlyTopBurnRate (analyzed : list ModelWithInsights)
    (r : ModelWithInsights) : Prop :=
  (1 < burnRate (insights r))%Q
  ∧ ∀ r' : ModelWithInsights, r' ∈ analyzed → r' ≠ r →
      (burnRate (insights r') < burnRate (insights r))%Q.

(** The order in which [analyze] returns the resources: an active resource
    comes before one that is not active, and of two resources that are both
    active or both not, the one with the lower percentage comes first. *)
Definition displayOrder (a b : ModelWithInsights) : Prop :=
  (isActive (insights a) = true ∧ isActive (insights b) = false)
  ∨ (isActive (insights a) = isActive (insights b)
     ∧ (remainingPercent (quota a) <= remainingPercent (quota b))%Q).

(** How alarming a trend is. *)
Definition severity (t : TrendDirection) : nat :=
  match t with
  | stable => 0
  | decreasing => 1
  | warning => 2
  | critical => 3
  end.

(** The step of the loop of [initSessionStart]: the first percentage seen
    for an id is kept. *)
Definition baselineStep (acc : gmap string Q) (m : ModelQuota) : gmap string Q :=
  match acc !! modelId m with
  | Some _ => acc
  | None => <[modelId m := remainingPercent m]> acc
  end.

(** The step of the reduction of [calculateOverallHealth]. *)
Definition healthStep : Q * Q → ModelWithInsights → Q * Q :=
  λ '(totalWeight, weightedSum) m,
    let weight := if isActive (insights m) then 3%Q else 1%Q in
    ((totalWeight + weight)%Q, (weightedSum + remainingPercent (quota m) * weight)%Q).

(** The capture of an expression that lists ports is a run of digits. *)
Definition capturesDigits (here : string → option (string * string)) : Prop :=
  ∀ t capture rest : string,
    here t = Some (capture, rest) →
    capture ≠ EmptyString ∧ forallb Js.isDigit (list_ascii_of_string capture) = true.

(** The lowest of the ports on which the process [p] listens at attempt [i]
    and that answer the probe sent with [token]. *)
Definition lowestAnsweringPort {P} `{ProcessDetector.PlatformStrategy P}
    (world : ProcessDetector.World P) (i : nat) (p : P) (token : string) (port : Z) : Prop :=
  port ∈ ProcessDetector.getListeningPorts world i p
  ∧ ProcessDetector.answers world i port token = true
  ∧ ∀ q : Z, q ∈ ProcessDetector.getListeningPorts world i p →
      ProcessDetector.answers world i q token = true → port <= q.

(** Code units other than the hyphen, with which both flags start. *)
Definition noDash (c : ascii) : bool := negb (Ascii.eqb "-" c).

(** Code units of a path that holds neither a hyphen nor a line feed. *)
Definition lineChar (c : ascii) : bool :=
  negb (Ascii.eqb "-" c) && negb (Ascii.eqb c "010").

(** The flags of a command line, written with [=]. *)
Definition tokenFlag (token : string) : string :=
  "--csrf_token" +:+ "=" +:+ token +:+ EmptyString.

Definition portFlag (portDigits token : string) : string :=
  "--extension_server_port" +:+ "=" +:+ portDigits +:+ String " " (tokenFlag token).

(** A line of [pgrep -fl] for a language server started with both flags. *)
Definition unixLine (pidDigits path portDigits token : string) : string :=
  pidDigits +:+ " " +:+ path +:+ " --extension_server_port=" +:+ portDigits
  +:+ " --csrf_token=" +:+ token.

(** A match with a port that is not negative and a token that is a
    non-empty run of code units of the class [value]. *)
Definition wellFormed {P} (value : ascii → bool) (found : ProcessMatch P) : Prop :=
  0 <= extensionPort found
  ∧ csrfToken found ≠ EmptyString
  ∧ forallb value (list_ascii_of_string (csrfToken found)) = true.

End Spec.

(** ** Data of the examples *)

Module Examples.

(** [createMockModelQuota] of the tests, with an id and a percentage. *)
Definition mockModel (id : string) (percent : Z) : ModelQuota :=
  {| label := id;
     modelId := id;
     remainingFraction := (inject_Z percent / 100)%Q;
     remainingPercent := inject_Z percent;
     isExhausted := percent =? 0;
     resetTime := Some 0;
     timeUntilReset := Some 0;
     timeUntilResetFormatted := "Ready" |}.

Definition mockSnapshot (t : Z) (ms : list ModelQuota) : QuotaSnapshot :=
  {| timestamp := t; models := ms; promptCredits := None |}.

Definition hour : Z := 3600000.

(** A clock that shows [t] at every reading. *)
Definition stopped (t : Z) : nat → Z := λ _, t.

(** A raw entry with quota information. *)
Definition rawEntry (l id : string) (fraction : Q) : RawModelConfig :=
  {| raw_label := l;
     modelOrAlias := Some {| model := Some id |};
     quotaInfo := Some {| raw_remainingFraction := Some fraction;
                          raw_resetTime := None |} |}.

Definition rawStatus (plan : option PlanStatus) (entries : list RawModelConfig)
    : UserStatus :=
  {| planStatus := plan;
     cascadeModelConfigData := Some {| clientModelConfigs := Some entries |} |}.

Definition rawResponse (plan : option PlanStatus) (entries : list RawModelConfig)
    : ServerUserStatusResponse :=
  {| userStatus := Some (rawStatus plan entries) |}.

(** A raw entry with quota information and no model identifier. *)
Definition anonymousEntry (l : string) (fraction : Q) : RawModelConfig :=
  {| raw_label := l;
     modelOrAlias := None;
     quotaInfo := Some {| raw_remainingFraction := Some fraction;
                          raw_resetTime := None |} |}.

(** Two upstream entries that come without a model identifier. *)
Definition anonymousResponse : ServerUserStatusResponse :=
  rawResponse None
    [anonymousEntry "Gemini Pro" (1 # 2); anonymousEntry "GPT-4" (1 # 4)].

(** The double nearest to 0.015, which is what [JSON.parse] makes of the
    text [0.015]. *)
Definition fifteenThousandths : Q := 1080863910568919 # 72057594037927936.

Definition fifteenThousandthsResponse : ServerUserStatusResponse :=
  rawResponse None [rawEntry "GPT-4" "openai/gpt-4" fifteenThousandths].

(** A resource with four thousandths of its quota left. *)
Definition nearlyEmptyResponse : ServerUserStatusResponse :=
  rawResponse None [rawEntry "GPT-4" "openai/gpt-4" (4 # 1000)].

(** Two resources that lose ten points each within the hour. *)
Definition tiedCalls : list ((nat → Z) * QuotaSnapshot) :=
  [(stopped 0, mockSnapshot 0 [mockModel "a" 100; mockModel "b" 100])].

Definition tiedSnapshot : QuotaSnapshot :=
  mockSnapshot hour [mockModel "a" 90; mockModel "b" 90].

(** Resource b is the one in use during the first hour, resource a during
    the second. *)
Definition handoverCalls : list ((nat → Z) * QuotaSnapshot) :=
  [(stopped 0, mockSnapshot 0 [mockModel "a" 100; mockModel "b" 100]);
   (stopped hour, mockSnapshot hour [mockModel "a" 100; mockModel "b" 90])].

Definition handoverSnapshot : QuotaSnapshot :=
  mockSnapshot (2 * hour) [mockModel "a" 80; mockModel "b" 90].

Definition tiedEngine : InsightsService.State :=
  InsightsService.analyzeAll (InsightsService.init 0) tiedCalls.

Definition handoverEngine : InsightsService.State :=
  InsightsService.analyzeAll (InsightsService.init 0) handoverCalls.

(** Resource a goes from 100 to 89 percent in 44 minutes. *)
Definition elevenPointsCalls : list ((nat → Z) * QuotaSnapshot) :=
  [(stopped 0, mockSnapshot 0 [mockModel "a" 100]);
   (stopped (44 * 60000), mockSnapshot (44 * 60000) [mockModel "a" 89])].

Definition elevenPointsEngine : InsightsService.State :=
  InsightsService.analyzeAll (InsightsService.init 0) elevenPointsCalls.

(** Resource a as the third analysis of the handover returns it. *)
Definition handoverFirst : ModelWithInsights :=
  (InsightsService.analyzeModel (2 * hour)
     (InsightsService.initSessionStart
        (InsightsService.recordSnapshot handoverEngine handoverSnapshot)
        handoverSnapshot)
     (mockModel "a" 80) handoverSnapshot).1.

(** The snapshot of a response that [parseResponse] accepts. *)
Definition parsed (now : Z) (data : ServerUserStatusResponse) : QuotaSnapshot :=
  match QuotaService.parseResponse (H := exampleHost) (stopped now) data with
  | inr snap => snap
  | inl _ => mockSnapshot now []
  end.

(** The response of the tests: 350 of 500 monthly credits left. *)
Definition creditsPlan : PlanStatus :=
  {| planInfo := Some {| monthlyPromptCredits := IsNumber 500 |};
     availablePromptCredits := Some (IsNumber 350) |}.

Definition claudeEntry : RawModelConfig :=
  rawEntry "Claude 3.5 Sonnet" "anthropic/claude-3.5-sonnet" (3 # 4).

Definition creditsEntries : list RawModelConfig :=
  [claudeEntry;
   rawEntry "GPT-4" "openai/gpt-4" (1 # 2);
   rawEntry "Gemini Pro" "google/gemini-pro" 0].

Definition creditsResponse : ServerUserStatusResponse :=
  rawResponse (Some creditsPlan) creditsEntries.

(** The two entries of the history of [handoverEngine]. *)
Definition handoverOldest : HistoryEntry :=
  InsightsService.entryOf (mockSnapshot 0 [mockModel "a" 100; mockModel "b" 100]).

Definition handoverNewest : HistoryEntry :=
  InsightsService.entryOf (mockSnapshot hour [mockModel "a" 100; mockModel "b" 90]).

(** Twenty-five polls, one a minute. *)
Definition manyCalls : list ((nat → Z) * QuotaSnapshot) :=
  map (λ i : nat, (stopped (60000 * Z.of_nat i),
                   mockSnapshot (60000 * Z.of_nat i) [mockModel "a" 100]))
      (seq 0 25).

(** A configured client and a request that times out. *)
Definition configuredClient : QuotaService.State :=
  QuotaService.setConnection QuotaService.init 42101 "test-csrf-token".

Definition timedOut : QuotaService.RequestResult :=
  QuotaService.Rejected (Js.GenericError "Request timeout").

(** A process list of one line, whose process has no token flag. *)
Definition tokenlessLine : string :=
  "4321 /opt/antigravity/language_server_linux --extension_server_port 42100".

(** A language server as [pgrep -fl] lists it, and the ports on which
    [lsof] finds it listening. *)
Definition serverLine : string :=
  "4242 /opt/antigravity/language_server --extension_server_port=42100 --csrf_token=abc-123".

Definition lsofOutput : string :=
  "language 4242 dev 23u IPv4 0x1 0t0 TCP *:42102 (LISTEN)"
  +:+ String "010"
  "language 4242 dev 24u IPv4 0x2 0t0 TCP 127.0.0.1:42101 (LISTEN)".

(** A machine on which the process list fails once, and on which the
    language server answers on port 42102 only. *)
Definition unixWorld : ProcessDetector.World (option Z) :=
  {| ProcessDetector.processList := λ i, if (i =? 0)%nat then None else Some serverLine;
     ProcessDetector.portList := λ _ _, Some lsofOutput;
     ProcessDetector.answers := λ _ p _, p =? 42102 |}.

Definition unixInfo : ProcessDetector.ProcessInfo (option Z) :=
  {| ProcessDetector.info_pid := Some 4242;
     ProcessDetector.info_extensionPort := 42100;
     ProcessDetector.connectPort := 42102;
     ProcessDetector.info_csrfToken := "abc-123" |}.

(** The same on Windows, with the output of [wmic] and of [netstat]. *)
Definition wmicOutput : string :=
  "CommandLine=C:\Programs\Antigravity\language_server.exe --extension_server_port=42100 --csrf_token=abc-123"
  +:+ String "010" "ProcessId=4242".

Definition netstatOutput : string :=
  "  TCP    127.0.0.1:42102    0.0.0.0:0    LISTENING    4242"
  +:+ String "010"
  "  TCP    127.0.0.1:42101    0.0.0.0:0    LISTENING    4242".

Definition windowsWorld : ProcessDetector.World Json :=
  {| ProcessDetector.processList := λ _, Some wmicOutput;
     ProcessDetector.portList := λ _ _, Some netstatOutput;
     ProcessDetector.answers := λ _ p _, p =? 42102 |}.

Definition windowsInfo : ProcessDetector.ProcessInfo Json :=
  {| ProcessDetector.info_pid := JNumber 4242;
     ProcessDetector.info_extensionPort := 42100;
     ProcessDetector.connectPort := 42102;
     ProcessDetector.info_csrfToken := "abc-123" |}.

(** An engine that has seen resource a at 100 percent. *)
Definition seenEngine : InsightsService.State :=
  InsightsService.analyzeAll (InsightsService.init 0)
    [(stopped 0, mockSnapshot 0 [mockModel "a" 100])].

Definition laterSnapshot : QuotaSnapshot :=
  mockSnapshot hour [mockModel "a" 60; mockModel "b" 80].

(** Five minutes after the first poll resource a has lost two points. *)
Definition fiveMinutes : Z := 5 * 60000.

Definition fiveMinutesSnapshot : QuotaSnapshot :=
  mockSnapshot fiveMinutes [mockModel "a" 98].

End Examples.

(** * Properties *)

(** ** Arithmetic of the built-ins *)

Lemma Js_ltb_spec (a b : Q) : Js.ltb a b = true ↔ (a < b)%Q.
Proof.
  unfold Js.ltb. rewrite negb_true_iff.
  destruct (Qle_bool b a) eqn:E.
  - apply Qle_bool_iff in E. split; [discriminate | intros; lra].
  - split; [intros _ | reflexivity].
    apply Qnot_le_lt. intros Hle. apply Qle_bool_iff in Hle. congruence.
Qed.

Lemma Js_leb_spec (a b : Q) : Js.leb a b = true ↔ (a <= b)%Q.
Proof. apply Qle_bool_iff. Qed.

(** Turns the comparisons of the code that are known to hold or to fail
    into facts about the rationals. *)
Ltac js_compare :=
  repeat match goal with
    | H : Js.ltb _ _ = true |- _ => apply Js_ltb_spec in H
    | H : Js.ltb ?a ?b = false |- _ =>
        assert (¬ (a < b)%Q) by (intros Hc; apply Js_ltb_spec in Hc; congruence);
        clear H
    | H : Js.leb _ _ = true |- _ => apply Js_leb_spec in H
    end.

Lemma Math_floor_quotient (a : Z) (b : positive) :
  Js.Math_floor (inject_Z a / inject_Z (Z.pos b)) = a / Z.pos b.
Proof.
  unfold Js.Math_floor, Qfloor, Qdiv, Qmult, Qinv, inject_Z. simpl.
  now rewrite Z.mul_1_r.
Qed.

Lemma Math_ceil_quotient (a : Z) (b : positive) :
  Js.Math_ceil (inject_Z a / inject_Z (Z.pos b)) = (a + Z.pos b - 1) / Z.pos b.
Proof.
  unfold Js.Math_ceil, Qceiling, Qfloor, Qdiv, Qmult, Qinv, Qopp, inject_Z. simpl.
  rewrite Z.mul_1_r, Pos.mul_1_l.
  set (d := Z.pos b). assert (0 < d) by (subst d; lia).
  pose proof (Z.mod_pos_bound (- a) d ltac:(lia)).
  pose proof (Z.div_mod (- a) d ltac:(lia)).
  apply Z.div_unique with (r := d - 1 - (- a) mod d); [lia |].
  rewrite Z.mul_opp_r. lia.
Qed.

Lemma Math_round_bounds (x : Q) :
  (inject_Z (Js.Math_round x) - (1 # 2) <= x < inject_Z (Js.Math_round x) + (1 # 2))%Q.
Proof.
  unfold Js.Math_round.
  pose proof (Qfloor_le (x + (1 # 2))) as Hlo.
  pose proof (Qlt_floor (x + (1 # 2))) as Hhi.
  rewrite inject_Z_plus in Hhi. change (inject_Z 1) with 1%Q in Hhi.
  split; lra.
Qed.

Lemma Math_round_range (x : Q) (lo hi : Z) :
  (inject_Z lo <= x <= inject_Z hi)%Q → lo <= Js.Math_round x <= hi.
Proof.
  intros [Hlo Hhi]. split.
  - unfold Js.Math_round. rewrite <- (Qfloor_Z lo). apply Qfloor_resp_le. lra.
  - assert (Js.Math_round x < hi + 1); [| lia].
    rewrite Zlt_Qlt, inject_Z_plus. change (inject_Z 1) with 1%Q.
    pose proof (Math_round_bounds x). lra.
Qed.

Lemma Math_max_cases (a b : Q) :
  ((a <= b)%Q ∧ Js.Math_max a b = b) ∨ ((b < a)%Q ∧ Js.Math_max a b = a).
Proof.
  unfold Js.Math_max. destruct (Qle_bool a b) eqn:E.
  - left. split; [now apply Qle_bool_iff | reflexivity].
  - right. split; [| reflexivity].
    apply Qnot_le_lt. intros Hle. apply Qle_bool_iff in Hle. congruence.
Qed.

Lemma Math_max_Qmax (a b : Q) : (Js.Math_max a b == Qmax a b)%Q.
Proof.
  destruct (Math_max_cases a b) as [[Hle ->] | [Hlt ->]].
  - symmetry. now apply Q.max_r.
  - symmetry. apply Q.max_l. lra.
Qed.

Lemma Math_max_list_spec (xs : list Q) (mx : Q) :
  Js.Math_max_list xs = Some mx →
  mx ∈ xs ∧ ∀ x, x ∈ xs → (x <= mx)%Q.
Proof.
  revert mx. induction xs as [| x xs IH]; intros mx; cbn; [discriminate |].
  destruct (Js.Math_max_list xs) as [m |] eqn:E.
  - intros [= <-]. destruct (IH m eq_refl) as [Hin Hub].
    destruct (Math_max_cases x m) as [[Hle ->] | [Hlt ->]]; split.
    + now right.
    + intros y [-> | Hy]%elem_of_cons; [exact Hle | auto].
    + now left.
    + intros y [-> | Hy]%elem_of_cons; [lra |]. specialize (Hub y Hy). lra.
  - intros [= <-]. destruct xs as [| y ys].
    + split; [now left |]. intros y [-> | Hy]%elem_of_cons; [lra | inversion Hy].
    + cbn in E. destruct (Js.Math_max_list ys); discriminate.
Qed.

Lemma Math_max_list_nonempty (x : Q) (xs : list Q) :
  x ∈ xs → is_Some (Js.Math_max_list xs).
Proof.
  destruct xs as [| y ys]; [inversion 1 | intros _].
  cbn. destruct (Js.Math_max_list ys); eauto.
Qed.

(** The sort keeps the elements. *)
Lemma sort_insert_Permutation {A} (cmp : A → A → Q) (x : A) (l : list A) :
  Js.sort_insert cmp x l ≡ₚ x :: l.
Proof.
  induction l as [| y l IH]; cbn; [reflexivity |].
  destruct (Js.ltb (cmp x y) 0); [reflexivity |].
  rewrite IH. apply Permutation_swap.
Qed.

Lemma Array_sort_Permutation {A} (cmp : A → A → Q) (l : list A) :
  Js.Array_sort cmp l ≡ₚ l.
Proof.
  unfold Js.Array_sort.
  enough (Hgen : ∀ acc, foldl (λ acc x, Js.sort_insert cmp x acc) acc l ≡ₚ acc ++ l).
  { apply (Hgen []). }
  induction l as [| x l IH]; intros acc; cbn.
  - now rewrite app_nil_r.
  - rewrite IH, sort_insert_Permutation. cbn. apply Permutation_middle.
Qed.

(** ** Doubles *)

(** *** Powers of two *)

Lemma pow2_pos (z : Z) : (0 < 2 ^ z)%Q.
Proof. apply Qpower_0_lt. reflexivity. Qed.

Lemma pow2_add (a b : Z) : (2 ^ (a + b) == 2 ^ a * 2 ^ b)%Q.
Proof. apply Qpower_plus. discriminate. Qed.

Lemma pow2_le (a b : Z) : a <= b → (2 ^ a <= 2 ^ b)%Q.
Proof. intros Hab. apply Qpower_le_compat_l; [exact Hab | discriminate]. Qed.

Lemma pow2_lt (a b : Z) : a < b → (2 ^ a < 2 ^ b)%Q.
Proof. intros Hab. apply Qpower_lt_compat_l; [exact Hab | reflexivity]. Qed.

Lemma pow2_lt_inv (a b : Z) : (2 ^ a < 2 ^ b)%Q → a < b.
Proof. intros Hab. apply (Qpower_lt_compat_l_inv 2); [exact Hab | reflexivity]. Qed.

Lemma pow2_Z (n : Z) : 0 <= n → (inject_Z (2 ^ n) == 2 ^ n)%Q.
Proof. intros Hn. now rewrite Zpower_Qpower. Qed.

Lemma pow2_split (p q : Z) : q <= p → (2 ^ p == inject_Z (2 ^ (p - q)) * 2 ^ q)%Q.
Proof.
  intros Hqp. rewrite pow2_Z by lia. rewrite <- pow2_add. now replace (p - q + q) with p by lia.
Qed.

(** *** The rounding to the nearest double *)

Lemma ilog2_spec (x : Q) :
  (0 < x)%Q → (2 ^ Js.ilog2 x <= x < 2 ^ (Js.ilog2 x + 1))%Q.
Proof.
  intros Hx. destruct x as [a b]. unfold Js.ilog2. cbn [Qnum Qden].
  assert (Ha : 0 < a) by (unfold Qlt in Hx; cbn in Hx; lia).
  set (la := Z.log2 a). set (lb := Z.log2 (Z.pos b)).
  pose proof (Z.log2_spec a Ha) as [Ha1 Ha2].
  pose proof (Z.log2_spec (Z.pos b) ltac:(lia)) as [Hb1 Hb2].
  pose proof (Z.log2_nonneg a) as Hla. pose proof (Z.log2_nonneg (Z.pos b)) as Hlb.
  fold la in Ha1, Ha2, Hla. fold lb in Hb1, Hb2, Hlb.
  rewrite Zle_Qle, pow2_Z in Ha1, Hb1 by lia.
  rewrite Zlt_Qlt, pow2_Z in Ha2, Hb2 by lia.
  replace (Z.succ la) with (la - lb + 1 + lb) in Ha2 by lia.
  replace (Z.succ lb) with (lb + 1) in Hb2 by lia.
  rewrite pow2_add in Ha2, Hb2.
  replace la with (la - lb + lb) in Ha1 at 1 by lia. rewrite pow2_add in Ha1.
  assert (Hq : (a # b == inject_Z a / inject_Z (Z.pos b))%Q) by apply Qmake_Qdiv.
  assert (HB : (0 < inject_Z (Z.pos b))%Q) by (rewrite <- (Zlt_Qlt 0); lia).
  set (A := inject_Z a) in *. set (B := inject_Z (Z.pos b)) in *.
  pose proof (pow2_pos (la - lb)) as Hp. pose proof (pow2_pos lb) as Hpb.
  pose proof (pow2_add (la - lb) 1) as Hnext.
  change (2 ^ 1)%Q with 2%Q in *.
  set (P := (2 ^ (la - lb))%Q) in *. set (L := (2 ^ lb)%Q) in *.
  assert (HxB : ((a # b) * B == A)%Q) by (rewrite Hq; field; lra).
  set (X := (a # b)%Q) in *.
  destruct (Qle_bool P X) eqn:E.
  - apply Qle_bool_iff in E. split; [exact E |]. rewrite Hnext.
    apply Qnot_le_lt. intros Hc. nra.
  - assert (Hlt : (X < P)%Q).
    { apply Qnot_le_lt. intros Hc. apply Qle_bool_iff in Hc. congruence. }
    replace (la - lb - 1 + 1) with (la - lb) by lia. split; [| exact Hlt].
    assert (Hprev : (P == 2 ^ (la - lb - 1) * 2)%Q).
    { subst P. replace (la - lb) with (la - lb - 1 + 1) at 1 by lia. now rewrite pow2_add. }
    pose proof (pow2_pos (la - lb - 1)) as Hp1.
    set (P1 := (2 ^ (la - lb - 1))%Q) in *.
    apply Qnot_lt_le. intros Hc. nra.
Qed.

Lemma nearest_even_bounds (m : Q) :
  (inject_Z (Js.nearest_even m) - (1 # 2) <= m <= inject_Z (Js.nearest_even m) + (1 # 2))%Q.
Proof.
  unfold Js.nearest_even.
  pose proof (Qfloor_le m) as Hlo. pose proof (Qlt_floor m) as Hhi.
  rewrite inject_Z_plus in Hhi. change (inject_Z 1) with 1%Q in Hhi.
  destruct (m - inject_Z (Qfloor m) ?= 1 # 2)%Q eqn:E.
  - assert (Hr : (m - inject_Z (Qfloor m) == 1 # 2)%Q) by (apply Qeq_alt; exact E).
    clear E. destruct (Z.even (Qfloor m));
      [| rewrite inject_Z_plus; change (inject_Z 1) with 1%Q]; lra.
  - assert (Hr : (m - inject_Z (Qfloor m) < 1 # 2)%Q) by (apply Qlt_alt; exact E).
    clear E. lra.
  - assert (Hr : (m - inject_Z (Qfloor m) > 1 # 2)%Q) by (apply Qgt_alt; exact E).
    clear E. rewrite inject_Z_plus. change (inject_Z 1) with 1%Q. lra.
Qed.

Lemma nearest_even_le (m : Q) (k : Z) : (m <= inject_Z k)%Q → Js.nearest_even m <= k.
Proof.
  intros Hm. pose proof (nearest_even_bounds m) as [Hlo _].
  assert (Hlt : (inject_Z (Js.nearest_even m) < inject_Z (k + 1))%Q).
  { rewrite inject_Z_plus. change (inject_Z 1) with 1%Q. lra. }
  rewrite <- Zlt_Qlt in Hlt. lia.
Qed.

Lemma nearest_even_ge (m : Q) (k : Z) : (inject_Z k <= m)%Q → k <= Js.nearest_even m.
Proof.
  intros Hm. pose proof (nearest_even_bounds m) as [_ Hhi].
  assert (Hlt : (inject_Z (k - 1) < inject_Z (Js.nearest_even m))%Q).
  { replace (k - 1) with (k + -1) by lia. rewrite inject_Z_plus.
    change (inject_Z (-1)) with (-1)%Q. lra. }
  rewrite <- Zlt_Qlt in Hlt. lia.
Qed.

(** The rounding of a positive number, in units in the last place. *)
Section Rounding.
Context (x : Q) (x_pos : (0 < x)%Q).

Lemma fl_pos_scaled (k : Z) :
  ((inject_Z k * 2 ^ Js.ulp_exponent x <= x)%Q
   → k <= Js.nearest_even (x / 2 ^ Js.ulp_exponent x))
  ∧ ((x <= inject_Z k * 2 ^ Js.ulp_exponent x)%Q
     → Js.nearest_even (x / 2 ^ Js.ulp_exponent x) <= k).
Proof.
  pose proof (pow2_pos (Js.ulp_exponent x)) as Hs. split; intros Hk.
  - apply nearest_even_ge. apply Qle_shift_div_l; [exact Hs | exact Hk].
  - apply nearest_even_le. apply Qle_shift_div_r; [exact Hs | exact Hk].
Qed.

Lemma fl_pos_nonneg : (0 <= Js.fl_pos x)%Q.
Proof.
  unfold Js.fl_pos. cbv zeta. pose proof (pow2_pos (Js.ulp_exponent x)) as Hs.
  destruct (fl_pos_scaled 0) as [Hge _].
  assert (Hn : 0 <= Js.nearest_even (x / 2 ^ Js.ulp_exponent x)).
  { apply Hge. change (inject_Z 0) with 0%Q. lra. }
  rewrite Zle_Qle in Hn. change (inject_Z 0) with 0%Q in Hn.
  set (n := inject_Z _) in *. set (s := (2 ^ _)%Q) in *. nra.
Qed.

Lemma fl_pos_error : (Qabs (Js.fl_pos x - x) <= 2 ^ (Js.ulp_exponent x - 1))%Q.
Proof.
  unfold Js.fl_pos. cbv zeta. set (q := Js.ulp_exponent x).
  pose proof (pow2_pos q) as Hs.
  pose proof (nearest_even_bounds (x / 2 ^ q)) as [Hlo Hhi].
  assert (Hx : (x == x / 2 ^ q * 2 ^ q)%Q) by (field; lra).
  assert (Hhalf : (2 ^ q == 2 ^ (q - 1) * 2)%Q).
  { replace q with (q - 1 + 1) at 1 by lia. now rewrite pow2_add. }
  pose proof (pow2_pos (q - 1)) as Hh.
  set (n := inject_Z _) in *.
  set (m := (x / 2 ^ q)%Q) in *. set (s := (2 ^ q)%Q) in *.
  set (h := (2 ^ (q - 1))%Q) in *.
  apply Qabs_Qle_condition. split; nra.
Qed.

Lemma fl_pos_le (c : Q) : Js.isDouble c → (x <= c)%Q → (Js.fl_pos x <= c)%Q.
Proof.
  intros (N & p & HN & Hp & Hc) Hxc. unfold Js.fl_pos. cbv zeta.
  pose proof (fl_pos_scaled) as Hscaled.
  assert (Hq : Js.ulp_exponent x = Z.max (Js.ilog2 x - 52) (-1074)) by reflexivity.
  set (q := Js.ulp_exponent x) in *.
  pose proof (pow2_pos q) as Hs. pose proof (pow2_pos p) as Hsp.
  destruct (Z_le_gt_dec q p) as [Hqp | Hqp].
  - pose proof (pow2_split p q Hqp) as Hsplit.
    assert (Hck : (c == inject_Z (N * 2 ^ (p - q)) * 2 ^ q)%Q).
    { rewrite Hc, Hsplit, inject_Z_mult. ring. }
    destruct (Hscaled (N * 2 ^ (p - q))) as [_ Hle].
    assert (Hn : Js.nearest_even (x / 2 ^ q) <= N * 2 ^ (p - q))
      by (apply Hle; now rewrite <- Hck).
    rewrite Hck. rewrite Zle_Qle in Hn.
    set (n := inject_Z (Js.nearest_even _)) in *. set (K := inject_Z (N * _)) in *.
    set (s := (2 ^ q)%Q) in *. nra.
  - exfalso. destruct (ilog2_spec x x_pos) as [Hlo _].
    assert (Hpow : (2 ^ (53 + p) <= 2 ^ Js.ilog2 x)%Q) by (apply pow2_le; lia).
    rewrite pow2_add in Hpow.
    assert (HN' : (inject_Z N < 2 ^ 53)%Q).
    { rewrite <- pow2_Z by lia. rewrite <- Zlt_Qlt. lia. }
    set (P := (2 ^ p)%Q) in *. set (T := (2 ^ 53)%Q) in *.
    set (L := (2 ^ Js.ilog2 x)%Q) in *. set (n := inject_Z N) in *.
    clear Hscaled. nra.
Qed.

Lemma fl_pos_ge (c : Q) : Js.isDouble c → (c <= x)%Q → (c <= Js.fl_pos x)%Q.
Proof.
  intros (N & p & HN & Hp & Hc) Hxc.
  pose proof fl_pos_nonneg as Hnn. unfold Js.fl_pos in *. cbv zeta in *.
  pose proof (fl_pos_scaled) as Hscaled.
  assert (Hq : Js.ulp_exponent x = Z.max (Js.ilog2 x - 52) (-1074)) by reflexivity.
  set (q := Js.ulp_exponent x) in *.
  pose proof (pow2_pos q) as Hs. pose proof (pow2_pos p) as Hsp.
  destruct (Z_le_gt_dec q p) as [Hqp | Hqp].
  - pose proof (pow2_split p q Hqp) as Hsplit.
    assert (Hck : (c == inject_Z (N * 2 ^ (p - q)) * 2 ^ q)%Q).
    { rewrite Hc, Hsplit, inject_Z_mult. ring. }
    destruct (Hscaled (N * 2 ^ (p - q))) as [Hge _].
    assert (Hn : N * 2 ^ (p - q) <= Js.nearest_even (x / 2 ^ q))
      by (apply Hge; now rewrite <- Hck).
    rewrite Hck. rewrite Zle_Qle in Hn.
    set (n := inject_Z (Js.nearest_even _)) in *. set (K := inject_Z (N * _)) in *.
    set (s := (2 ^ q)%Q) in *. nra.
  - destruct (ilog2_spec x x_pos) as [Hlo _].
    assert (He : Js.ilog2 x = 52 + q) by lia.
    assert (Hpow : (2 ^ (53 + p) <= 2 ^ Js.ilog2 x)%Q) by (apply pow2_le; lia).
    rewrite pow2_add in Hpow.
    assert (HN' : (inject_Z N < 2 ^ 53)%Q).
    { rewrite <- pow2_Z by lia. rewrite <- Zlt_Qlt. lia. }
    assert (Hsplit : (2 ^ Js.ilog2 x == inject_Z (2 ^ 52) * 2 ^ q)%Q).
    { rewrite He, pow2_add, pow2_Z by lia. reflexivity. }
    destruct (Hscaled (2 ^ 52)) as [Hge _].
    assert (Hn : 2 ^ 52 <= Js.nearest_even (x / 2 ^ q))
      by (apply Hge; now rewrite <- Hsplit).
    rewrite Zle_Qle in Hn. rewrite Hc. clear Hscaled.
    set (n := inject_Z (Js.nearest_even _)) in *. set (K := inject_Z (2 ^ 52)) in *.
    set (P := (2 ^ p)%Q) in *. set (T := (2 ^ 53)%Q) in *.
    set (L := (2 ^ Js.ilog2 x)%Q) in *. set (s := (2 ^ q)%Q) in *.
    set (M := inject_Z N) in *. nra.
Qed.

End Rounding.

Lemma ilog2_unique (x : Q) (e : Z) :
  (2 ^ e <= x < 2 ^ (e + 1))%Q → Js.ilog2 x = e.
Proof.
  intros [Hlo Hhi]. pose proof (pow2_pos e) as He.
  destruct (ilog2_spec x ltac:(lra)) as [Hlo' Hhi'].
  assert (H1 : Js.ilog2 x < e + 1) by (apply pow2_lt_inv; lra).
  assert (H2 : e < Js.ilog2 x + 1) by (apply pow2_lt_inv; lra).
  lia.
Qed.

Lemma ilog2_eq (x y : Q) : (0 < x)%Q → (x == y)%Q → Js.ilog2 x = Js.ilog2 y.
Proof.
  intros Hx Hxy. symmetry. apply ilog2_unique. rewrite <- Hxy. now apply ilog2_spec.
Qed.

Lemma nearest_even_eq (x y : Q) : (x == y)%Q → Js.nearest_even x = Js.nearest_even y.
Proof.
  intros Hxy. unfold Js.nearest_even.
  assert (Hf : Qfloor x = Qfloor y) by now apply Qfloor_comp.
  rewrite <- Hf.
  assert (Hc : (x - inject_Z (Qfloor x) ?= 1 # 2)%Q = (y - inject_Z (Qfloor x) ?= 1 # 2)%Q).
  { apply Qcompare_comp; [| reflexivity].
    apply Qplus_comp; [exact Hxy | reflexivity]. }
  now rewrite Hc.
Qed.

Lemma fl_pos_eq (x y : Q) : (0 < x)%Q → (x == y)%Q → (Js.fl_pos x == Js.fl_pos y)%Q.
Proof.
  intros Hx Hxy. unfold Js.fl_pos, Js.ulp_exponent. cbv zeta.
  rewrite <- (ilog2_eq x y Hx Hxy).
  rewrite (nearest_even_eq (x / _) (y / 2 ^ Z.max (Js.ilog2 x - 52) (-1074))).
  - reflexivity.
  - apply Qmult_comp; [exact Hxy | reflexivity].
Qed.

(** The rounding and the operations respect the equality of the
    rationals. *)
#[global] Instance fl_proper : Proper (Qeq ==> Qeq) Js.fl.
Proof.
  intros x y Hxy. unfold Js.fl.
  assert (Hc : (x ?= 0)%Q = (y ?= 0)%Q) by (apply Qcompare_comp; [exact Hxy | reflexivity]).
  rewrite <- Hc. destruct (x ?= 0)%Q eqn:E.
  - reflexivity.
  - assert (Hx : (x < 0)%Q) by (apply Qlt_alt; exact E). clear E Hc.
    rewrite !Qred_correct. apply Qopp_comp. apply fl_pos_eq; [lra | now apply Qopp_comp].
  - assert (Hx : (0 < x)%Q) by (apply Qgt_alt in E; exact E). clear E Hc.
    rewrite !Qred_correct. now apply fl_pos_eq.
Qed.

#[global] Instance add_proper : Proper (Qeq ==> Qeq ==> Qeq) Js.add.
Proof. intros a b Hab c d Hcd. unfold Js.add. now rewrite Hab, Hcd. Qed.

#[global] Instance sub_proper : Proper (Qeq ==> Qeq ==> Qeq) Js.sub.
Proof. intros a b Hab c d Hcd. unfold Js.sub. now rewrite Hab, Hcd. Qed.

#[global] Instance mul_proper : Proper (Qeq ==> Qeq ==> Qeq) Js.mul.
Proof. intros a b Hab c d Hcd. unfold Js.mul. now rewrite Hab, Hcd. Qed.

#[global] Instance div_proper : Proper (Qeq ==> Qeq ==> Qeq) Js.div.
Proof. intros a b Hab c d Hcd. unfold Js.div. now rewrite Hab, Hcd. Qed.

Lemma fl_cases (x : Q) :
  ((x == 0)%Q ∧ Js.fl x = 0%Q)
  ∨ ((0 < x)%Q ∧ (Js.fl x == Js.fl_pos x)%Q)
  ∨ ((x < 0)%Q ∧ (Js.fl x == - Js.fl_pos (- x))%Q).
Proof.
  unfold Js.fl. destruct (x ?= 0)%Q eqn:E.
  - left. split; [now apply Qeq_alt | reflexivity].
  - right. right. split; [now apply Qlt_alt | apply Qred_correct].
  - right. left. split; [apply Qgt_alt in E; exact E | apply Qred_correct].
Qed.

Lemma isDouble_opp (c : Q) : Js.isDouble c → Js.isDouble (- c).
Proof.
  intros (n & p & Hn & Hp & Hc). exists (- n), p.
  split; [lia |]. split; [exact Hp |]. rewrite Hc, inject_Z_opp. ring.
Qed.

Lemma isDouble_Z (n : Z) : Z.abs n < 2 ^ 53 → Js.isDouble (inject_Z n).
Proof.
  intros Hn. exists n, 0. split; [exact Hn |]. split; [lia |].
  change (2 ^ 0)%Q with 1%Q. ring.
Qed.

Lemma isDouble_pow2 (p : Z) : -1074 <= p → Js.isDouble (2 ^ p).
Proof.
  intros Hp. exists 1, p. split; [reflexivity |]. split; [exact Hp |].
  change (inject_Z 1) with 1%Q. ring.
Qed.

Lemma isDouble_eq (c d : Q) : (c == d)%Q → Js.isDouble c → Js.isDouble d.
Proof. intros Hcd (n & p & Hn & Hp & Hc). exists n, p. now rewrite <- Hcd. Qed.

(** Rounding does not cross a double. *)
Lemma fl_le (x c : Q) : Js.isDouble c → (x <= c)%Q → (Js.fl x <= c)%Q.
Proof.
  intros Hc Hxc. destruct (fl_cases x) as [[Hx ->] | [[Hx ->] | [Hx ->]]].
  - lra.
  - now apply fl_pos_le.
  - assert (Hge : (- c <= Js.fl_pos (- x))%Q).
    { apply fl_pos_ge; [lra | now apply isDouble_opp | lra]. }
    lra.
Qed.

Lemma fl_ge (x c : Q) : Js.isDouble c → (c <= x)%Q → (c <= Js.fl x)%Q.
Proof.
  intros Hc Hxc. destruct (fl_cases x) as [[Hx ->] | [[Hx ->] | [Hx ->]]].
  - lra.
  - now apply fl_pos_ge.
  - assert (Hle : (Js.fl_pos (- x) <= - c)%Q).
    { apply fl_pos_le; [lra | now apply isDouble_opp | lra]. }
    lra.
Qed.

Lemma fl_exact (c : Q) : Js.isDouble c → (Js.fl c == c)%Q.
Proof.
  intros Hc. apply Qle_antisym; [apply fl_le | apply fl_ge]; (assumption || lra).
Qed.

Lemma fl_Z (n : Z) : Z.abs n < 2 ^ 53 → (Js.fl (inject_Z n) == inject_Z n)%Q.
Proof. intros Hn. apply fl_exact. now apply isDouble_Z. Qed.

Lemma fl_nonneg (x : Q) : (0 <= x)%Q → (0 <= Js.fl x)%Q.
Proof. apply (fl_ge x 0). now apply (isDouble_Z 0). Qed.

Lemma fl_nonpos (x : Q) : (x <= 0)%Q → (Js.fl x <= 0)%Q.
Proof. apply (fl_le x 0). now apply (isDouble_Z 0). Qed.

Lemma fl_opp (x : Q) : (Js.fl (- x) == - Js.fl x)%Q.
Proof.
  destruct (fl_cases x) as [[Hx ->] | [[Hx ->] | [Hx ->]]].
  - rewrite Hx. reflexivity.
  - destruct (fl_cases (- x)) as [[Hx' _] | [[Hx' _] | [_ ->]]]; [lra | lra |].
    apply Qopp_comp. apply fl_pos_eq; [lra | ring].
  - destruct (fl_cases (- x)) as [[Hx' _] | [[_ ->] | [Hx' _]]]; [lra | | lra]. ring.
Qed.

(** The error of a rounding is at most half a unit in the last place. *)
Lemma fl_abs_error (x : Q) (e : Z) :
  -1022 <= e → (Qabs x < 2 ^ (e + 1))%Q → (Qabs (Js.fl x - x) <= 2 ^ (e - 53))%Q.
Proof.
  intros He Hx. pose proof (pow2_pos (e - 53)) as Hpe.
  assert (Hpos : ∀ y, (0 < y)%Q → (y < 2 ^ (e + 1))%Q →
            (Qabs (Js.fl_pos y - y) <= 2 ^ (e - 53))%Q).
  { intros y Hy Hlt. eapply Qle_trans; [now apply fl_pos_error |].
    apply pow2_le. destruct (ilog2_spec y Hy) as [Hlo _].
    assert (Js.ilog2 y < e + 1) by (apply pow2_lt_inv; lra).
    unfold Js.ulp_exponent. lia. }
  destruct (fl_cases x) as [[H0 ->] | [[H0 ->] | [H0 ->]]].
  - rewrite H0. change (Qabs (0 - 0)) with 0%Q. lra.
  - apply Hpos; [exact H0 |]. rewrite Qabs_pos in Hx; lra.
  - rewrite Qabs_neg in Hx by lra. specialize (Hpos (- x)%Q ltac:(lra) Hx).
    apply Qabs_Qle_condition in Hpos. apply Qabs_Qle_condition. lra.
Qed.

Lemma fl_rel_error (x : Q) :
  (2 ^ (-1022) <= Qabs x)%Q → (Qabs (Js.fl x - x) <= 2 ^ (-53) * Qabs x)%Q.
Proof.
  intros Hx. pose proof (pow2_pos (-1022)) as Hmin.
  assert (Hpos : ∀ y, (2 ^ (-1022) <= y)%Q →
            (Qabs (Js.fl_pos y - y) <= 2 ^ (-53) * y)%Q).
  { intros y Hy. assert (Hy0 : (0 < y)%Q) by lra.
    eapply Qle_trans; [now apply fl_pos_error |].
    destruct (ilog2_spec y Hy0) as [Hlo Hhi].
    assert (-1022 < Js.ilog2 y + 1) by (apply pow2_lt_inv; lra).
    unfold Js.ulp_exponent. rewrite Z.max_l by lia.
    replace (Js.ilog2 y - 52 - 1) with (-53 + Js.ilog2 y) by lia.
    rewrite pow2_add. pose proof (pow2_pos (-53)) as Hu.
    set (u := (2 ^ (-53))%Q) in *. set (L := (2 ^ Js.ilog2 y)%Q) in *. nra. }
  destruct (Qlt_le_dec x 0) as [H0 | H0].
  - rewrite (Qabs_neg x) in Hx by lra.
    destruct (fl_cases x) as [[H1 _] | [[H1 _] | [_ ->]]]; [lra | lra |].
    specialize (Hpos (- x)%Q Hx). apply Qabs_Qle_condition in Hpos.
    apply Qabs_Qle_condition. clear Hx Hmin. rewrite (Qabs_neg x) by lra.
    set (u := (2 ^ (-53))%Q) in *. lra.
  - rewrite (Qabs_pos x) in Hx |- * by lra.
    destruct (fl_cases x) as [[H1 _] | [[_ ->] | [H1 _]]]; [lra | | lra].
    now apply Hpos.
Qed.

Lemma nearest_even_nearest (m : Q) (k : Z) :
  (Qabs (inject_Z (Js.nearest_even m) - m) <= Qabs (inject_Z k - m))%Q.
Proof.
  pose proof (Qfloor_le m) as Hlo. pose proof (Qlt_floor m) as Hhi.
  rewrite inject_Z_plus in Hhi. change (inject_Z 1) with 1%Q in Hhi.
  assert (Hn : (inject_Z (Js.nearest_even m) == inject_Z (Qfloor m)
                ∧ m - inject_Z (Qfloor m) <= 1 # 2)%Q
               ∨ (inject_Z (Js.nearest_even m) == inject_Z (Qfloor m) + 1
                  ∧ 1 # 2 <= m - inject_Z (Qfloor m))%Q).
  { unfold Js.nearest_even.
    destruct (m - inject_Z (Qfloor m) ?= 1 # 2)%Q eqn:E.
    - assert (Hr : (m - inject_Z (Qfloor m) == 1 # 2)%Q) by (apply Qeq_alt; exact E).
      clear E. destruct (Z.even (Qfloor m)).
      + left. split; [reflexivity | lra].
      + right. rewrite inject_Z_plus. change (inject_Z 1) with 1%Q.
        split; [reflexivity | lra].
    - assert (Hr : (m - inject_Z (Qfloor m) < 1 # 2)%Q) by (apply Qlt_alt; exact E).
      clear E. left. split; [reflexivity | lra].
    - assert (Hr : (m - inject_Z (Qfloor m) > 1 # 2)%Q) by (apply Qgt_alt; exact E).
      clear E. right. rewrite inject_Z_plus. change (inject_Z 1) with 1%Q.
      split; [reflexivity | lra]. }
  set (n := inject_Z (Js.nearest_even m)) in *. set (f := inject_Z (Qfloor m)) in *.
  destruct (Z_le_gt_dec k (Qfloor m)) as [Hk | Hk].
  - assert (Hkq : (inject_Z k <= f)%Q) by (subst f; now rewrite <- Zle_Qle).
    rewrite (Qabs_neg (inject_Z k - m)) by lra.
    apply Qabs_Qle_condition. destruct Hn as [[Hn Hh] | [Hn Hh]]; lra.
  - assert (Hkq : (f + 1 <= inject_Z k)%Q).
    { subst f. change 1%Q with (inject_Z 1). rewrite <- inject_Z_plus, <- Zle_Qle. lia. }
    rewrite (Qabs_pos (inject_Z k - m)) by lra.
    apply Qabs_Qle_condition. destruct Hn as [[Hn Hh] | [Hn Hh]]; lra.
Qed.

Section Nearest.
Context (x : Q) (x_pos : (0 < x)%Q).

Lemma fl_pos_isDouble : Js.isDouble (Js.fl_pos x).
Proof.
  unfold Js.fl_pos. cbv zeta.
  assert (Hq : Js.ulp_exponent x = Z.max (Js.ilog2 x - 52) (-1074)) by reflexivity.
  set (q := Js.ulp_exponent x) in *.
  destruct (ilog2_spec x x_pos) as [_ Hhi].
  destruct (fl_pos_scaled x 0) as [Hge _].
  destruct (fl_pos_scaled x (2 ^ 53)) as [_ Hle]. fold q in Hge, Hle.
  pose proof (pow2_pos q) as Hs.
  assert (H0 : 0 <= Js.nearest_even (x / 2 ^ q)).
  { apply Hge. change (inject_Z 0) with 0%Q. lra. }
  assert (H1 : Js.nearest_even (x / 2 ^ q) <= 2 ^ 53).
  { apply Hle. rewrite pow2_Z, <- pow2_add by lia.
    apply Qlt_le_weak. eapply Qlt_le_trans; [exact Hhi |]. apply pow2_le. lia. }
  destruct (Z.eq_dec (Js.nearest_even (x / 2 ^ q)) (2 ^ 53)) as [-> | Hne].
  - exists (2 ^ 52), (q + 1). split; [reflexivity |]. split; [lia |].
    rewrite pow2_add. change (2 ^ 1)%Q with 2%Q.
    change (inject_Z (2 ^ 53)) with (inject_Z (2 ^ 52) * 2)%Q. ring.
  - exists (Js.nearest_even (x / 2 ^ q)), q. split; [lia |]. split; [lia | reflexivity].
Qed.

(** Every double is at least as far from [x] as a multiple of the unit
    in the last place, and so as the nearest one. *)
Lemma fl_pos_nearest (c : Q) :
  Js.isDouble c → (Qabs (Js.fl_pos x - x) <= Qabs (c - x))%Q.
Proof.
  intros (N & p & HN & Hp & Hc). unfold Js.fl_pos. cbv zeta.
  assert (Hq : Js.ulp_exponent x = Z.max (Js.ilog2 x - 52) (-1074)) by reflexivity.
  set (q := Js.ulp_exponent x) in *.
  pose proof (pow2_pos q) as Hs. pose proof (pow2_pos p) as Hsp.
  assert (Hx : (x == x / 2 ^ q * 2 ^ q)%Q) by (field; lra).
  assert (Hgrid : ∃ K : Z, (Qabs (inject_Z K * 2 ^ q - x) <= Qabs (c - x))%Q).
  { destruct (Z_le_gt_dec q p) as [Hqp | Hqp].
    - exists (N * 2 ^ (p - q)).
      assert (Hck : (c == inject_Z (N * 2 ^ (p - q)) * 2 ^ q)%Q).
      { rewrite Hc, (pow2_split p q Hqp), inject_Z_mult. ring. }
      rewrite <- Hck. apply Qle_refl.
    - destruct (ilog2_spec x x_pos) as [Hlo _].
      assert (He : Js.ilog2 x = 52 + q) by lia.
      assert (Hpow : (2 ^ (53 + p) <= 2 ^ Js.ilog2 x)%Q) by (apply pow2_le; lia).
      rewrite pow2_add in Hpow.
      assert (HN' : (inject_Z N < 2 ^ 53)%Q).
      { rewrite <- pow2_Z by lia. rewrite <- Zlt_Qlt. lia. }
      assert (Hsplit : (2 ^ Js.ilog2 x == inject_Z (2 ^ 52) * 2 ^ q)%Q).
      { rewrite He, pow2_add, pow2_Z by lia. reflexivity. }
      exists (2 ^ 52). rewrite <- Hsplit.
      assert (Hcx : (c <= 2 ^ Js.ilog2 x)%Q).
      { rewrite Hc. set (P := (2 ^ p)%Q) in *. set (T := (2 ^ 53)%Q) in *.
        set (L := (2 ^ Js.ilog2 x)%Q) in *. set (M := inject_Z N) in *. nra. }
      rewrite (Qabs_neg (c - x)) by lra. rewrite Qabs_neg by lra. lra. }
  destruct Hgrid as [K HK]. eapply Qle_trans; [| exact HK].
  pose proof (nearest_even_nearest (x / 2 ^ q) K) as Hnear.
  set (m := (x / 2 ^ q)%Q) in *. set (n := inject_Z (Js.nearest_even m)) in *.
  assert (Hl : (n * 2 ^ q - x == (n - m) * 2 ^ q)%Q) by (rewrite Hx at 1; ring).
  assert (Hr : (inject_Z K * 2 ^ q - x == (inject_Z K - m) * 2 ^ q)%Q)
    by (rewrite Hx at 1; ring).
  rewrite Hl, Hr, !Qabs_Qmult, (Qabs_pos (2 ^ q)) by lra.
  apply Qmult_le_compat_r; [exact Hnear | lra].
Qed.

End Nearest.

(** [Js.fl x] is a double, and no double is nearer to [x]. *)
Lemma fl_isDouble (x : Q) : Js.isDouble (Js.fl x).
Proof.
  destruct (fl_cases x) as [[Hx ->] | [[Hx Hfl] | [Hx Hfl]]].
  - now apply (isDouble_Z 0).
  - eapply isDouble_eq; [symmetry; exact Hfl |]. now apply fl_pos_isDouble.
  - eapply isDouble_eq; [symmetry; exact Hfl |].
    apply isDouble_opp, fl_pos_isDouble. lra.
Qed.

Lemma fl_nearest (x c : Q) :
  Js.isDouble c → (Qabs (Js.fl x - x) <= Qabs (c - x))%Q.
Proof.
  intros Hc. destruct (fl_cases x) as [[Hx ->] | [[Hx ->] | [Hx ->]]].
  - rewrite Hx. change (Qabs (0 - 0)) with 0%Q. apply Qabs_nonneg.
  - now apply fl_pos_nearest.
  - pose proof (fl_pos_nearest (- x) ltac:(lra) (- c) (isDouble_opp c Hc)) as Hn.
    assert (Hl : (- Js.fl_pos (- x) - x == - (Js.fl_pos (- x) - - x))%Q) by ring.
    assert (Hr : (c - x == - (- c - - x))%Q) by ring.
    rewrite Hl, Hr, !Qabs_opp. exact Hn.
Qed.

(** *** Bounds of the error *)

Lemma fl_error (x : Q) :
  (Qabs (Js.fl x - x) <= 2 ^ (-53) * Qabs x + 2 ^ (-1075))%Q.
Proof.
  pose proof (pow2_pos (-53)) as Hu. pose proof (pow2_pos (-1075)) as Heta.
  assert (Hpos : ∀ y, (0 < y)%Q →
            (Qabs (Js.fl_pos y - y) <= 2 ^ (-53) * y + 2 ^ (-1075))%Q).
  { intros y Hy. eapply Qle_trans; [now apply fl_pos_error |].
    destruct (ilog2_spec y Hy) as [Hlo _]. unfold Js.ulp_exponent.
    destruct (Z.max_spec (Js.ilog2 y - 52) (-1074)) as [[_ ->] | [_ ->]].
    - change (-1074 - 1) with (-1075).
      set (u := (2 ^ (-53))%Q) in *. set (eta := (2 ^ (-1075))%Q) in *. nra.
    - replace (Js.ilog2 y - 52 - 1) with (-53 + Js.ilog2 y) by lia.
      rewrite pow2_add.
      set (u := (2 ^ (-53))%Q) in *. set (eta := (2 ^ (-1075))%Q) in *.
      set (L := (2 ^ Js.ilog2 y)%Q) in *. nra. }
  destruct (fl_cases x) as [[H0 ->] | [[H0 ->] | [H0 ->]]].
  - rewrite H0. change (Qabs (0 - 0)) with 0%Q. change (Qabs 0) with 0%Q.
    set (u := (2 ^ (-53))%Q) in *. set (eta := (2 ^ (-1075))%Q) in *. lra.
  - rewrite (Qabs_pos x) by lra. now apply Hpos.
  - rewrite (Qabs_neg x) by lra. specialize (Hpos (- x)%Q ltac:(lra)).
    apply Qabs_Qle_condition in Hpos. apply Qabs_Qle_condition.
    set (u := (2 ^ (-53))%Q) in *. set (eta := (2 ^ (-1075))%Q) in *. lra.
Qed.

(** The quotient by a divisor that is known up to a rounding. *)
Lemma quotient_of_rounded (P H h : Q) :
  (0 < P)%Q → (0 < H)%Q → (Qabs (h - H) <= 2 ^ (-53) * H)%Q →
  (0 < h)%Q ∧ (Qabs (P / h - P / H) <= 2 ^ (-52) * (P / H))%Q.
Proof.
  intros HP HH Hh. apply Qabs_Qle_condition in Hh.
  change (2 ^ (-53))%Q with (1 # 9007199254740992)%Q in Hh.
  change (2 ^ (-52))%Q with (1 # 4503599627370496)%Q.
  assert (Hhpos : (0 < h)%Q) by lra. split; [exact Hhpos |].
  assert (HR : (P / H * H == P)%Q) by (field; lra).
  assert (HQ : (P / h * h == P)%Q) by (field; lra).
  assert (HRpos : (0 < P / H)%Q) by (apply Qlt_shift_div_l; lra).
  assert (HQpos : (0 < P / h)%Q) by (apply Qlt_shift_div_l; lra).
  set (R := (P / H)%Q) in *. set (Q0 := (P / h)%Q) in *.
  apply Qabs_Qle_condition. split.
  - apply Qnot_lt_le. intros Hc. nra.
  - apply Qnot_lt_le. intros Hc. nra.
Qed.

Lemma inject_Z_ge_1 (z : Z) : 1 <= z → (1 <= inject_Z z)%Q.
Proof. intros Hz. change 1%Q with (inject_Z 1). now rewrite <- Zle_Qle. Qed.

(** ** Substrings and the flag patterns *)

Lemma startsWith_app (eqc : ascii → ascii → bool) (sub : string) :
  ∀ p t : string,
    Js.startsWith_by eqc p sub = true → Js.startsWith_by eqc (p +:+ t) sub = true.
Proof.
  induction sub as [| a sub IH]; intros p t; [reflexivity |].
  destruct p as [| b p]; cbn; [discriminate |].
  intros [Ha Hp]%andb_true_iff. apply andb_true_iff. split; [exact Ha | now apply IH].
Qed.

Lemma includes_app_l (sub t : string) :
  ∀ p : string, Js.includes p sub = true → Js.includes (p +:+ t) sub = true.
Proof.
  induction p as [| c p IH].
  - cbn [Js.includes]. rewrite orb_false_r. intros Hs.
    pose proof (startsWith_app Ascii.eqb sub EmptyString t Hs) as Ht.
    change (EmptyString +:+ t) with t in *.
    destruct t; cbn [Js.includes]; unfold Js.startsWith; rewrite Ht; reflexivity.
  - cbn [Js.includes]. intros [Hs | Hi]%orb_true_iff.
    + change (String c p +:+ t) with (String c (p +:+ t)). cbn [Js.includes].
      apply orb_true_iff. left.
      apply (startsWith_app Ascii.eqb sub (String c p) t Hs).
    + change (String c p +:+ t) with (String c (p +:+ t)). cbn [Js.includes].
      apply orb_true_iff. right. now apply IH.
Qed.

Lemma includes_tail (c : ascii) (s sub : string) :
  Js.includes s sub = true → Js.includes (String c s) sub = true.
Proof. intros Hs. cbn. rewrite Hs. apply orb_true_r. Qed.

Lemma includes_substring_from (sub : string) (n : nat) :
  ∀ s : string, Js.includes (Js.substring_from n s) sub = true → Js.includes s sub = true.
Proof.
  induction n as [| n IH]; intros s; [now destruct s |].
  destruct s as [| c s]; [exact id |].
  cbn [Js.substring_from]. intros Hs. apply includes_tail. now apply IH.
Qed.

Lemma includes_trimStart (sub : string) :
  ∀ s : string, Js.includes (Js.trimStart s) sub = true → Js.includes s sub = true.
Proof.
  induction s as [| c s IH]; [exact id |].
  cbn [Js.trimStart]. destruct (Js.isWhiteSpace c); [| exact id].
  intros Hs. apply includes_tail. now apply IH.
Qed.

Lemma trimEnd_prefix (s : string) : ∃ t : string, s = Js.trimEnd s +:+ t.
Proof.
  induction s as [| c s [t IH]]; [now exists EmptyString |].
  cbn [Js.trimEnd]. destruct (Js.trimEnd s) as [| k kept] eqn:E.
  - destruct (Js.isWhiteSpace c).
    + now exists (String c s).
    + exists s. reflexivity.
  - exists t. cbn. now rewrite IH at 1.
Qed.

Lemma includes_trim (sub s : string) :
  Js.includes (Js.trim s) sub = true → Js.includes s sub = true.
Proof.
  unfold Js.trim. intros Hs. apply includes_trimStart.
  destruct (trimEnd_prefix (Js.trimStart s)) as [t Ht]. rewrite Ht.
  now apply includes_app_l.
Qed.

Lemma flag_here_nonempty (ci : bool) (flag : string) (value : ascii → bool)
    (s capture : string) :
  Js.flag_here ci flag value s = Some capture → capture ≠ EmptyString.
Proof.
  unfold Js.flag_here. destruct (Js.startsWith_by _ s flag); [| discriminate].
  destruct (Js.span Js.isFlagSep _) as [seps rest].
  destruct seps; [discriminate |].
  destruct (Js.span value rest) as [run ?].
  destruct run; [discriminate |]. now intros [= <-].
Qed.

Lemma match_flag_nonempty (ci : bool) (flag : string) (value : ascii → bool)
    (capture : string) :
  ∀ s : string, Js.match_flag ci flag value s = Some capture → capture ≠ EmptyString.
Proof.
  induction s as [| c s IH]; cbn [Js.match_flag];
    destruct (Js.flag_here ci flag value _) eqn:E;
    try discriminate; try (intros [= <-]; eapply flag_here_nonempty; eassumption).
  exact IH.
Qed.

Lemma flag_here_startsWith (flag : string) (value : ascii → bool) (s capture : string) :
  Js.flag_here false flag value s = Some capture → Js.startsWith s flag = true.
Proof.
  unfold Js.flag_here, Js.startsWith.
  now destruct (Js.startsWith_by _ s flag).
Qed.

Lemma match_flag_includes (flag : string) (value : ascii → bool) (capture : string) :
  ∀ s : string, Js.match_flag false flag value s = Some capture → Js.includes s flag = true.
Proof.
  induction s as [| c s IH]; cbn [Js.match_flag Js.includes];
    destruct (Js.flag_here false flag value _) eqn:E; try discriminate;
    try (intros _; apply flag_here_startsWith in E; rewrite E; reflexivity).
  intros Hm. rewrite (IH Hm). apply orb_true_r.
Qed.

Lemma match_flag_absent (flag : string) (value : ascii → bool) (s : string) :
  Js.includes s flag = false → Js.match_flag false flag value s = None.
Proof.
  intros Hno. destruct (Js.match_flag false flag value s) eqn:E; [| reflexivity].
  apply match_flag_includes in E. congruence.
Qed.

(** ** Quota client *)

Section FormatTime.
Import QuotaService.

Lemma formatTime_unfold (d : Z) :
  formatTime d =
    if d <=? 0 then "Ready"
    else
      let mins := (d + 59999) / 60000 in
      if mins <? 60 then pretty mins +:+ "m"
      else
        let hours := mins / 60 in
        let remainingMins := Z.rem mins 60 in
        if hours <? 24 then
          if 0 <? remainingMins
          then pretty hours +:+ "h " +:+ pretty remainingMins +:+ "m"
          else pretty hours +:+ "h"
        else
          let days := hours / 24 in
          let remainingHours := Z.rem hours 24 in
          if 0 <? remainingHours
          then pretty days +:+ "d " +:+ pretty remainingHours +:+ "h"
          else pretty days +:+ "d".
Proof.
  unfold formatTime.
  rewrite !(Math_ceil_quotient d 60000).
  replace (d + 60000 - 1) with (d + 59999) by lia.
  cbv zeta.
  rewrite !(Math_floor_quotient _ 60), !(Math_floor_quotient _ 24).
  reflexivity.
Qed.

(** Claim C8. For every duration [d] in milliseconds, [formatTime] returns
    "Ready" when [d <= 0]; otherwise, with [mins] the duration in minutes
    rounded up and [hours] the whole hours of [mins]: the minutes when
    [mins] is under 60, the hours and the leftover minutes (left out when
    zero) when [hours] is under 24, and the days and the leftover hours
    (left out when zero) beyond that. 3,540,000 ms gives "59m",
    7,260,000 ms "2h 1m" and 90,000,000 ms "1d 1h". *)
Theorem formatTime_cases (d : Z) :
  let mins := (d + 59999) / 60000 in
  let hours := mins / 60 in
  (d <= 0 → formatTime d = "Ready")
  ∧ (0 < d → mins < 60 → formatTime d = pretty mins +:+ "m")
  ∧ (0 < d → 60 <= mins → hours < 24 →
       formatTime d =
         if 0 <? mins mod 60
         then pretty hours +:+ "h " +:+ pretty (mins mod 60) +:+ "m"
         else pretty hours +:+ "h")
  ∧ (0 < d → 24 <= hours →
       formatTime d =
         if 0 <? hours mod 24
         then pretty (hours / 24) +:+ "d " +:+ pretty (hours mod 24) +:+ "h"
         else pretty (hours / 24) +:+ "d")
  ∧ formatTime 3540000 = "59m"
  ∧ formatTime 7260000 = "2h 1m"
  ∧ formatTime 90000000 = "1d 1h".
Proof.
  intros mins hours.
  assert (Hm : 0 < d → 0 < mins) by (intros; subst mins; apply Z.div_str_pos; lia).
  split; [| split; [| split; [| split; [| repeat split; vm_compute; reflexivity]]]].
  - intros Hd. rewrite formatTime_unfold.
    destruct (Z.leb_spec d 0); [reflexivity | lia].
  - intros Hd Hlt. rewrite formatTime_unfold. cbv zeta. fold mins.
    destruct (Z.leb_spec d 0); [lia |].
    destruct (Z.ltb_spec mins 60); [reflexivity | lia].
  - intros Hd Hge Hlt. rewrite formatTime_unfold. cbv zeta. fold mins. fold hours.
    destruct (Z.leb_spec d 0); [lia |].
    destruct (Z.ltb_spec mins 60); [lia |].
    destruct (Z.ltb_spec hours 24); [| lia].
    rewrite Z.rem_mod_nonneg by lia. reflexivity.
  - intros Hd Hge. rewrite formatTime_unfold. cbv zeta. fold mins. fold hours.
    destruct (Z.leb_spec d 0); [lia |].
    assert (60 <= mins).
    { destruct (Z.lt_ge_cases mins 60) as [Hlt |]; [| assumption].
      assert (hours = 0) by (subst hours; apply Z.div_small; lia). lia. }
    destruct (Z.ltb_spec mins 60); [lia |].
    destruct (Z.ltb_spec hours 24); [lia |].
    rewrite Z.rem_mod_nonneg by lia. reflexivity.
Qed.

(** A duration of 59 minutes and 50 seconds is under an hour, and is
    formatted as one hour, not as its minutes rounded up. *)
Lemma formatTime_under_an_hour :
  0 < 3590000 < 60 * 60 * 1000
  ∧ formatTime 3590000 = "1h"
  ∧ formatTime 3590000
    ≠ pretty (Js.Math_ceil (inject_Z 3590000 / inject_Z 60000)) +:+ "m".
Proof.
  split; [lia |]. split; [vm_compute; reflexivity | vm_compute; discriminate].
Qed.

End FormatTime.

Section QuotaClient.
Import QuotaService.
Context `{Host}.

(** What the callback copies from the raw entry, whatever the clock. *)
Lemma parseModel_fields (clock : nat → Z) (k : nat) (m : RawModelConfig) (qi : QuotaInfo) :
  let r := (parseModel clock k m qi).1 in
  let f := default 1%Q (raw_remainingFraction qi) in
  label r = raw_label m
  ∧ modelId r = match modelOrAlias m ≫= model with
                | Some EmptyString | None => "unknown"
                | Some s => s
                end
  ∧ remainingFraction r = f
  ∧ remainingPercent r = inject_Z (Js.Math_round (Js.mul f 100))
  ∧ isExhausted r = Js.strict_eqb f 0.
Proof.
  unfold parseModel. destruct (raw_resetTime qi) as [[| c s] |]; cbn; repeat split.
Qed.

(** The resources are the parsed entries that have quota info, in their
    order. *)
Lemma parseModels_entries (clock : nat → Z) (raw : list RawModelConfig) :
  ∀ k : nat,
    Forall2 (λ (r : ModelQuota) (m : RawModelConfig),
               ∃ (qi : QuotaInfo) (j : nat),
                 quotaInfo m = Some qi ∧ r = (parseModel clock j m qi).1)
            (parseModels clock k raw).1
            (filter (λ m, is_Some (quotaInfo m)) raw).
Proof.
  induction raw as [| m raw IH]; intros k; [constructor |].
  rewrite filter_cons. cbn [parseModels]. destruct (quotaInfo m) as [qi |] eqn:Hqi.
  - rewrite decide_True by eauto.
    destruct (parseModel clock k m qi) as [r k1] eqn:E.
    specialize (IH k1). destruct (parseModels clock k1 raw) as [rs k2]. cbn [fst] in *.
    constructor; [| exact IH]. exists qi, k. split; [exact Hqi | now rewrite E].
  - rewrite decide_False by (intros [? [=]]). apply IH.
Qed.

Lemma parseModels_elem (clock : nat → Z) (raw : list RawModelConfig) (m : RawModelConfig)
    (qi : QuotaInfo) :
  m ∈ raw → quotaInfo m = Some qi →
  ∀ k : nat, ∃ j : nat, (parseModel clock j m qi).1 ∈ (parseModels clock k raw).1.
Proof.
  intros Hin Hqi. induction Hin as [m raw | m m' raw Hin IH]; intros k; cbn [parseModels].
  2: specialize (IH Hqi).
  - rewrite Hqi. destruct (parseModel clock k m qi) as [r k1] eqn:E.
    destruct (parseModels clock k1 raw) as [rs k2]. exists k. rewrite E. now left.
  - destruct (quotaInfo m') as [qi' |]; [| apply IH].
    destruct (parseModel clock k m' qi') as [r k1].
    destruct (IH k1) as [j Hj]. destruct (parseModels clock k1 raw) as [rs k2].
    exists j. now right.
Qed.

(** What [parseResponse] returns for a response with [userStatus]. *)
Lemma parseResponse_snapshot (clock : nat → Z) (us : UserStatus) :
  ∃ snap : QuotaSnapshot,
    parseResponse clock {| userStatus := Some us |} = inr snap
    ∧ models snap
      = (parseModels clock 0
           (default [] (cascadeModelConfigData us ≫= clientModelConfigs))).1
    ∧ timestamp snap
      = clock (parseModels clock 0
                 (default [] (cascadeModelConfigData us ≫= clientModelConfigs))).2.
Proof.
  unfold parseResponse. cbn [userStatus].
  destruct (parseModels clock 0 _) as [ms k]. eexists. repeat split.
Qed.

Lemma parseResponse_inr (clock : nat → Z) (data : ServerUserStatusResponse)
    (snap : QuotaSnapshot) :
  parseResponse clock data = inr snap →
  ∃ us : UserStatus, data = {| userStatus := Some us |}.
Proof.
  destruct data as [[us |]]; [eauto | discriminate].
Qed.

(** The double product [f * 100] of a fraction between 0 and 1. *)
Lemma percent_product (f : Q) :
  (0 <= f <= 1)%Q →
  (0 <= Js.mul f 100 <= 100)%Q
  ∧ (Qabs (Js.mul f 100 - 100 * f) <= 2 ^ (-47))%Q.
Proof.
  intros Hf. unfold Js.mul. split; [split |].
  - apply fl_nonneg. lra.
  - apply (fl_le _ 100); [now apply (isDouble_Z 100) | lra].
  - assert (He : (Qabs (Js.fl (f * 100) - f * 100) <= 2 ^ (6 - 53))%Q).
    { apply fl_abs_error; [lia |].
      rewrite Qabs_pos by lra. change (2 ^ (6 + 1))%Q with 128%Q. lra. }
    change (6 - 53) with (-47) in He.
    apply Qabs_Qle_condition in He. apply Qabs_Qle_condition.
    set (u := (2 ^ (-47))%Q) in *. lra.
Qed.

(** Claim C5. For every raw entry with quota info of a response that the
    client normalizes, with remaining fraction [f] in [0,1] (1 when the
    entry gives none), the snapshot holds a resource for it whose
    [remainingPercent] is [Math.round] of the double product [f * 100]: an
    integer between 0 and 100 that differs from [100 f] by at most
    1/2 + 2^-47, and that is the integer nearest to [100 f] (halves rounded
    up) when [100 f] is a double; its [isExhausted] holds exactly when [f]
    is 0. *)
Theorem parseResponse_percent (clock : nat → Z) (us : UserStatus) (m : RawModelConfig)
    (qi : QuotaInfo) :
  let f := default 1%Q (raw_remainingFraction qi) in
  m ∈ default [] (cascadeModelConfigData us ≫= clientModelConfigs) →
  quotaInfo m = Some qi →
  (0 <= f <= 1)%Q →
  ∃ (snap : QuotaSnapshot) (r : ModelQuota) (n : Z),
    parseResponse clock {| userStatus := Some us |} = inr snap
    ∧ r ∈ models snap
    ∧ label r = raw_label m
    ∧ remainingFraction r = f
    ∧ remainingPercent r = inject_Z n
    ∧ n = Js.Math_round (Js.mul f 100)
    ∧ 0 <= n <= 100
    ∧ (Qabs (inject_Z n - 100 * f) <= (1 # 2) + 2 ^ (-47))%Q
    ∧ (Js.isDouble (100 * f) →
       (inject_Z n - (1 # 2) <= 100 * f < inject_Z n + (1 # 2))%Q)
    ∧ (isExhausted r = true ↔ (f == 0)%Q).
Proof.
  intros f Hin Hqi Hf.
  destruct (percent_product f Hf) as [Hrange Herr].
  pose proof (Math_round_bounds (Js.mul f 100)) as Hround.
  destruct (parseResponse_snapshot clock us) as (snap & Hsnap & Hms & _).
  destruct (parseModels_elem clock _ m qi Hin Hqi 0%nat) as [j Hj].
  pose proof (parseModel_fields clock j m qi) as (Hl & _ & Hfr & Hp & Hex).
  exists snap, (parseModel clock j m qi).1, (Js.Math_round (Js.mul f 100)).
  split; [exact Hsnap |]. split; [now rewrite Hms |].
  split; [exact Hl |]. split; [exact Hfr |]. split; [exact Hp |].
  split; [reflexivity |].
  split.
  { apply Math_round_range. change (inject_Z 0) with 0%Q.
    change (inject_Z 100) with 100%Q. exact Hrange. }
  split.
  { apply Qabs_Qle_condition in Herr. apply Qabs_Qle_condition.
    set (u := (2 ^ (-47))%Q) in *. lra. }
  split.
  { intros Hd. assert (Hexact : (Js.mul f 100 == 100 * f)%Q).
    { unfold Js.mul. assert (Hc : (f * 100 == 100 * f)%Q) by ring.
      rewrite Hc. now apply fl_exact. }
    rewrite <- Hexact. exact Hround. }
  rewrite Hex. unfold Js.strict_eqb. fold f.
  split; [apply Qeq_bool_eq | apply Qeq_eq_bool].
Qed.

(** Claim C4. In every snapshot that [parseResponse] produces, the
    resources are, in the upstream order, those of the raw entries that have
    quota info, and the id of a resource is the model identifier of its
    entry when that is a non-empty string and "unknown" otherwise. The ids
    are pairwise distinct when every such entry has a non-empty identifier
    and these are pairwise distinct; two entries with the same identifier,
    or two entries without one, give two resources with the same id. *)
Theorem parseResponse_modelIds (clock : nat → Z) (data : ServerUserStatusResponse)
    (snap : QuotaSnapshot) :
  parseResponse clock data = inr snap →
  ∃ us : UserStatus,
    userStatus data = Some us
    ∧ let withQuota :=
        filter (λ m, is_Some (quotaInfo m))
               (default [] (cascadeModelConfigData us ≫= clientModelConfigs)) in
      Forall2 (λ (r : ModelQuota) (m : RawModelConfig),
                 label r = raw_label m
                 ∧ (∀ s : string,
                      modelOrAlias m ≫= model = Some s → s ≠ EmptyString → modelId r = s)
                 ∧ (modelOrAlias m ≫= model = Some EmptyString
                    ∨ modelOrAlias m ≫= model = None →
                    modelId r = "unknown"))
              (models snap) withQuota
      ∧ (Forall (λ m, ∃ s : string,
                   modelOrAlias m ≫= model = Some s ∧ s ≠ EmptyString) withQuota →
         NoDup (map (λ m, modelOrAlias m ≫= model) withQuota) →
         NoDup (map modelId (models snap)))
      ∧ (∀ (i j : nat) (m m' : RawModelConfig),
           i ≠ j → withQuota !! i = Some m → withQuota !! j = Some m' →
           modelOrAlias m ≫= model = modelOrAlias m' ≫= model
           ∨ (modelOrAlias m ≫= model = None
              ∧ modelOrAlias m' ≫= model = Some EmptyString)
           ∨ (modelOrAlias m ≫= model = Some EmptyString
              ∧ modelOrAlias m' ≫= model = None) →
           ∃ r r' : ModelQuota,
             models snap !! i = Some r ∧ models snap !! j = Some r'
             ∧ modelId r = modelId r'
             ∧ ¬ NoDup (map modelId (models snap))).
Proof.
  intros Hparse. destruct (parseResponse_inr _ _ _ Hparse) as [us ->].
  exists us. split; [reflexivity |]. cbv zeta.
  destruct (parseResponse_snapshot clock us) as (snap' & Hsnap & Hms & _).
  rewrite Hparse in Hsnap. injection Hsnap as <-.
  pose proof (parseModels_entries clock
                (default [] (cascadeModelConfigData us ≫= clientModelConfigs)) 0) as Hall.
  rewrite <- Hms in Hall.
  set (withQuota := filter _ _) in *. clearbody withQuota. clear Hms Hparse.
  assert (Hids : Forall2 (λ (r : ModelQuota) (m : RawModelConfig),
                   label r = raw_label m
                   ∧ modelId r = match modelOrAlias m ≫= model with
                                 | Some EmptyString | None => "unknown"
                                 | Some s => s
                                 end)
                 (models snap) withQuota).
  { eapply Forall2_impl; [exact Hall |]. intros r m (qi & j & _ & ->).
    pose proof (parseModel_fields clock j m qi) as (Hl & Hid & _). now split. }
  clear Hall. split; [| split].
  - eapply Forall2_impl; [exact Hids |]. intros r m [Hl Hid].
    split; [exact Hl |]. rewrite Hid. split.
    + intros s -> Hs. now destruct s.
    + now intros [-> | ->].
  - intros Hnamed Hnd.
    assert (Hmap : map (λ r, Some (modelId r)) (models snap)
                   = map (λ m, modelOrAlias m ≫= model) withQuota).
    { clear Hnd. induction Hids as [| r m rs ms [_ Hid] _ IH]; [reflexivity |].
      apply Forall_cons in Hnamed as [(s & Hs & Hne) Hnamed]. cbn [map].
      f_equal; [| now apply IH]. rewrite Hid, Hs. now destruct s. }
    rewrite <- Hmap in Hnd. rewrite <- (map_map modelId Some) in Hnd.
    eapply NoDup_fmap_1. exact Hnd.
  - intros i j m m' Hij Hi Hj Hsame.
    destruct (Forall2_lookup_r _ _ _ _ _ Hids Hi) as (r & Hr & _ & Hid).
    destruct (Forall2_lookup_r _ _ _ _ _ Hids Hj) as (r' & Hr' & _ & Hid').
    assert (Heq : modelId r = modelId r').
    { rewrite Hid, Hid'. destruct Hsame as [-> | [[-> ->] | [-> ->]]]; reflexivity. }
    exists r, r'. split; [exact Hr |]. split; [exact Hr' |]. split; [exact Heq |].
    intros Hnd. apply Hij. eapply NoDup_lookup; [exact Hnd | |].
    + rewrite list_lookup_fmap, Hr. reflexivity.
    + rewrite list_lookup_fmap, Hr'. cbn. now rewrite Heq.
Qed.

(** Claim C7. For every raw response that the client normalizes, the
    snapshot has a credit balance if and only if the plan information (with
    its monthly figure) and the available credits are both present and the
    monthly figure is above 0; for a monthly figure of 500 and 350 available
    the balance has 30 percent used and 70 percent remaining. *)
Theorem parseResponse_credits (clock : nat → Z) (us : UserStatus) :
  (∀ snap : QuotaSnapshot,
     parseResponse clock {| userStatus := Some us |} = inr snap →
     (is_Some (promptCredits snap) ↔
        ∃ (pi : PlanInfo) (availableCredits : StringOrNumber) (monthlyCredits : Q),
          planStatus us ≫= planInfo = Some pi
          ∧ planStatus us ≫= availablePromptCredits = Some availableCredits
          ∧ Number (monthlyPromptCredits pi) = Some monthlyCredits
          ∧ (0 < monthlyCredits)%Q))
  ∧ (planStatus us
       = Some {| planInfo := Some {| monthlyPromptCredits := IsNumber 500 |};
                 availablePromptCredits := Some (IsNumber 350) |} →
     ∃ (snap : QuotaSnapshot) (c : PromptCredits) (used remaining : Q),
       parseResponse clock {| userStatus := Some us |} = inr snap
       ∧ promptCredits snap = Some c
       ∧ usedPercentage c = Some used ∧ (used == 30)%Q
       ∧ remainingPercentage c = Some remaining ∧ (remaining == 70)%Q).
Proof.
  split.
  - unfold parseResponse. cbn [userStatus].
    destruct (parseModels clock 0 _) as [ms k]. intros snap [= <-]. cbn.
    destruct (planStatus us ≫= planInfo) as [pi |] eqn:Hpi; cbn.
    2:{ split; [intros [? [=]] | intros (? & ? & ? & [=] & _)]. }
    destruct (planStatus us ≫= availablePromptCredits) as [ac |] eqn:Hac; cbn.
    2:{ split; [intros [? [=]] | intros (? & ? & ? & _ & [=] & _)]. }
    destruct (Number (monthlyPromptCredits pi)) as [mo |] eqn:Hmo.
    2:{ split; [intros [? [=]] | intros (? & ? & ? & [= <-] & _ & Hn & _); congruence]. }
    destruct (Js.ltb 0 mo) eqn:Hlt.
    + split; [intros _ | eauto]. exists pi, ac, mo. now rewrite <- Js_ltb_spec.
    + split; [intros [? [=]] |].
      intros (pi' & ? & mo' & [= <-] & _ & Hn & Hpos).
      rewrite Hmo in Hn. injection Hn as <-.
      apply Js_ltb_spec in Hpos. congruence.
  - intros Hplan. unfold parseResponse. cbn [userStatus].
    destruct (parseModels clock 0 _) as [ms k]. rewrite Hplan.
    eexists _, _, _, _. split; [reflexivity |]. cbn.
    split; [reflexivity |]. split; [reflexivity |]. split; [now vm_compute |].
    split; [reflexivity | now vm_compute].
Qed.

(** Claim C9. A [poll] that fails leaves the client as it was, so
    [getSnapshot] returns what it returned before; [poll] fails when the
    client is not configured, when the request is rejected (network error,
    timeout, body that is not JSON) and when the response lacks
    [userStatus]; and the snapshot is replaced only by a response that
    [parseResponse] accepts. *)
Theorem poll_failure_keeps_snapshot (st : State) (res : RequestResult) (clock : nat → Z) :
  (∀ e : Js.Error,
     (poll st res clock).1 = inl e →
     (poll st res clock).2 = st
     ∧ getSnapshot (poll st res clock).2 = getSnapshot st)
  ∧ (isConfigured st = false → ∃ e, (poll st res clock).1 = inl e)
  ∧ (∀ e, res = Rejected e → ∃ e', (poll st res clock).1 = inl e')
  ∧ (res = Resolved {| userStatus := None |} → ∃ e, (poll st res clock).1 = inl e)
  ∧ (∀ ms : list ModelQuota,
       (poll st res clock).1 = inr ms →
       ∃ (data : ServerUserStatusResponse) (snap : QuotaSnapshot),
         res = Resolved data
         ∧ parseResponse clock data = inr snap
         ∧ ms = models snap
         ∧ getSnapshot (poll st res clock).2 = Some snap).
Proof.
  unfold poll.
  destruct (isConfigured st) eqn:Hc; cbn.
  2:{ repeat split; eauto; intros; discriminate. }
  destruct res as [e0 | data]; cbn.
  { repeat split; eauto; intros; discriminate. }
  destruct (parseResponse clock data) as [e0 | snap] eqn:Hp; cbn.
  - repeat split; eauto; intros; discriminate.
  - split; [intros; discriminate |].
    split; [intros; discriminate |].
    split; [intros; discriminate |].
    split.
    + intros [= ->]. cbn in Hp. discriminate.
    + intros ms [= <-]. eauto 10.
Qed.

End QuotaClient.

(** Two raw entries without a model identifier give two resources with the
    id "unknown". *)
Lemma parseResponse_duplicate_ids :
  ∃ snap : QuotaSnapshot,
    QuotaService.parseResponse (H := exampleHost) (Examples.stopped 0)
      Examples.anonymousResponse
    = inr snap
    ∧ map label (models snap) = ["Gemini Pro"; "GPT-4"]
    ∧ map modelId (models snap) = ["unknown"; "unknown"]
    ∧ ¬ NoDup (map modelId (models snap)).
Proof.
  eexists. split; [reflexivity |]. split; [reflexivity |]. split; [reflexivity |].
  cbn. intros Hnd. apply NoDup_cons in Hnd as [Hnotin _].
  apply Hnotin. constructor.
Qed.

(** The remaining fraction 0.015 is, as a double, a little less than 15
    thousandths, so that [100 f] is nearer to 1 than to 2; the double product
    [f * 100] is 1.5 and the resource gets 2 percent. *)
Lemma parseResponse_percent_of_rounded_product :
  Js.isDouble Examples.fifteenThousandths
  ∧ (0 <= Examples.fifteenThousandths <= 1)%Q
  ∧ (1 - (1 # 2) <= 100 * Examples.fifteenThousandths < 1 + (1 # 2))%Q
  ∧ (Js.mul Examples.fifteenThousandths 100 == 3 # 2)%Q
  ∧ ∃ (snap : QuotaSnapshot) (r : ModelQuota),
      QuotaService.parseResponse (H := exampleHost) (Examples.stopped 0)
        Examples.fifteenThousandthsResponse
      = inr snap
      ∧ models snap = [r]
      ∧ remainingFraction r = Examples.fifteenThousandths
      ∧ remainingPercent r = 2%Q.
Proof.
  split.
  { exists 1080863910568919, (-56). split; [reflexivity |]. split; [lia | reflexivity]. }
  split; [split; discriminate |].
  split; [split; [discriminate | reflexivity] |].
  split; [reflexivity |].
  eexists _, _. split; [reflexivity |]. split; [reflexivity |]. split; reflexivity.
Qed.

Lemma parseResponse_modelIds_witness :
  NoDup (map modelId (models (Examples.parsed 0 Examples.creditsResponse))).
Proof.
  destruct (parseResponse_modelIds (H := exampleHost) (Examples.stopped 0)
              Examples.creditsResponse
              (Examples.parsed 0 Examples.creditsResponse) eq_refl)
    as (us & Hus & _ & Hdistinct & _).
  injection Hus as <-. apply Hdistinct.
  - repeat constructor; eexists; (split; [reflexivity | discriminate]).
  - apply (bool_decide_unpack _). vm_compute. exact I.
Defined.

Lemma parseResponse_percent_witness :
  ∃ (snap : QuotaSnapshot) (r : ModelQuota),
    QuotaService.parseResponse (H := exampleHost) (Examples.stopped 0)
      Examples.creditsResponse = inr snap
    ∧ r ∈ models snap
    ∧ label r = "Claude 3.5 Sonnet"
    ∧ remainingPercent r = 75%Q
    ∧ isExhausted r = false.
Proof.
  destruct (parseResponse_percent (H := exampleHost) (Examples.stopped 0)
              (Examples.rawStatus (Some Examples.creditsPlan) Examples.creditsEntries)
              Examples.claudeEntry
              {| raw_remainingFraction := Some (3 # 4); raw_resetTime := None |})
    as (snap & r & n & Hparse & Hin & Hlabel & Hf & Hpercent & Hn & _ & _ & _ & Hex).
  - left.
  - reflexivity.
  - cbn. lra.
  - exists snap, r. split; [exact Hparse |]. split; [exact Hin |].
    split; [exact Hlabel |]. split.
    + rewrite Hpercent, Hn. reflexivity.
    + destruct (isExhausted r); [| reflexivity].
      destruct Hex as [Hex _]. specialize (Hex eq_refl). cbn in Hex. lra.
Defined.

(** ** Analytics engine *)

Section Engine.
Import InsightsService.

(** The hours between two time values, as the engine computes them. *)
Lemma elapsed_hours (elapsed : Z) :
  (elapsed <= 0 → (Js.div (inject_Z elapsed) (inject_Z (1000 * 60 * 60)) <= 0)%Q)
  ∧ (0 < elapsed → (0 < Js.div (inject_Z elapsed) (inject_Z (1000 * 60 * 60)))%Q).
Proof.
  change (inject_Z (1000 * 60 * 60)) with 3600000%Q. unfold Js.div. split; intros He.
  - apply fl_nonpos. rewrite Zle_Qle in He. change (inject_Z 0) with 0%Q in He.
    apply Qle_shift_div_r; lra.
  - assert (Hge : (2 ^ (-22) <= Js.fl (inject_Z elapsed / 3600000))%Q).
    { apply fl_ge; [apply isDouble_pow2; lia |].
      assert (H1 : (1 <= inject_Z elapsed)%Q) by (apply inject_Z_ge_1; lia).
      apply Qle_shift_div_l; [lra |].
      change (2 ^ (-22))%Q with (1 # 4194304)%Q. lra. }
    pose proof (pow2_pos (-22)). lra.
Qed.

(** The burn rate between two whole percentages: the two quotients are
    rounded, and the result is the exact rate up to 2^-51 of it. *)
Lemma rate_of_whole_percentages (a b elapsed : Z) (oldValue newValue : Q) :
  (oldValue == inject_Z a)%Q → (newValue == inject_Z b)%Q →
  b < a → a - b < 2 ^ 53 → 0 < elapsed < 2 ^ 53 →
  let exactRate := (inject_Z (a - b) / (inject_Z elapsed / 3600000))%Q in
  let rate :=
    Js.div (Js.sub oldValue newValue)
           (Js.div (inject_Z elapsed) (inject_Z (1000 * 60 * 60))) in
  (0 < exactRate)%Q ∧ (Qabs (rate - exactRate) <= 2 ^ (-51) * exactRate)%Q.
Proof.
  intros Ha Hb Hab Hd [He1 He2]. cbv zeta.
  change (inject_Z (1000 * 60 * 60)) with 3600000%Q.
  assert (Hp : (Js.sub oldValue newValue == inject_Z (a - b))%Q).
  { unfold Js.sub. rewrite Ha, Hb. unfold Qminus. rewrite <- inject_Z_opp, <- inject_Z_plus.
    apply fl_Z. lia. }
  unfold Js.div at 1. rewrite Hp. clear Hp Ha Hb oldValue newValue.
  assert (HP : (1 <= inject_Z (a - b))%Q) by (apply inject_Z_ge_1; lia).
  assert (HE : (1 <= inject_Z elapsed)%Q) by (apply inject_Z_ge_1; lia).
  assert (HE2 : (inject_Z elapsed <= 9007199254740992)%Q).
  { change 9007199254740992%Q with (inject_Z (2 ^ 53)). rewrite <- Zle_Qle. lia. }
  set (P := inject_Z (a - b)) in *. set (E := inject_Z elapsed) in *.
  assert (HH : (1 # 3600000 <= E / 3600000)%Q) by (apply Qle_shift_div_l; lra).
  assert (HH2 : (E / 3600000 * 3600000 == E)%Q) by (field; discriminate).
  set (H := (E / 3600000)%Q) in *.
  assert (Hh : (Qabs (Js.div E 3600000 - H) <= 2 ^ (-53) * H)%Q).
  { pose proof (fl_rel_error H) as Hrel. rewrite (Qabs_pos H) in Hrel by lra.
    apply Hrel. change (2 ^ (-1022))%Q with (Qinv (inject_Z (2 ^ 1022))).
    apply Qle_shift_inv_r; [reflexivity |].
    assert (Hbig : (3600000 <= inject_Z (2 ^ 1022))%Q) by (now vm_compute).
    nra. }
  destruct (quotient_of_rounded P H (Js.div E 3600000) ltac:(lra) ltac:(lra) Hh)
    as [Hhpos Hq].
  set (h := Js.div E 3600000) in *.
  assert (HR : (P / H * H == P)%Q) by (field; lra).
  assert (HRpos : (0 < P / H)%Q) by (apply Qlt_shift_div_l; lra).
  assert (HRlow : (1 # 4294967296 <= P / H)%Q).
  { apply Qle_shift_div_l; [lra |]. lra. }
  set (R := (P / H)%Q) in *. split; [exact HRpos |].
  apply Qabs_Qle_condition in Hq.
  change (2 ^ (-52))%Q with (1 # 4503599627370496)%Q in Hq.
  assert (Hr : (Qabs (Js.fl (P / h) - P / h) <= 2 ^ (-53) * (P / h))%Q).
  { pose proof (fl_rel_error (P / h)) as Hrel.
    assert (Hq0 : (0 < P / h)%Q) by (apply Qlt_shift_div_l; lra).
    rewrite (Qabs_pos (P / h)) in Hrel by lra.
    apply Hrel. change (2 ^ (-1022))%Q with (Qinv (inject_Z (2 ^ 1022))).
    apply Qle_shift_inv_r; [reflexivity |].
    assert (Hbig : (8589934592 <= inject_Z (2 ^ 1022))%Q) by (now vm_compute).
    set (B := inject_Z (2 ^ 1022)) in *. nra. }
  apply Qabs_Qle_condition in Hr.
  change (2 ^ (-53))%Q with (1 # 9007199254740992)%Q in Hr.
  change (2 ^ (-51))%Q with (1 # 2251799813685248)%Q.
  apply Qabs_Qle_condition. set (Q0 := (P / h)%Q) in *.
  set (r := Js.fl Q0) in *. lra.
Qed.

(** The burn rate of a resource that both ends of a history of two
    entries or more know. *)
Lemma calculateBurnRate_parts (st : State) (id : string) (oldest newest : HistoryEntry)
    (oldValue newValue : Q) :
  (2 ≤ List.length (history st))%nat →
  head (history st) = Some oldest →
  last (history st) = Some newest →
  entry_models oldest !! id = Some oldValue →
  entry_models newest !! id = Some newValue →
  let elapsed := entry_timestamp newest - entry_timestamp oldest in
  (elapsed <= 0 → calculateBurnRate st id = 0%Q)
  ∧ (0 < elapsed →
     calculateBurnRate st id
     = Js.Math_max 0
         (Js.div (Js.sub oldValue newValue) (Js.div (inject_Z elapsed) 3600000)))
  ∧ (0 < elapsed →
     ∀ a b : Z,
       (oldValue == inject_Z a)%Q → (newValue == inject_Z b)%Q →
       b < a → a - b < 2 ^ 53 → elapsed < 2 ^ 53 →
       (Qabs (calculateBurnRate st id
              - inject_Z (a - b) / (inject_Z elapsed / 3600000))
        <= 2 ^ (-51) * (inject_Z (a - b) / (inject_Z elapsed / 3600000)))%Q).
Proof.
  intros Hlen Hhead Hlast Hold Hnew elapsed. unfold calculateBurnRate.
  rewrite Hhead, Hlast, Hold, Hnew. cbv zeta. fold elapsed.
  destruct (Nat.ltb_spec (List.length (history st)) 2); [lia |].
  destruct (elapsed_hours elapsed) as [Hnonpos Hpos].
  change 3600000%Q with (inject_Z (1000 * 60 * 60)).
  set (elapsedHours := Js.div (inject_Z elapsed) (inject_Z (1000 * 60 * 60))) in *.
  split; [| split].
  - intros Hle. specialize (Hnonpos Hle). apply Js_leb_spec in Hnonpos.
    now rewrite Hnonpos.
  - intros Helapsed. specialize (Hpos Helapsed).
    destruct (Js.leb elapsedHours 0) eqn:Hle; [| reflexivity].
    apply Js_leb_spec in Hle. lra.
  - intros Helapsed a b Ha Hb Hab Hdiff Hms. specialize (Hpos Helapsed).
    destruct (Js.leb elapsedHours 0) eqn:Hle.
    { apply Js_leb_spec in Hle. lra. }
    pose proof (rate_of_whole_percentages a b elapsed oldValue newValue Ha Hb Hab Hdiff
                  (conj Helapsed Hms)) as Hr.
    cbv zeta in Hr. fold elapsedHours in Hr. destruct Hr as [Hexact Hrate].
    change (inject_Z (1000 * 60 * 60)) with 3600000%Q.
    set (exactRate := (inject_Z (a - b) / (inject_Z elapsed / 3600000))%Q) in *.
    apply Qabs_Qle_condition in Hrate.
    change (2 ^ (-51))%Q with (1 # 2251799813685248)%Q in *.
    destruct (Math_max_cases 0 (Js.div (Js.sub oldValue newValue) elapsedHours))
      as [[Hc ->] | [Hc ->]].
    + apply Qabs_Qle_condition. exact Hrate.
    + lra.
Qed.

(** Claim C3. For every resource id and every history, the burn rate is at
    least 0; it is 0 when the history has fewer than 2 entries, when the id
    is absent from the oldest or from the newest entry, and when the time
    elapsed between the two is not positive; otherwise it is the greater of
    0 and the quotient, in double arithmetic, of the oldest percentage minus
    the newest by the hours elapsed between the oldest and the newest entry
    (themselves the quotient of the milliseconds by 3,600,000): it is 0 when
    the percentage has not gone down, and for whole percentages that have
    gone down it is the exact rate up to 2^-51 of it. *)
Theorem calculateBurnRate_spec (st : State) (id : string) :
  (0 <= calculateBurnRate st id)%Q
  ∧ ((List.length (history st) < 2)%nat → calculateBurnRate st id = 0%Q)
  ∧ (∀ oldest newest : HistoryEntry,
       head (history st) = Some oldest →
       last (history st) = Some newest →
       let elapsed := entry_timestamp newest - entry_timestamp oldest in
       (entry_models oldest !! id = None ∨ entry_models newest !! id = None →
        calculateBurnRate st id = 0%Q)
       ∧ (elapsed <= 0 → calculateBurnRate st id = 0%Q)
       ∧ (∀ oldValue newValue : Q,
            (2 ≤ List.length (history st))%nat →
            entry_models oldest !! id = Some oldValue →
            entry_models newest !! id = Some newValue →
            0 < elapsed →
            let elapsedHours := Js.div (inject_Z elapsed) 3600000 in
            (0 < elapsedHours)%Q
            ∧ calculateBurnRate st id
              = Js.Math_max 0 (Js.div (Js.sub oldValue newValue) elapsedHours)
            ∧ ((oldValue <= newValue)%Q → (calculateBurnRate st id == 0)%Q)
            ∧ (∀ a b : Z,
                 (oldValue == inject_Z a)%Q → (newValue == inject_Z b)%Q →
                 b < a → a - b < 2 ^ 53 → elapsed < 2 ^ 53 →
                 let exactRate := (inject_Z (a - b) / (inject_Z elapsed / 3600000))%Q in
                 (Qabs (calculateBurnRate st id - exactRate) <= 2 ^ (-51) * exactRate)%Q))).
Proof.
  split; [| split].
  - unfold calculateBurnRate.
    destruct (List.length (history st) <? 2)%nat; [lra |].
    destruct (head (history st)) as [oldest |]; [| lra].
    destruct (last (history st)) as [newest |]; [| lra].
    destruct (entry_models oldest !! id) as [o |]; [| lra].
    destruct (entry_models newest !! id) as [n |]; [| lra].
    destruct (Js.leb _ 0); [lra |].
    destruct (Math_max_cases 0
                (Js.div (Js.sub o n)
                   (Js.div (inject_Z (entry_timestamp newest - entry_timestamp oldest))
                      (inject_Z (1000 * 60 * 60)))))
      as [[Hle ->] | [Hlt ->]]; [exact Hle | lra].
  - intros Hlen. unfold calculateBurnRate.
    destruct (Nat.ltb_spec (List.length (history st)) 2); [reflexivity | lia].
  - intros oldest newest Hhead Hlast elapsed. unfold calculateBurnRate.
    rewrite Hhead, Hlast. cbv zeta. fold elapsed.
    destruct (elapsed_hours elapsed) as [Hnonpos Hpos].
    change 3600000%Q with (inject_Z (1000 * 60 * 60)).
    set (elapsedHours := Js.div (inject_Z elapsed) (inject_Z (1000 * 60 * 60))) in *.
    split; [| split].
    + intros [-> | Hn].
      * now destruct (_ <? _)%nat.
      * rewrite Hn. destruct (_ <? _)%nat; [reflexivity |].
        now destruct (entry_models oldest !! id).
    + intros Hle. specialize (Hnonpos Hle). apply Js_leb_spec in Hnonpos.
      rewrite Hnonpos. destruct (_ <? _)%nat; [reflexivity |].
      destruct (entry_models oldest !! id); [| reflexivity].
      now destruct (entry_models newest !! id).
    + intros o n Hlen -> -> Helapsed. specialize (Hpos Helapsed).
      destruct (Nat.ltb_spec (List.length (history st)) 2); [lia |].
      destruct (Js.leb elapsedHours 0) eqn:Hle.
      { apply Js_leb_spec in Hle. lra. }
      split; [exact Hpos |]. split; [reflexivity |]. split.
      * intros Hdown.
        assert (Hq : (Js.div (Js.sub o n) elapsedHours <= 0)%Q).
        { unfold Js.div at 1. apply fl_nonpos.
          assert (Hp : (Js.sub o n <= 0)%Q) by (apply fl_nonpos; lra).
          apply Qle_shift_div_r; [exact Hpos | lra]. }
        destruct (Math_max_cases 0 (Js.div (Js.sub o n) elapsedHours))
          as [[Hc ->] | [Hc ->]]; lra.
      * intros a b Ha Hb Hab Hdiff Hms. cbv zeta.
        pose proof (rate_of_whole_percentages a b elapsed o n Ha Hb Hab Hdiff
                      (conj Helapsed Hms)) as Hr.
        cbv zeta in Hr. fold elapsedHours in Hr. destruct Hr as [Hexact Hrate].
        set (exactRate := (inject_Z (a - b) / (inject_Z elapsed / 3600000))%Q) in *.
        apply Qabs_Qle_condition in Hrate.
        change (2 ^ (-51))%Q with (1 # 2251799813685248)%Q in *.
        destruct (Math_max_cases 0 (Js.div (Js.sub o n) elapsedHours))
          as [[Hc ->] | [Hc ->]].
        -- apply Qabs_Qle_condition. exact Hrate.
        -- lra.
Qed.

Lemma calculateBurnRate_history (st st' : State) (id : string) :
  history st = history st' → calculateBurnRate st id = calculateBurnRate st' id.
Proof. unfold calculateBurnRate. now intros ->. Qed.

(** What one call of [analyzeModel] returns and leaves. *)
Lemma analyzeModel_fields (now : Z) (st : State) (m : ModelQuota) (snap : QuotaSnapshot) :
  let res := analyzeModel now st m snap in
  quota res.1 = m
  ∧ burnRate (insights res.1) = calculateBurnRate st (modelId m)
  ∧ isActive (insights res.1) = detectActiveModel st m snap
  ∧ history res.2 = history st
  ∧ lastActiveModelId res.2
    = (if detectActiveModel st m snap then Some (modelId m) else lastActiveModelId st).
Proof.
  unfold analyzeModel.
  destruct (Js.ltb 0 _ && _); [| destruct (isExhausted m)];
    destruct (detectActiveModel st m snap); cbn; repeat split; reflexivity.
Qed.

Lemma analyzeModels_history (now : nat → Z) (snap : QuotaSnapshot) (ms : list ModelQuota) :
  ∀ (i : nat) (st : State), history (analyzeModels now i st snap ms).2 = history st.
Proof.
  induction ms as [| m ms IH]; intros i st; [reflexivity |].
  cbn [analyzeModels].
  pose proof (analyzeModel_fields (now i) st m snap) as Hf. cbn zeta in Hf.
  destruct (analyzeModel (now i) st m snap) as [r st1].
  specialize (IH (S i) st1).
  destruct (analyzeModels now (S i) st1 snap ms) as [rs st2]. cbn in *.
  destruct Hf as (_ & _ & _ & Hh & _). congruence.
Qed.

(** An analysed resource is the result of the call for the resource at
    its index, which reads the clock of that call. *)
Lemma analyzeModels_lookup (now : nat → Z) (snap : QuotaSnapshot) (ms : list ModelQuota) :
  ∀ (i : nat) (st : State) (r : ModelWithInsights),
    r ∈ (analyzeModels now i st snap ms).1 →
    ∃ (st' : State) (m : ModelQuota) (j : nat),
      ms !! j = Some m ∧ r = (analyzeModel (now (i + j)%nat) st' m snap).1.
Proof.
  induction ms as [| m ms IH]; intros i st r; cbn [analyzeModels].
  - intros Hr. inversion Hr.
  - destruct (analyzeModel (now i) st m snap) as [r0 st1] eqn:E1.
    specialize (IH (S i) st1 r).
    destruct (analyzeModels now (S i) st1 snap ms) as [rs st2]. cbn [fst] in *.
    intros [-> | Hr]%elem_of_cons.
    + exists st, m, 0%nat. split; [reflexivity |]. now rewrite Nat.add_0_r, E1.
    + destruct (IH Hr) as (st' & m' & j & Hm' & ->).
      exists st', m', (S j). split; [exact Hm' |].
      now replace (i + S j)%nat with (S i + j)%nat by lia.
Qed.

Lemma analyzeModels_elem (now : nat → Z) (snap : QuotaSnapshot) (ms : list ModelQuota) :
  ∀ (i : nat) (st : State) (r : ModelWithInsights),
    r ∈ (analyzeModels now i st snap ms).1 →
    ∃ (st' : State) (m : ModelQuota) (t : Z),
      m ∈ ms ∧ r = (analyzeModel t st' m snap).1.
Proof.
  intros i st r Hr.
  destruct (analyzeModels_lookup now snap ms i st r Hr) as (st' & m & j & Hm & ->).
  exists st', m, (now (i + j)%nat). split; [| reflexivity].
  eapply list_elem_of_lookup_2. exact Hm.
Qed.

Lemma analyze_models (now : nat → Z) (st : State) (snap : QuotaSnapshot) :
  modelsWithInsights (analyze now st snap).1
  = Js.Array_sort compareModels
      (analyzeModels now 0 (initSessionStart (recordSnapshot st snap) snap) snap
         (models snap)).1.
Proof.
  unfold analyze.
  destruct (analyzeModels now 0 _ snap (models snap)) as [analyzed st3].
  destruct (calculateOverallHealth _). reflexivity.
Qed.

Lemma analyze_history (now : nat → Z) (st : State) (snap : QuotaSnapshot) :
  history (analyze now st snap).2 = history (recordSnapshot st snap).
Proof.
  unfold analyze.
  pose proof (analyzeModels_history now snap (models snap) 0
                (initSessionStart (recordSnapshot st snap) snap)) as Hh.
  destruct (analyzeModels now 0 _ snap (models snap)) as [analyzed st3].
  destruct (calculateOverallHealth _). cbn in *. exact Hh.
Qed.

(** *** The history *)

Lemma recordSnapshot_history (st : State) (snap : QuotaSnapshot) :
  (List.length (history st) ≤ 20)%nat →
  let pushed := (history st ++ [entryOf snap])%list in
  history (recordSnapshot st snap) = drop (List.length pushed - 20) pushed.
Proof.
  intros Hlen pushed. unfold recordSnapshot. cbn [history]. fold pushed.
  assert (Hp : List.length pushed = S (List.length (history st))).
  { subst pushed. rewrite length_app. cbn. lia. }
  unfold MAX_HISTORY. destruct (Nat.ltb_spec 20 (List.length pushed)).
  - replace (List.length pushed - 20)%nat with 1%nat by lia.
    now destruct pushed.
  - now replace (List.length pushed - 20)%nat with 0%nat by lia.
Qed.

Lemma analyzeAll_history (calls : list ((nat → Z) * QuotaSnapshot)) :
  ∀ st : State,
    (List.length (history st) ≤ 20)%nat →
    let all := (history st ++ map (λ c, entryOf c.2) calls)%list in
    history (analyzeAll st calls) = drop (List.length all - 20) all.
Proof.
  induction calls as [| [now snap] calls IH]; intros st Hlen all.
  - subst all. cbn. rewrite app_nil_r.
    now replace (List.length (history st) - 20)%nat with 0%nat by lia.
  - cbn [analyzeAll foldl]. fold (analyzeAll (analyze now st snap).2 calls).
    pose proof (recordSnapshot_history st snap Hlen) as Hrec. cbn zeta in Hrec.
    rewrite <- analyze_history with (now := now) in Hrec.
    set (st' := (analyze now st snap).2) in *.
    set (pushed := (history st ++ [entryOf snap])%list) in *.
    assert (Hp : List.length pushed = S (List.length (history st))).
    { subst pushed. rewrite length_app. cbn. lia. }
    assert (Hlen' : (List.length (history st') ≤ 20)%nat).
    { rewrite Hrec, length_drop. lia. }
    rewrite (IH st' Hlen'). cbn zeta. rewrite Hrec.
    set (es := map (λ c : (nat → Z) * QuotaSnapshot, entryOf c.2) calls).
    assert (Hall : all = (pushed ++ es)%list).
    { subst all pushed es. cbn. now rewrite <- app_assoc. }
    rewrite Hall.
    rewrite <- (drop_app_le pushed es) by lia.
    rewrite drop_drop. f_equal.
    rewrite length_drop, !length_app. lia.
Qed.

(** Claim C6. The history is a bounded queue: after any sequence of
    [analyze] calls on a new engine it holds at most 20 entries, namely the
    entries of the most recent calls in the order of the calls; after 25
    calls exactly 20 remain, those of the last 20 calls (the 5 oldest are
    gone). *)
Theorem history_bounded_fifo (now0 : Z) (calls : list ((nat → Z) * QuotaSnapshot)) :
  let h := history (analyzeAll (init now0) calls) in
  let entries := map (λ c, entryOf c.2) calls in
  (List.length h ≤ 20)%nat
  ∧ h = drop (List.length calls - 20) entries
  ∧ (List.length calls = 25%nat → List.length h = 20%nat ∧ h = drop 5 entries).
Proof.
  intros h entries.
  assert (Hh : h = drop (List.length calls - 20) entries).
  { subst h. rewrite analyzeAll_history by (cbn; lia). cbn.
    subst entries. now rewrite length_map. }
  assert (Hl : List.length entries = List.length calls)
    by (subst entries; apply length_map).
  split; [| split].
  - rewrite Hh, length_drop. lia.
  - exact Hh.
  - intros H25. rewrite Hh, length_drop, Hl, H25. split; reflexivity.
Qed.

(** *** The active resource *)

Lemma topBurnRate_history (st st' : State) (snap : QuotaSnapshot) (m : ModelQuota) :
  history st = history st' → Spec.topBurnRate st snap m ↔ Spec.topBurnRate st' snap m.
Proof.
  intros Hh. unfold Spec.topBurnRate.
  rewrite (calculateBurnRate_history st st' (modelId m) Hh).
  split; intros [H1 H2]; (split; [exact H1 |]); intros m' Hm';
    specialize (H2 m' Hm');
    [rewrite <- (calculateBurnRate_history st st' (modelId m') Hh)
    | rewrite (calculateBurnRate_history st st' (modelId m') Hh)]; exact H2.
Qed.

Lemma topBurnRate_id (st : State) (snap : QuotaSnapshot) (m m' : ModelQuota) :
  modelId m = modelId m' → Spec.topBurnRate st snap m → Spec.topBurnRate st snap m'.
Proof. unfold Spec.topBurnRate. now intros ->. Qed.

Lemma detectActiveModel_spec (st : State) (snap : QuotaSnapshot) (m : ModelQuota) :
  m ∈ models snap →
  ∃ top : bool,
    (top = true ↔ Spec.topBurnRate st snap m)
    ∧ detectActiveModel st m snap
      = top || bool_decide (lastActiveModelId st = Some (modelId m)).
Proof.
  intros Hin. unfold detectActiveModel, Spec.topBurnRate.
  set (br := calculateBurnRate st (modelId m)).
  set (rates := map (λ m', calculateBurnRate st (modelId m')) (models snap)).
  assert (Hbr : br ∈ rates).
  { subst rates br. apply list_elem_of_fmap. eauto. }
  assert (Hrates : ∀ x, (∀ y, y ∈ rates → (y <= x)%Q)
                        ↔ ∀ m', m' ∈ models snap →
                            (calculateBurnRate st (modelId m') <= x)%Q).
  { intros x. split.
    - intros Hub m' Hm'. apply Hub. subst rates. apply list_elem_of_fmap. eauto.
    - intros Hub y Hy. subst rates.
      apply list_elem_of_fmap in Hy as (m' & -> & Hm'). auto. }
  assert (Hlast : ∀ b : bool,
            (if b then true
             else if decide (lastActiveModelId st = Some (modelId m)) then true else false)
            = b || bool_decide (lastActiveModelId st = Some (modelId m))).
  { intros [|]; [reflexivity |]. cbn [orb].
    destruct (decide _) as [Hd | Hd];
      [rewrite bool_decide_eq_true_2 | rewrite bool_decide_eq_false_2]; auto. }
  destruct (Js.ltb 1 br) eqn:Hlt.
  - apply Js_ltb_spec in Hlt.
    destruct (Math_max_list_nonempty br rates Hbr) as [mx Hmx]. rewrite Hmx.
    destruct (Math_max_list_spec rates mx Hmx) as [Hmxin Hub].
    exists (Js.strict_eqb br mx). split; [| apply Hlast].
    unfold Js.strict_eqb. split.
    + intros Heq. apply Qeq_bool_eq in Heq. split; [exact Hlt |].
      apply Hrates. intros y Hy. specialize (Hub y Hy). lra.
    + intros [_ Htop]. pose proof (proj2 (Hrates br) Htop mx Hmxin).
      specialize (Hub br Hbr). apply Qeq_eq_bool. lra.
  - exists false. split; [| exact (Hlast false)].
    split; [discriminate |]. intros [Hc _]. apply Js_ltb_spec in Hc. congruence.
Qed.

Section Threading.
Variables (now : nat → Z) (snap : QuotaSnapshot) (st0 : State).

(** The flags in the order of the snapshot: a resource is marked when it
    has the top burn rate, or when it is the one remembered at the start
    and no resource before it has the top burn rate. *)
Lemma analyzeModels_active (post : list ModelQuota) :
  ∀ (pre : list ModelQuota) (i : nat) (st : State),
    models snap = (pre ++ post)%list →
    history st = history st0 →
    Spec.remembers snap st0 pre st →
    let res := (analyzeModels now i st snap post).1 in
    map quota res = post
    ∧ (∀ r, r ∈ res → burnRate (insights r) = calculateBurnRate st0 (modelId (quota r)))
    ∧ (∀ b1 r b2, res = (b1 ++ r :: b2)%list →
         isActive (insights r) = true
         ↔ Spec.topBurnRate st0 snap (quota r)
           ∨ (lastActiveModelId st0 = Some (modelId (quota r))
              ∧ ∀ m', m' ∈ (pre ++ map quota b1)%list → ¬ Spec.topBurnRate st0 snap m')).
Proof.
  induction post as [| m post IH]; intros pre i st Hsplit Hhist Hrem; cbn zeta.
  { cbn. split; [reflexivity |]. split; [intros r Hr; inversion Hr |].
    intros [| ? ?] ? ? [=]. }
  cbn [analyzeModels].
  pose proof (analyzeModel_fields (now i) st m snap) as Hf. cbn zeta in Hf.
  destruct (analyzeModel (now i) st m snap) as [r st1]. cbn [fst snd] in Hf.
  destruct Hf as (Hq & Hb & Ha & Hh1 & Hl1).
  assert (Hin : m ∈ models snap).
  { rewrite Hsplit. apply elem_of_app. right. now left. }
  destruct (detectActiveModel_spec st snap m Hin) as (top & Htop & Hdet).
  rewrite (topBurnRate_history st st0 snap m Hhist) in Htop.
  rewrite Hdet in Ha, Hl1. clear Hdet.
  assert (Hflag : isActive (insights r) = true
                  ↔ Spec.topBurnRate st0 snap m
                    ∨ (lastActiveModelId st0 = Some (modelId m)
                       ∧ ∀ m', m' ∈ pre → ¬ Spec.topBurnRate st0 snap m')).
  { rewrite Ha, orb_true_iff, bool_decide_eq_true, Htop.
    destruct Hrem as [[Hl Hno] | (m0 & Hm0 & Htop0 & Hl)].
    - rewrite Hl. tauto.
    - split.
      + intros [Ht | Hlast]; [now left |]. left.
        apply (topBurnRate_id st0 snap m0 m); [congruence | exact Htop0].
      + intros [Ht | [_ Hno]]; [now left |]. exfalso. exact (Hno m0 Hm0 Htop0). }
  assert (Hrem1 : Spec.remembers snap st0 (pre ++ [m]) st1).
  { unfold Spec.remembers. rewrite Hl1. destruct top; cbn [orb].
    - right. exists m. split; [apply elem_of_app; right; now left |].
      split; [now apply Htop | reflexivity].
    - assert (Hnt : ¬ Spec.topBurnRate st0 snap m).
      { intros Ht. apply Htop in Ht. discriminate. }
      assert (Hsame : (if bool_decide (lastActiveModelId st = Some (modelId m))
                       then Some (modelId m) else lastActiveModelId st)
                      = lastActiveModelId st).
      { destruct (bool_decide _) eqn:Hd; [| reflexivity].
        apply bool_decide_eq_true in Hd. now rewrite Hd. }
      rewrite Hsame.
      destruct Hrem as [[Hl Hno] | (m0 & Hm0 & Htop0 & Hl)].
      + left. split; [exact Hl |].
        intros m' [Hm' | Hm']%elem_of_app; [auto |].
        apply list_elem_of_singleton in Hm' as ->. exact Hnt.
      + right. exists m0. split; [apply elem_of_app; now left | auto]. }
  assert (Hsplit1 : models snap = ((pre ++ [m]) ++ post)%list)
    by (now rewrite <- app_assoc).
  assert (Hhist1 : history st1 = history st0) by congruence.
  specialize (IH (pre ++ [m])%list (S i) st1 Hsplit1 Hhist1 Hrem1). cbn zeta in IH.
  destruct (analyzeModels now (S i) st1 snap post) as [rs st2]. cbn [fst] in *.
  destruct IH as (IHq & IHb & IHa).
  split; [cbn; congruence |].
  split.
  - intros r' [-> | Hr']%elem_of_cons; [| auto].
    rewrite Hb, Hq. now apply calculateBurnRate_history.
  - intros b1 r' b2 Hdec. destruct b1 as [| r0 b1]; cbn in Hdec.
    + injection Hdec as <- <-. rewrite Hq. cbn. rewrite app_nil_r. exact Hflag.
    + injection Hdec as <- ->. rewrite (IHa b1 r' b2 eq_refl).
      cbn [map]. rewrite Hq, <- app_assoc. reflexivity.
Qed.

End Threading.

Lemma hasTopBurnRate_Permutation (l l' : list ModelWithInsights) (r : ModelWithInsights) :
  l ≡ₚ l' → Spec.hasTopBurnRate l r ↔ Spec.hasTopBurnRate l' r.
Proof.
  intros Hp. unfold Spec.hasTopBurnRate.
  split; intros [H1 H2]; (split; [exact H1 |]); intros r' Hr'; apply H2;
    [rewrite Hp | rewrite <- Hp]; exact Hr'.
Qed.

(** Claim C1. For every [analyze] call the analysed resources are those of
    the snapshot, and for each of them: it is marked active when its burn
    rate exceeds 1 percent per hour and no resource of the snapshot has a
    higher one (resources that share the top rate are all marked); when it
    is marked active, either that holds or it is the resource remembered as
    active from the previous call; and the remembered resource is marked
    active when no resource of the snapshot qualifies by its burn rate. No
    other rule marks a resource active. *)
Theorem active_inference (now : nat → Z) (st : State) (snap : QuotaSnapshot) :
  let out := modelsWithInsights (analyze now st snap).1 in
  map quota out ≡ₚ models snap
  ∧ ∀ r : ModelWithInsights, r ∈ out →
      (Spec.hasTopBurnRate out r → isActive (insights r) = true)
      ∧ (isActive (insights r) = true →
         Spec.hasTopBurnRate out r
         ∨ lastActiveModelId st = Some (modelId (quota r)))
      ∧ (lastActiveModelId st = Some (modelId (quota r)) →
         (∀ r', r' ∈ out → ¬ Spec.hasTopBurnRate out r') →
         isActive (insights r) = true).
Proof.
  intros out.
  set (st2 := initSessionStart (recordSnapshot st snap) snap).
  set (analyzed := (analyzeModels now 0 st2 snap (models snap)).1).
  assert (Hperm : out ≡ₚ analyzed).
  { subst out. rewrite analyze_models. apply Array_sort_Permutation. }
  assert (Hrem : Spec.remembers snap st2 [] st2).
  { left. split; [reflexivity |]. intros m Hm. inversion Hm. }
  destruct (analyzeModels_active now snap st2 (models snap) [] 0%nat st2 eq_refl eq_refl Hrem)
    as (Hq & Hb & Ha).
  fold analyzed in Hq, Hb, Ha.
  assert (Htop : ∀ r, r ∈ analyzed →
            Spec.topBurnRate st2 snap (quota r) ↔ Spec.hasTopBurnRate out r).
  { intros r Hr. rewrite (hasTopBurnRate_Permutation out analyzed r Hperm).
    unfold Spec.topBurnRate, Spec.hasTopBurnRate.
    rewrite <- (Hb r Hr). split; intros [H1 H2]; (split; [exact H1 |]).
    - intros r' Hr'. rewrite (Hb r' Hr'). apply H2. rewrite <- Hq.
      apply list_elem_of_fmap. eauto.
    - intros m' Hm'. rewrite <- Hq in Hm'.
      apply list_elem_of_fmap in Hm' as (r' & -> & Hr'). rewrite <- (Hb r' Hr'). auto. }
  split.
  { rewrite <- Hq. now apply fmap_Permutation. }
  intros r Hr. rewrite Hperm in Hr.
  destruct (list_elem_of_split _ _ Hr) as (before & after & Hdec).
  specialize (Ha before r after Hdec).
  rewrite (Htop r Hr) in Ha.
  change (lastActiveModelId st2) with (lastActiveModelId st) in Ha.
  split; [| split].
  - intros Ht. apply Ha. now left.
  - intros Hact. destruct (proj1 Ha Hact) as [Ht | [Hl _]]; [now left | now right].
  - intros Hl Hno. apply Ha. right. split; [exact Hl |].
    intros m' Hm'. cbn [app] in Hm'.
    apply list_elem_of_fmap in Hm' as (r' & -> & Hr').
    assert (Hr'' : r' ∈ analyzed).
    { rewrite Hdec. apply elem_of_app. now left. }
    rewrite (Htop r' Hr''). apply Hno. now rewrite Hperm.
Qed.

(** *** The prediction *)

(** The date of an instant of the era that a [Date] can hold is that
    instant, cut to whole milliseconds. *)
Lemma Date_of_number_floor (t : Q) :
  (0 <= t <= 8640000000000000)%Q →
  ∃ ms : Z, Date_of_number t = Some ms ∧ (inject_Z ms <= t < inject_Z ms + 1)%Q.
Proof.
  intros [Hlo Hhi]. unfold Date_of_number.
  assert (Habs : Js.leb (Qabs t) 8640000000000000 = true).
  { apply Js_leb_spec. now rewrite Qabs_pos. }
  rewrite Habs. eexists. split; [reflexivity |].
  assert (Hq : Z.quot (Qnum t) (Z.pos (Qden t)) = Qfloor t).
  { destruct t as [n d]. cbn. apply Z.quot_div_nonneg; [| lia].
    unfold Qle in Hlo. cbn in Hlo. lia. }
  rewrite Hq. pose proof (Qfloor_le t). pose proof (Qlt_floor t) as Hlt.
  rewrite inject_Z_plus in Hlt. change (inject_Z 1) with 1%Q in Hlt. split; lra.
Qed.

(** A product of doubles that are not negative. *)
Lemma mul_error (x c : Q) :
  (0 <= x)%Q → (0 <= c)%Q →
  (0 <= Js.mul x c)%Q
  ∧ (Qabs (Js.mul x c - x * c) <= 2 ^ (-53) * (x * c) + 2 ^ (-1075))%Q.
Proof.
  intros Hx Hc. assert (Hxc : (0 <= x * c)%Q) by nra. unfold Js.mul.
  split; [now apply fl_nonneg |].
  pose proof (fl_error (x * c)) as He. now rewrite (Qabs_pos (x * c)) in He.
Qed.

(** The instant that the prediction adds to the clock: the quotient and
    the three products are rounded, and so is the sum. *)
Lemma predicted_instant (now : Z) (percent rate : Q) :
  (0 < rate)%Q → (0 < percent)%Q → 0 <= now →
  let instant := (inject_Z now + percent / rate * 60 * 60 * 1000)%Q in
  (instant <= 70368744177664)%Q →
  let t := Js.add (inject_Z now)
             (Js.mul (Js.mul (Js.mul (Js.div percent rate) 60) 60) 1000) in
  (0 <= t <= 8640000000000000)%Q ∧ (Qabs (t - instant) <= 1 # 16)%Q.
Proof.
  intros Hrate Hpercent Hnow instant Hhi t.
  assert (Hn : (0 <= inject_Z now)%Q).
  { change 0%Q with (inject_Z 0). now rewrite <- Zle_Qle. }
  assert (HH : (0 < percent / rate)%Q) by (apply Qlt_shift_div_l; lra).
  assert (Hh0 : (0 <= Js.div percent rate)%Q) by (apply fl_nonneg; lra).
  pose proof (fl_error (percent / rate)) as Hh.
  rewrite (Qabs_pos (percent / rate)) in Hh by lra.
  change (Js.fl (percent / rate)) with (Js.div percent rate) in Hh.
  set (H := (percent / rate)%Q) in *. set (h := Js.div percent rate) in *.
  destruct (mul_error h 60 Hh0 ltac:(lra)) as [Ha0 Ha].
  set (a := Js.mul h 60) in *.
  destruct (mul_error a 60 Ha0 ltac:(lra)) as [Hb0 Hb].
  set (b := Js.mul a 60) in *.
  destruct (mul_error b 1000 Hb0 ltac:(lra)) as [Hc0 Hc].
  set (c := Js.mul b 1000) in *.
  apply Qabs_Qle_condition in Hh, Ha, Hb, Hc.
  assert (Heta : (2 ^ (-1075) <= 1 # 1000000000000000000)%Q) by (now vm_compute).
  pose proof (pow2_pos (-1075)) as Heta0.
  set (eta := (2 ^ (-1075))%Q) in *.
  change (2 ^ (-53))%Q with (1 # 9007199254740992)%Q in *.
  assert (Hsum : (Qabs (c - H * 60 * 60 * 1000) <= 1 # 30)%Q).
  { apply Qabs_Qle_condition. subst instant. lra. }
  apply Qabs_Qle_condition in Hsum.
  assert (Hs : (Qabs (t - (inject_Z now + c)) <= 2 ^ (46 - 53))%Q).
  { subst t. unfold Js.add. apply fl_abs_error; [lia |].
    rewrite Qabs_pos by lra. change (2 ^ (46 + 1))%Q with 140737488355328%Q.
    subst instant. lra. }
  change (2 ^ (46 - 53))%Q with (1 # 128)%Q in Hs. apply Qabs_Qle_condition in Hs.
  assert (Ht0 : (0 <= t)%Q) by (apply fl_nonneg; lra).
  subst instant. split; [split; lra |]. apply Qabs_Qle_condition. lra.
Qed.

Lemma analyzeModel_prediction (now : Z) (st : State) (m : ModelQuota)
    (snap : QuotaSnapshot) :
  let r := (analyzeModel now st m snap).1 in
  let percent := remainingPercent m in
  let rate := burnRate (insights r) in
  quota r = m
  ∧ ((percent == 0)%Q →
     predictedExhaustionLabel (insights r)
     = if isExhausted m then "Exhausted" else "Safe")
  ∧ ((rate == 0)%Q → (percent == 50)%Q → isExhausted m = false →
     predictedExhaustionLabel (insights r) = "Safe")
  ∧ ((0 < rate)%Q → (0 < percent)%Q →
     predictedExhaustion (insights r)
     = Date_of_number
         (Js.add (inject_Z now)
            (Js.mul (Js.mul (Js.mul (Js.div percent rate) 60) 60) 1000))).
Proof.
  unfold analyzeModel.
  set (rate := calculateBurnRate st (modelId m)).
  destruct (Js.ltb 0 rate) eqn:Hr; destruct (Js.ltb 0 (remainingPercent m)) eqn:Hp;
    cbn [andb]; (destruct (isExhausted m) eqn:Hx; cbn);
    repeat split; try reflexivity; intros; js_compare;
    try discriminate; try lra.
Qed.

(** Claim C2. For every resource that [analyze] returns: if its
    [remainingPercent] is 0 and it is flagged exhausted, its label is
    "Exhausted" whatever the burn rate; if its burn rate is 0, its
    [remainingPercent] 50 and it is not flagged exhausted, its label is
    "Safe"; and when both the burn rate and [remainingPercent] are positive,
    [predictedExhaustion] is the date of the clock, as read while the
    resource is analysed, plus [remainingPercent / burnRate] hours, computed
    in double arithmetic and cut to whole milliseconds: for an instant up to
    2^46 ms it is less than 1 + 1/16 ms before that instant and at most
    1/16 ms after it. *)
Theorem exhaustion_prediction (now : nat → Z) (st : State) (snap : QuotaSnapshot)
    (r : ModelWithInsights) :
  r ∈ modelsWithInsights (analyze now st snap).1 →
  let percent := remainingPercent (quota r) in
  let rate := burnRate (insights r) in
  quota r ∈ models snap
  ∧ ((percent == 0)%Q → isExhausted (quota r) = true →
     predictedExhaustionLabel (insights r) = "Exhausted")
  ∧ ((rate == 0)%Q → (percent == 50)%Q → isExhausted (quota r) = false →
     predictedExhaustionLabel (insights r) = "Safe")
  ∧ ((0 < rate)%Q → (0 < percent)%Q →
     ∃ i : nat,
       models snap !! i = Some (quota r)
       ∧ predictedExhaustion (insights r)
         = Date_of_number
             (Js.add (inject_Z (now i))
                (Js.mul (Js.mul (Js.mul (Js.div percent rate) 60) 60) 1000))
       ∧ let instant := (inject_Z (now i) + percent / rate * 60 * 60 * 1000)%Q in
         (0 <= now i → (instant <= 70368744177664)%Q →
          ∃ ms : Z,
            predictedExhaustion (insights r) = Some ms
            ∧ (instant - 1 - (1 # 16) < inject_Z ms <= instant + (1 # 16))%Q)).
Proof.
  rewrite analyze_models, Array_sort_Permutation.
  intros (st' & m & i & Hm & ->)%analyzeModels_lookup. cbn [Nat.add] in *.
  pose proof (analyzeModel_prediction (now i) st' m snap) as Hp. cbn zeta in Hp.
  destruct Hp as (Hq & Hzero & Hsafe & Hdate). cbn zeta. rewrite Hq.
  split; [eapply list_elem_of_lookup_2; exact Hm |].
  split; [| split; [exact Hsafe |]].
  - intros Hz Hx. rewrite (Hzero Hz), Hx. reflexivity.
  - intros Hrate Hpercent. exists i. split; [exact Hm |].
    rewrite (Hdate Hrate Hpercent). split; [reflexivity |]. intros Hnow Hhi.
    pose proof (predicted_instant (now i) _ _ Hrate Hpercent Hnow Hhi) as Ht.
    cbv zeta in Ht. destruct Ht as [Hrange Herr].
    destruct (Date_of_number_floor _ Hrange) as (ms & Hms & Hfloor).
    exists ms. split; [exact Hms |].
    apply Qabs_Qle_condition in Herr. lra.
Qed.

End Engine.

(** Two resources that share the top burn rate are both marked active,
    though neither burns strictly faster than the other and none was
    remembered; and a resource remembered from the previous call is not
    marked when a resource before it has the top burn rate. *)
Lemma active_inference_tie_and_handover :
  (∃ r : ModelWithInsights,
     r ∈ modelsWithInsights
           (InsightsService.analyze (Examples.stopped Examples.hour) Examples.tiedEngine
              Examples.tiedSnapshot).1
     ∧ isActive (insights r) = true
     ∧ ¬ Spec.hasStrictlyTopBurnRate
           (modelsWithInsights
              (InsightsService.analyze (Examples.stopped Examples.hour) Examples.tiedEngine
                 Examples.tiedSnapshot).1) r
     ∧ InsightsService.lastActiveModelId Examples.tiedEngine
       ≠ Some (modelId (quota r)))
  ∧ (∃ r : ModelWithInsights,
       r ∈ modelsWithInsights
             (InsightsService.analyze (Examples.stopped (2 * Examples.hour)) Examples.handoverEngine
                Examples.handoverSnapshot).1
       ∧ InsightsService.lastActiveModelId Examples.handoverEngine
         = Some (modelId (quota r))
       ∧ isActive (insights r) = false).
Proof.
  split.
  - remember (modelsWithInsights _) as l eqn:El.
    vm_compute in El. subst l.
    eexists. split; [left |]. split; [reflexivity |]. split.
    + intros [_ Hstrict].
      match type of Hstrict with
      | ∀ r', r' ∈ [_; ?r2] → _ => specialize (Hstrict r2)
      end.
      assert (Hlt : (10 < 10)%Q); [| now vm_compute in Hlt].
      assert (Hq : ∀ a b : Q, (a == 10)%Q → (b == 10)%Q → (a < b)%Q → (10 < 10)%Q)
        by (intros a b Ha Hb Hab; lra).
      eapply Hq; [| | apply Hstrict]; try reflexivity.
      * right. left.
      * intros E. discriminate E.
    + vm_compute. discriminate.
  - remember (modelsWithInsights _) as l eqn:El.
    vm_compute in El. subst l.
    eexists. split; [right; left |]. split; vm_compute; reflexivity.
Qed.

(** A resource with four thousandths of its quota left has a
    [remainingPercent] of 0 and is labelled "Safe". *)
Lemma exhaustion_label_of_nearly_empty :
  ∃ (snap : QuotaSnapshot) (r : ModelWithInsights),
    QuotaService.parseResponse (H := exampleHost) (Examples.stopped 0)
      Examples.nearlyEmptyResponse
    = inr snap
    ∧ r ∈ modelsWithInsights
            (InsightsService.analyze (Examples.stopped 0) (InsightsService.init 0) snap).1
    ∧ remainingPercent (quota r) = 0%Q
    ∧ predictedExhaustionLabel (insights r) = "Safe"
    ∧ predictedExhaustionLabel (insights r) ≠ "Exhausted".
Proof.
  eexists. eexists. split; [reflexivity |].
  remember (modelsWithInsights _) as l eqn:El. vm_compute in El. subst l.
  split; [left |]. split; [reflexivity |]. split; [reflexivity | discriminate].
Qed.

(** A resource that has lost 2 points in 5 minutes burns 24 percent per
    hour, and its 98 percent last 4 hours and 5 minutes more: the instant
    15,000,000 for a clock at 300,000. The rounded quotient and products
    add up to a little less, and the date is 14,999,999. *)
Lemma predicted_date_of_rounded_products :
  ∃ r : ModelWithInsights,
    modelsWithInsights
      (InsightsService.analyze (Examples.stopped Examples.fiveMinutes)
         Examples.seenEngine Examples.fiveMinutesSnapshot).1 = [r]
    ∧ remainingPercent (quota r) = 98%Q
    ∧ (burnRate (insights r) == 24)%Q
    ∧ (inject_Z Examples.fiveMinutes + 98 / 24 * 60 * 60 * 1000 == 15000000)%Q
    ∧ predictedExhaustion (insights r) = Some 14999999.
Proof.
  remember (modelsWithInsights _) as l eqn:El. vm_compute in El. subst l.
  eexists. split; [reflexivity |]. split; [reflexivity |].
  split; [now vm_compute |]. split; [now vm_compute | reflexivity].
Qed.

(** A resource that goes from 100 to 89 percent in 44 minutes burns 15
    percent per hour; the two rounded quotients give 15 + 2^-49. *)
Lemma burn_rate_of_rounded_quotients :
  let engine := Examples.elevenPointsEngine in
  let rate := InsightsService.calculateBurnRate engine "a" in
  (∃ oldest newest : HistoryEntry,
     InsightsService.history engine = [oldest; newest]
     ∧ entry_models oldest !! "a" = Some 100%Q
     ∧ entry_models newest !! "a" = Some 89%Q
     ∧ entry_timestamp newest - entry_timestamp oldest = 44 * 60000)
  ∧ (Qmax 0 ((100 - 89) / (inject_Z (44 * 60000) / 3600000)) == 15)%Q
  ∧ (rate == 15 + 2 ^ (-49))%Q
  ∧ ¬ (rate == Qmax 0 ((100 - 89) / (inject_Z (44 * 60000) / 3600000)))%Q.
Proof.
  cbv zeta. split; [| split; [| split]].
  - remember (InsightsService.history Examples.elevenPointsEngine) as h eqn:Eh.
    vm_compute in Eh. subst h.
    eexists _, _. split; [reflexivity |]. repeat split; now vm_compute.
  - now vm_compute.
  - now vm_compute.
  - intros Hc. vm_compute in Hc. discriminate Hc.
Qed.

Lemma exhaustion_prediction_witness :
  Examples.handoverFirst
    ∈ modelsWithInsights
        (InsightsService.analyze (Examples.stopped (2 * Examples.hour)) Examples.handoverEngine
           Examples.handoverSnapshot).1
  ∧ predictedExhaustion (insights Examples.handoverFirst) = Some (10 * Examples.hour).
Proof.
  assert (Hin : Examples.handoverFirst
                  ∈ modelsWithInsights
                      (InsightsService.analyze (Examples.stopped (2 * Examples.hour))
                         Examples.handoverEngine Examples.handoverSnapshot).1)
    by (vm_compute; left).
  split; [exact Hin |].
  destruct (exhaustion_prediction _ _ _ _ Hin) as (_ & _ & _ & Hdate).
  destruct Hdate as (i & _ & Hdate & _);
    [vm_compute; reflexivity | vm_compute; reflexivity |].
  rewrite Hdate. vm_compute. reflexivity.
Defined.

Lemma active_inference_witness :
  isActive (insights Examples.handoverFirst) = true.
Proof.
  assert (Hin : Examples.handoverFirst
                  ∈ modelsWithInsights
                      (InsightsService.analyze (Examples.stopped (2 * Examples.hour))
                         Examples.handoverEngine Examples.handoverSnapshot).1)
    by (vm_compute; left).
  destruct (active_inference (Examples.stopped (2 * Examples.hour)) Examples.handoverEngine
              Examples.handoverSnapshot) as [_ Hflags].
  destruct (Hflags _ Hin) as (Htop & _ & _).
  apply Htop. split.
  - vm_compute. reflexivity.
  - remember (modelsWithInsights _) as l eqn:El. vm_compute in El. subst l.
    intros r' [-> | [-> | Hr']%elem_of_cons]%elem_of_cons;
      [vm_compute; discriminate | vm_compute; discriminate | inversion Hr'].
Defined.

(** ** Platform strategies *)

Lemma unix_parseLine_no_token (line : string) :
  Js.includes line "--csrf_token" = false →
  csrfToken (UnixStrategy.parseLine line) = EmptyString.
Proof.
  intros Hno. unfold UnixStrategy.parseLine. cbn [csrfToken].
  rewrite match_flag_absent; [reflexivity |].
  destruct (Js.includes (Js.trim _) "--csrf_token") eqn:E; [| reflexivity].
  apply includes_trim, includes_substring_from in E. congruence.
Qed.

Lemma unix_parseLines_first (before : list string) (line : string) (after : list string) :
  (∀ l, l ∈ before → Js.includes l "--extension_server_port" = false) →
  Js.includes line "--extension_server_port" = true →
  UnixStrategy.parseLines (before ++ line :: after) = Some (UnixStrategy.parseLine line).
Proof.
  intros Hbefore Hline.
  induction before as [| l before IH]; cbn [app UnixStrategy.parseLines].
  - now rewrite Hline.
  - rewrite (Hbefore l) by now left. apply IH. intros l' Hl'. apply Hbefore. now right.
Qed.

Section Windows.
Import WindowsStrategy.
Context `{Host}.

Lemma matchOfCommandLine_token {P} (p : P) (commandLine : string) (info : ProcessMatch P) :
  matchOfCommandLine p commandLine = Some info → csrfToken info ≠ EmptyString.
Proof.
  unfold matchOfCommandLine.
  destruct (Js.match_flag true "--csrf_token" isHexTokenChar commandLine) as [t |] eqn:E;
    [| discriminate].
  intros [= <-]. cbn. eapply match_flag_nonempty; eassumption.
Qed.

Lemma matchOfRecord_token (data : Json) (info : ProcessMatch Json) :
  matchOfRecord data = inr (Some info) → csrfToken info ≠ EmptyString.
Proof.
  unfold matchOfRecord.
  destruct (getProperty data "CommandLine") as [e | cl]; [discriminate |].
  destruct (getProperty data "ProcessId") as [e | p]; [discriminate |].
  destruct (negb (truthy p)); [discriminate |].
  intros [= Hm]. eapply matchOfCommandLine_token; eassumption.
Qed.

Lemma parsePowerShell_token (stdout : string) (info : ProcessMatch Json) :
  parsePowerShell stdout = inr (Some info) → csrfToken info ≠ EmptyString.
Proof.
  unfold parsePowerShell.
  destruct (JSON_parse (Js.trim stdout)) as [data |]; [| discriminate].
  assert (Hother : match hasAntigravityCommandLine data with
                   | inl e => inl e
                   | inr false => inr None
                   | inr true => matchOfRecord data
                   end = inr (Some info) → csrfToken info ≠ EmptyString).
  { destruct (hasAntigravityCommandLine data) as [e | [|]]; try discriminate.
    apply matchOfRecord_token. }
  destruct data as [| b | q | s | items | fields]; try exact Hother.
  destruct items as [| item items]; [discriminate |].
  destruct (filterAntigravity (item :: items)) as [e | [| first kept]]; try discriminate.
  apply matchOfRecord_token.
Qed.

Lemma parseWmic_token (stdout : string) (info : ProcessMatch Json) :
  parseWmic stdout = Some info → csrfToken info ≠ EmptyString.
Proof.
  unfold parseWmic.
  generalize (filter (λ block, (0 < String.length (Js.trim block))%nat)
                     (Js.split_blankLines stdout)).
  intros blocks.
  induction blocks as [| block blocks IH]; cbn [parseBlocks]; [discriminate |].
  destruct (parseBlock block) as [m |] eqn:E; [| exact IH].
  intros [= ->]. unfold parseBlock in E.
  destruct (Js.match_literal_run "ProcessId=" _ block); [| discriminate].
  destruct (Js.match_literal_run "CommandLine=" _ block); [| discriminate].
  destruct (negb _); [discriminate |].
  eapply matchOfCommandLine_token; eassumption.
Qed.

Lemma windows_match_has_token (stdout : string) (info : ProcessMatch Json) :
  parseProcessInfo stdout = Some info → csrfToken info ≠ EmptyString.
Proof.
  unfold parseProcessInfo.
  destruct (usePowerShell || _ || _); [| apply parseWmic_token].
  destruct (parsePowerShell stdout) as [e | result] eqn:E; [apply parseWmic_token |].
  intros ->. eapply parsePowerShell_token; eassumption.
Qed.

End Windows.

(** Claim C10. On the Unix strategy, when the first line of the process
    list that has the extension-port flag has no csrf-token flag,
    [parseProcessInfo] still returns a match, whose [csrfToken] is the empty
    string, and a quota client configured with that token is not
    configured, whatever the port; the Windows strategy never returns a
    match with an empty token. *)
Theorem unix_match_without_token (stdout : string) (before : list string)
    (line : string) (after : list string) :
  Js.split_char "010" stdout = (before ++ line :: after)%list →
  (∀ l, l ∈ before → Js.includes l "--extension_server_port" = false) →
  Js.includes line "--extension_server_port" = true →
  Js.includes line "--csrf_token" = false →
  (∃ info : ProcessMatch (option Z),
     UnixStrategy.parseProcessInfo stdout = Some info
     ∧ csrfToken info = EmptyString
     ∧ ∀ (st : QuotaService.State) (connectPort : Z),
         QuotaService.isConfigured
           (QuotaService.setConnection st connectPort (csrfToken info)) = false)
  ∧ (∀ (host : Host) (out : string) (found : ProcessMatch Json),
       WindowsStrategy.parseProcessInfo out = Some found → csrfToken found ≠ EmptyString).
Proof.
  intros Hlines Hbefore Hport Htoken. split.
  - exists (UnixStrategy.parseLine line).
    assert (Hempty : csrfToken (UnixStrategy.parseLine line) = EmptyString)
      by now apply unix_parseLine_no_token.
    split; [| split; [exact Hempty |]].
    + unfold UnixStrategy.parseProcessInfo. rewrite Hlines.
      now apply unix_parseLines_first.
    + intros st connectPort. rewrite Hempty.
      unfold QuotaService.isConfigured. cbn. apply andb_false_r.
  - intros host out found. apply windows_match_has_token.
Qed.

Lemma unix_match_without_token_witness :
  ∃ info : ProcessMatch (option Z),
    UnixStrategy.parseProcessInfo Examples.tokenlessLine = Some info
    ∧ csrfToken info = EmptyString.
Proof.
  destruct (unix_match_without_token Examples.tokenlessLine []
              Examples.tokenlessLine [] eq_refl)
    as [(info & Hparse & Hempty & _) _].
  - intros l Hl. inversion Hl.
  - reflexivity.
  - reflexivity.
  - exists info. split; assumption.
Defined.

(** ** The statements on the data of the examples *)

Lemma formatTime_cases_witness :
  QuotaService.formatTime 5400000 = "1h 30m".
Proof.
  destruct (formatTime_cases 5400000) as (_ & _ & Hhours & _).
  rewrite Hhours.
  - vm_compute. reflexivity.
  - lia.
  - vm_compute. discriminate.
  - vm_compute. reflexivity.
Defined.

Lemma parseResponse_credits_witness :
  ∃ (snap : QuotaSnapshot) (c : PromptCredits) (used : Q),
    QuotaService.parseResponse (H := exampleHost) (Examples.stopped 0)
      Examples.creditsResponse = inr snap
    ∧ promptCredits snap = Some c
    ∧ usedPercentage c = Some used
    ∧ (used == 30)%Q.
Proof.
  destruct (parseResponse_credits (H := exampleHost) (Examples.stopped 0)
              (Examples.rawStatus (Some Examples.creditsPlan) Examples.creditsEntries))
    as [_ Hcredits].
  destruct (Hcredits eq_refl) as (snap & c & used & remaining & Hp & Hc & Hu & Hu30 & _).
  exists snap, c, used. repeat split; assumption.
Defined.

Lemma poll_failure_keeps_snapshot_witness :
  QuotaService.getSnapshot
    (QuotaService.poll (H := exampleHost) Examples.configuredClient Examples.timedOut
       (Examples.stopped 0)).2
  = QuotaService.getSnapshot Examples.configuredClient.
Proof.
  destruct (poll_failure_keeps_snapshot (H := exampleHost) Examples.configuredClient
              Examples.timedOut (Examples.stopped 0)) as [Hfail _].
  destruct (Hfail (Js.GenericError "Request timeout") eq_refl) as [_ Hsame].
  exact Hsame.
Defined.

Lemma calculateBurnRate_spec_witness :
  (InsightsService.calculateBurnRate Examples.handoverEngine "b" == 10)%Q.
Proof.
  destruct (calculateBurnRate_spec Examples.handoverEngine "b") as (_ & _ & Hrate).
  destruct (Hrate Examples.handoverOldest Examples.handoverNewest
              ltac:(vm_compute; reflexivity) ltac:(vm_compute; reflexivity))
    as (_ & _ & Hmax).
  destruct (Hmax 100%Q 90%Q) as (_ & Hrate' & _).
  - vm_compute. lia.
  - vm_compute. reflexivity.
  - vm_compute. reflexivity.
  - vm_compute. reflexivity.
  - rewrite Hrate'. vm_compute. reflexivity.
Defined.

Lemma history_bounded_fifo_witness :
  List.length
    (InsightsService.history
       (InsightsService.analyzeAll (InsightsService.init 0) Examples.manyCalls))
  = 20%nat
  ∧ entry_timestamp
      <$> head (InsightsService.history
                  (InsightsService.analyzeAll (InsightsService.init 0) Examples.manyCalls))
    = Some 300000.
Proof.
  destruct (history_bounded_fifo 0 Examples.manyCalls) as (_ & _ & H25).
  destruct (H25 eq_refl) as [Hlen Hdrop].
  split; [exact Hlen |].
  rewrite Hdrop. reflexivity.
Defined.

(** * Further properties *)

(** ** Analytics engine: the order of the result *)


Section SortOrder.
Context {A : Type} (cmp : A → A → Q) (R : relation A).
Hypothesis before : ∀ x y, Js.ltb (cmp x y) 0 = true → R x y.
Hypothesis not_before : ∀ x y, Js.ltb (cmp x y) 0 = false → R y x.
Hypothesis R_trans : Transitive R.

Lemma sort_insert_sorted (x : A) (l : list A) :
  StronglySorted R l → StronglySorted R (Js.sort_insert cmp x l).
Proof.
  induction 1 as [| y l Hsorted IH Hy]; cbn [Js.sort_insert].
  - repeat constructor.
  - destruct (Js.ltb (cmp x y) 0) eqn:E.
    + constructor; [now constructor |].
      constructor; [now apply before |].
      apply Forall_forall. intros z Hz. rewrite Forall_forall in Hy.
      transitivity y; [now apply before | now apply Hy].
    + constructor; [exact IH |].
      apply Forall_forall. intros z Hz.
      rewrite sort_insert_Permutation in Hz.
      apply elem_of_cons in Hz as [-> | Hz]; [now apply not_before |].
      rewrite Forall_forall in Hy. now apply Hy.
Qed.

Lemma Array_sort_sorted (l : list A) : StronglySorted R (Js.Array_sort cmp l).
Proof.
  unfold Js.Array_sort.
  enough (Hgen : ∀ acc, StronglySorted R acc →
            StronglySorted R (foldl (λ acc x, Js.sort_insert cmp x acc) acc l)).
  { apply Hgen. constructor. }
  induction l as [| x l IH]; intros acc Hacc; cbn; [exact Hacc |].
  apply IH. now apply sort_insert_sorted.
Qed.

End SortOrder.

Section Display.
Import InsightsService.

Lemma displayOrder_trans : Transitive Spec.displayOrder.
Proof.
  intros a b c [[Ha Hb] | [Hab Hle1]] [[Hb' Hc] | [Hbc Hle2]].
  - congruence.
  - left. split; congruence.
  - left. split; congruence.
  - right. split; [congruence | lra].
Qed.

Lemma compareModels_before (a b : ModelWithInsights) :
  Js.ltb (compareModels a b) 0 = true → Spec.displayOrder a b.
Proof.
  unfold compareModels, Spec.displayOrder.
  destruct (isActive (insights a)), (isActive (insights b)); cbn;
    intros Hlt; js_compare;
    try (left; split; reflexivity); try (right; split; [reflexivity | lra]); lra.
Qed.

Lemma compareModels_not_before (a b : ModelWithInsights) :
  Js.ltb (compareModels a b) 0 = false → Spec.displayOrder b a.
Proof.
  unfold compareModels, Spec.displayOrder.
  destruct (isActive (insights a)), (isActive (insights b)); cbn;
    intros Hlt; js_compare;
    try (left; split; reflexivity); try (right; split; [reflexivity | lra]); lra.
Qed.

(** Property X1. The resources that [analyze] returns are in display order:
    every active resource comes before every resource that is not active,
    and among the active ones, as among the others, the remaining
    percentages never decrease. *)
Theorem analyze_display_order (now : nat → Z) (st : State) (snap : QuotaSnapshot) :
  StronglySorted Spec.displayOrder (modelsWithInsights (analyze now st snap).1).
Proof.
  rewrite analyze_models.
  apply Array_sort_sorted.
  - apply compareModels_before.
  - apply compareModels_not_before.
  - apply displayOrder_trans.
Qed.

End Display.

(** ** Analytics engine: the remembered resource *)

Section EngineState.
Import InsightsService.

Lemma analyzeModel_baseline (now : Z) (st : State) (m : ModelQuota) (snap : QuotaSnapshot) :
  sessionStartQuotas (analyzeModel now st m snap).2 = sessionStartQuotas st
  ∧ sessionStart (analyzeModel now st m snap).2 = sessionStart st
  ∧ sessionUsage (insights (analyzeModel now st m snap).1)
    = calculateSessionUsage st (modelId m) (remainingPercent m).
Proof.
  unfold analyzeModel.
  destruct (Js.ltb 0 _ && _); [| destruct (isExhausted m)];
    destruct (detectActiveModel st m snap); cbn; repeat split; reflexivity.
Qed.

Lemma analyzeModels_baseline (now : nat → Z) (snap : QuotaSnapshot) (ms : list ModelQuota) :
  ∀ (i : nat) (st : State),
    sessionStartQuotas (analyzeModels now i st snap ms).2 = sessionStartQuotas st
    ∧ sessionStart (analyzeModels now i st snap ms).2 = sessionStart st
    ∧ ∀ r, r ∈ (analyzeModels now i st snap ms).1 →
        sessionUsage (insights r)
        = calculateSessionUsage st (modelId (quota r)) (remainingPercent (quota r)).
Proof.
  induction ms as [| m ms IH]; intros i st; cbn [analyzeModels].
  - cbn. repeat split. intros r Hr. inversion Hr.
  - pose proof (analyzeModel_baseline (now i) st m snap) as (Hb & Hs & Hu).
    pose proof (analyzeModel_fields (now i) st m snap) as Hf. cbn zeta in Hf.
    destruct Hf as (Hq & _).
    destruct (analyzeModel (now i) st m snap) as [r0 st1]. cbn [fst snd] in *.
    destruct (IH (S i) st1) as (IHb & IHs & IHu).
    destruct (analyzeModels now (S i) st1 snap ms) as [rs st2]. cbn [fst snd] in *.
    split; [congruence |]. split; [congruence |].
    intros r [-> | Hr]%elem_of_cons.
    + rewrite Hq. exact Hu.
    + rewrite (IHu r Hr). unfold calculateSessionUsage. now rewrite Hb.
Qed.

(** What the engine remembers after the resources [post]. *)
Lemma analyzeModels_remembers (now : nat → Z) (snap : QuotaSnapshot) (st0 : State)
    (post : list ModelQuota) :
  ∀ (pre : list ModelQuota) (i : nat) (st : State),
    models snap = (pre ++ post)%list →
    history st = history st0 →
    Spec.remembers snap st0 pre st →
    Spec.remembers snap st0 (pre ++ post) (analyzeModels now i st snap post).2.
Proof.
  induction post as [| m post IH]; intros pre i st Hsplit Hhist Hrem.
  { cbn. now rewrite app_nil_r. }
  cbn [analyzeModels].
  pose proof (analyzeModel_fields (now i) st m snap) as Hf. cbn zeta in Hf.
  destruct (analyzeModel (now i) st m snap) as [r st1]. cbn [fst snd] in Hf.
  destruct Hf as (Hq & Hb & Ha & Hh1 & Hl1).
  assert (Hin : m ∈ models snap).
  { rewrite Hsplit. apply elem_of_app. right. now left. }
  destruct (detectActiveModel_spec st snap m Hin) as (top & Htop & Hdet).
  rewrite (topBurnRate_history st st0 snap m Hhist) in Htop.
  rewrite Hdet in Hl1.
  assert (Hrem1 : Spec.remembers snap st0 (pre ++ [m]) st1).
  { unfold Spec.remembers. rewrite Hl1. destruct top; cbn [orb].
    - right. exists m. split; [apply elem_of_app; right; now left |].
      split; [now apply Htop | reflexivity].
    - assert (Hnt : ¬ Spec.topBurnRate st0 snap m).
      { intros Ht. apply Htop in Ht. discriminate. }
      assert (Hsame : (if bool_decide (lastActiveModelId st = Some (modelId m))
                       then Some (modelId m) else lastActiveModelId st)
                      = lastActiveModelId st).
      { destruct (bool_decide _) eqn:Hd; [| reflexivity].
        apply bool_decide_eq_true in Hd. now rewrite Hd. }
      rewrite Hsame.
      destruct Hrem as [[Hl Hno] | (m0 & Hm0 & Htop0 & Hl)].
      + left. split; [exact Hl |].
        intros m' [Hm' | Hm']%elem_of_app; [auto |].
        apply list_elem_of_singleton in Hm' as ->. exact Hnt.
      + right. exists m0. split; [apply elem_of_app; now left | auto]. }
  assert (Hsplit1 : models snap = ((pre ++ [m]) ++ post)%list)
    by (now rewrite <- app_assoc).
  assert (Hhist1 : history st1 = history st0) by congruence.
  specialize (IH (pre ++ [m])%list (S i) st1 Hsplit1 Hhist1 Hrem1).
  destruct (analyzeModels now (S i) st1 snap post) as [rs st2]. cbn [snd] in *.
  now rewrite <- app_assoc in IH.
Qed.

Lemma analyze_state (now : nat → Z) (st : State) (snap : QuotaSnapshot) :
  (analyze now st snap).2
  = (analyzeModels now 0 (initSessionStart (recordSnapshot st snap) snap) snap
       (models snap)).2.
Proof.
  unfold analyze.
  destruct (analyzeModels now 0 _ snap (models snap)) as [analyzed st3].
  destruct (calculateOverallHealth _). reflexivity.
Qed.

(** The analysed resources in the order of the snapshot, with what the
    claims' lemmas say of them. *)
Lemma analyzed_resources (now : nat → Z) (st : State) (snap : QuotaSnapshot) :
  let st2 := initSessionStart (recordSnapshot st snap) snap in
  let analyzed := (analyzeModels now 0 st2 snap (models snap)).1 in
  modelsWithInsights (analyze now st snap).1 ≡ₚ analyzed
  ∧ map quota analyzed = models snap
  ∧ (∀ r, r ∈ analyzed →
       burnRate (insights r) = calculateBurnRate st2 (modelId (quota r)))
  ∧ (∀ r, r ∈ analyzed →
       Spec.topBurnRate st2 snap (quota r)
       ↔ Spec.hasTopBurnRate (modelsWithInsights (analyze now st snap).1) r).
Proof.
  intros st2 analyzed.
  assert (Hperm : modelsWithInsights (analyze now st snap).1 ≡ₚ analyzed).
  { rewrite analyze_models. apply Array_sort_Permutation. }
  assert (Hrem : Spec.remembers snap st2 [] st2).
  { left. split; [reflexivity |]. intros m Hm. inversion Hm. }
  destruct (analyzeModels_active now snap st2 (models snap) [] 0%nat st2 eq_refl eq_refl Hrem)
    as (Hq & Hb & _).
  fold analyzed in Hq, Hb.
  split; [exact Hperm |]. split; [exact Hq |]. split; [exact Hb |].
  intros r Hr. rewrite (hasTopBurnRate_Permutation _ analyzed r Hperm).
  unfold Spec.topBurnRate, Spec.hasTopBurnRate.
  rewrite <- (Hb r Hr). split; intros [H1 H2]; (split; [exact H1 |]).
  - intros r' Hr'. rewrite (Hb r' Hr'). apply H2. rewrite <- Hq.
    apply list_elem_of_fmap. eauto.
  - intros m' Hm'. rewrite <- Hq in Hm'.
    apply list_elem_of_fmap in Hm' as (r' & -> & Hr'). rewrite <- (Hb r' Hr'). auto.
Qed.

(** Property X2. After an [analyze] call the engine remembers either the id
    it remembered before the call, and then no resource of the result has a
    burn rate above 1 that no other resource exceeds, or the id of a
    resource of the result that has such a burn rate. *)
Theorem remembered_id_update (now : nat → Z) (st : State) (snap : QuotaSnapshot) :
  let out := modelsWithInsights (analyze now st snap).1 in
  let st' := (analyze now st snap).2 in
  (lastActiveModelId st' = lastActiveModelId st
   ∧ ∀ r, r ∈ out → ¬ Spec.hasTopBurnRate out r)
  ∨ (∃ r, r ∈ out ∧ Spec.hasTopBurnRate out r
          ∧ lastActiveModelId st' = Some (modelId (quota r))).
Proof.
  intros out st'.
  destruct (analyzed_resources now st snap) as (Hperm & Hq & _ & Htop).
  cbn zeta in *.
  set (st2 := initSessionStart (recordSnapshot st snap) snap) in *.
  set (analyzed := (analyzeModels now 0 st2 snap (models snap)).1) in *.
  assert (Hrem : Spec.remembers snap st2 [] st2).
  { left. split; [reflexivity |]. intros m Hm. inversion Hm. }
  pose proof (analyzeModels_remembers now snap st2 (models snap) [] 0%nat st2
                eq_refl eq_refl Hrem) as Hfinal.
  cbn [app] in Hfinal. subst st'. rewrite analyze_state. fold st2.
  destruct Hfinal as [[Hl Hno] | (m & Hm & Hmtop & Hl)].
  - left. split; [exact Hl |]. intros r Hr Hrtop.
    fold out in Hperm. rewrite Hperm in Hr.
    apply (Hno (quota r)).
    + rewrite <- Hq. apply list_elem_of_fmap. eauto.
    + now apply Htop.
  - right. rewrite <- Hq in Hm. apply list_elem_of_fmap in Hm as (r & -> & Hr).
    exists r. split; [fold out in Hperm; now rewrite Hperm |].
    split; [now apply Htop | exact Hl].
Qed.

(** Property X3. The first analysis of a new engine, whatever the snapshot
    and the clock: every resource has burn rate 0, is not active, has no
    predicted exhaustion and is labelled "Exhausted" when it is exhausted
    and "Safe" otherwise; the engine remembers no active resource
    afterwards. *)
Theorem first_analysis_quiet (t0 : Z) (now : nat → Z) (snap : QuotaSnapshot) :
  (∀ r, r ∈ modelsWithInsights (analyze now (init t0) snap).1 →
     burnRate (insights r) = 0%Q
     ∧ isActive (insights r) = false
     ∧ predictedExhaustion (insights r) = None
     ∧ predictedExhaustionLabel (insights r)
       = if isExhausted (quota r) then "Exhausted" else "Safe")
  ∧ lastActiveModelId (analyze now (init t0) snap).2 = None.
Proof.
  assert (Hrate : ∀ id,
            calculateBurnRate (initSessionStart (recordSnapshot (init t0) snap) snap) id
            = 0%Q) by reflexivity.
  assert (Hnotop : ∀ m, ¬ Spec.topBurnRate
                      (initSessionStart (recordSnapshot (init t0) snap) snap) snap m).
  { intros m [Hlt _]. rewrite Hrate in Hlt. lra. }
  split.
  - intros r Hr.
    rewrite analyze_models, Array_sort_Permutation in Hr.
    set (st2 := initSessionStart (recordSnapshot (init t0) snap) snap) in *.
    assert (Hrem : Spec.remembers snap st2 [] st2).
    { left. split; [reflexivity |]. intros m Hm. inversion Hm. }
    destruct (analyzeModels_active now snap st2 (models snap) [] 0%nat st2 eq_refl eq_refl Hrem)
      as (Hq & Hb & Ha).
    assert (Hbr : burnRate (insights r) = 0%Q) by (rewrite (Hb r Hr); apply Hrate).
    split; [exact Hbr |].
    destruct (list_elem_of_split _ _ Hr) as (before & after & Hdec).
    split.
    { destruct (isActive (insights r)) eqn:Hact; [| reflexivity].
      apply (Ha before r after Hdec) in Hact as [Ht | [Hl _]].
      - exfalso. exact (Hnotop _ Ht).
      - discriminate. }
    apply analyzeModels_elem in Hr as (st' & m & t & Hm & ->).
    pose proof (analyzeModel_fields t st' m snap) as Hf. cbn zeta in Hf.
    destruct Hf as (Hquota & Hburn & _). rewrite Hquota.
    rewrite Hburn in Hbr. unfold analyzeModel. rewrite Hbr.
    change (Js.ltb 0 0) with false. cbn [andb].
    destruct (isExhausted m); split; reflexivity.
  - rewrite analyze_state.
    set (st2 := initSessionStart (recordSnapshot (init t0) snap) snap) in *.
    assert (Hrem : Spec.remembers snap st2 [] st2).
    { left. split; [reflexivity |]. intros m Hm. inversion Hm. }
    destruct (analyzeModels_remembers now snap st2 (models snap) [] 0%nat st2
                eq_refl eq_refl Hrem) as [[Hl _] | (m & _ & Hmtop & _)].
    + exact Hl.
    + exfalso. exact (Hnotop _ Hmtop).
Qed.

End EngineState.

(** ** Analytics engine: the burn rate between polls *)

Section BurnRate.
Import InsightsService.

Lemma entry_fold_absent (ms : list ModelQuota) :
  ∀ (acc : gmap string Q) (id : string),
    id ∉ map modelId ms →
    foldl (λ (acc : gmap string Q) m, <[modelId m := remainingPercent m]> acc) acc ms
    !! id = acc !! id.
Proof.
  induction ms as [| m ms IH]; intros acc id Hid; [reflexivity |].
  cbn [foldl]. rewrite IH.
  - apply lookup_insert_ne. intros Heq. apply Hid. cbn. rewrite Heq. now left.
  - intros Hin. apply Hid. cbn. now right.
Qed.

(** The entry of a snapshot without repeated ids holds the percentage of
    each of its resources. *)
Lemma entryOf_lookup (snap : QuotaSnapshot) (m : ModelQuota) :
  NoDup (map modelId (models snap)) →
  m ∈ models snap →
  entry_models (entryOf snap) !! modelId m = Some (remainingPercent m).
Proof.
  unfold entryOf. cbn [entry_models]. generalize (∅ : gmap string Q).
  induction (models snap) as [| x ms IH]; intros acc Hnd Hm; [inversion Hm |].
  cbn [map] in Hnd. apply NoDup_cons in Hnd as [Hx Hnd]. cbn [foldl].
  apply elem_of_cons in Hm as [-> | Hm].
  - rewrite entry_fold_absent by exact Hx. apply lookup_insert_eq.
  - now apply IH.
Qed.

(** Property X4. The burn rate between polls. For an engine whose history
    is not empty and holds fewer than 20 entries, and a snapshot without
    repeated ids, the burn rate that [analyze] returns for a resource that
    the oldest entry knows is the greater of 0 and the quotient, in double
    arithmetic, of the percentage of the oldest entry minus the remaining
    percentage of the resource by the hours between the timestamp of the
    oldest entry and the timestamp of the snapshot, which for whole
    percentages that have gone down is the exact rate up to 2^-51 of it; it
    is 0 when the snapshot is not later than the oldest entry. *)
Theorem burn_rate_since_oldest (now : nat → Z) (st : State) (snap : QuotaSnapshot)
    (oldest : HistoryEntry) (rest : list HistoryEntry) (r : ModelWithInsights) (p0 : Q) :
  history st = oldest :: rest →
  (List.length (history st) < 20)%nat →
  NoDup (map modelId (models snap)) →
  r ∈ modelsWithInsights (analyze now st snap).1 →
  entry_models oldest !! modelId (quota r) = Some p0 →
  let elapsed := timestamp snap - entry_timestamp oldest in
  (0 < elapsed →
   let hours := Js.div (inject_Z elapsed) 3600000 in
   burnRate (insights r)
   = Js.Math_max 0 (Js.div (Js.sub p0 (remainingPercent (quota r))) hours)
   ∧ ∀ a b : Z,
       (p0 == inject_Z a)%Q → (remainingPercent (quota r) == inject_Z b)%Q →
       b < a → a - b < 2 ^ 53 → elapsed < 2 ^ 53 →
       let exactRate := (inject_Z (a - b) / (inject_Z elapsed / 3600000))%Q in
       (Qabs (burnRate (insights r) - exactRate) <= 2 ^ (-51) * exactRate)%Q)
  ∧ (elapsed <= 0 → burnRate (insights r) = 0%Q).
Proof.
  intros Hhist Hlen Hnd Hr Hp0 elapsed.
  destruct (analyzed_resources now st snap) as (Hperm & Hq & Hb & _). cbn zeta in *.
  rewrite Hperm in Hr. rewrite (Hb r Hr).
  assert (Hin : quota r ∈ models snap).
  { rewrite <- Hq. apply list_elem_of_fmap. eauto. }
  pose proof (entryOf_lookup snap (quota r) Hnd Hin) as Hnew.
  set (st2 := initSessionStart (recordSnapshot st snap) snap).
  assert (Hh2 : history st2 = (oldest :: rest ++ [entryOf snap])%list).
  { subst st2. cbn [initSessionStart history]. unfold recordSnapshot. cbn [history].
    rewrite Hhist in *. unfold MAX_HISTORY.
    destruct (Nat.ltb_spec 20 (List.length ((oldest :: rest) ++ [entryOf snap])))
      as [Hgt | _]; [| reflexivity].
    rewrite length_app in Hgt. cbn in Hgt, Hlen. lia. }
  assert (Hlast : last (history st2) = Some (entryOf snap)).
  { rewrite Hh2.
    change (oldest :: rest ++ [entryOf snap])%list
      with ((oldest :: rest) ++ [entryOf snap])%list. apply last_snoc. }
  assert (Hhead : head (history st2) = Some oldest) by now rewrite Hh2.
  assert (Hlong : (2 ≤ List.length (history st2))%nat).
  { rewrite Hh2. cbn. rewrite length_app. cbn. lia. }
  destruct (calculateBurnRate_parts st2 (modelId (quota r)) oldest (entryOf snap)
              p0 (remainingPercent (quota r)) Hlong Hhead Hlast Hp0 Hnew)
    as (Hzero & Hrate & Hbound).
  change (entry_timestamp (entryOf snap)) with (timestamp snap) in *.
  fold elapsed in Hzero, Hrate, Hbound.
  split; [| exact Hzero].
  intros Hpos. split; [exact (Hrate Hpos) |].
  intros a b Ha Hb' Hab Hdiff Hms. exact (Hbound Hpos a b Ha Hb' Hab Hdiff Hms).
Qed.

End BurnRate.

(** ** Analytics engine: the session baseline and the session usage *)

Section Baseline.
Import InsightsService.

Lemma baseline_keep (ms : list ModelQuota) :
  ∀ (acc : gmap string Q) (id : string) (v : Q),
    acc !! id = Some v → foldl Spec.baselineStep acc ms !! id = Some v.
Proof.
  induction ms as [| m ms IH]; intros acc id v Hv; cbn [foldl]; [exact Hv |].
  apply IH. unfold Spec.baselineStep. destruct (acc !! modelId m) eqn:E; [exact Hv |].
  rewrite lookup_insert_ne; [exact Hv | congruence].
Qed.

Lemma baseline_absent (ms : list ModelQuota) :
  ∀ (acc : gmap string Q) (id : string),
    acc !! id = None → (∀ m, m ∈ ms → modelId m ≠ id) →
    foldl Spec.baselineStep acc ms !! id = None.
Proof.
  induction ms as [| m ms IH]; intros acc id Hv Hno; cbn [foldl]; [exact Hv |].
  apply IH.
  - unfold Spec.baselineStep. destruct (acc !! modelId m) eqn:E; [exact Hv |].
    rewrite lookup_insert_ne; [exact Hv |]. apply Hno. now left.
  - intros m' Hm'. apply Hno. now right.
Qed.

Lemma baseline_first (pre : list ModelQuota) (m : ModelQuota) (post : list ModelQuota)
    (acc : gmap string Q) :
  acc !! modelId m = None → (∀ m', m' ∈ pre → modelId m' ≠ modelId m) →
  foldl Spec.baselineStep acc (pre ++ m :: post) !! modelId m = Some (remainingPercent m).
Proof.
  intros Hv Hno. rewrite foldl_app. cbn [foldl]. apply baseline_keep.
  unfold Spec.baselineStep at 1. rewrite (baseline_absent pre acc (modelId m) Hv Hno).
  apply lookup_insert_eq.
Qed.

Lemma baseline_covers (ms : list ModelQuota) :
  ∀ (acc : gmap string Q) (m : ModelQuota),
    m ∈ ms → is_Some (foldl Spec.baselineStep acc ms !! modelId m).
Proof.
  induction ms as [| m0 ms IH]; intros acc m Hm; [inversion Hm |].
  cbn [foldl]. apply elem_of_cons in Hm as [-> | Hm]; [| now apply IH].
  unfold Spec.baselineStep at 2. destruct (acc !! modelId m0) eqn:E.
  - exists q. now apply baseline_keep.
  - exists (remainingPercent m0). apply baseline_keep. apply lookup_insert_eq.
Qed.

Lemma baseline_origin (ms : list ModelQuota) :
  ∀ (acc : gmap string Q) (id : string) (v : Q),
    foldl Spec.baselineStep acc ms !! id = Some v →
    acc !! id = Some v ∨ ∃ m, m ∈ ms ∧ modelId m = id ∧ remainingPercent m = v.
Proof.
  induction ms as [| m ms IH]; intros acc id v Hv; cbn [foldl] in Hv; [now left |].
  apply IH in Hv as [Hv | (m' & Hm' & Hid & Hrp)].
  - unfold Spec.baselineStep in Hv. destruct (acc !! modelId m) eqn:E; [now left |].
    destruct (decide (modelId m = id)) as [Heq | Hne].
    + rewrite Heq, lookup_insert_eq in Hv. right. exists m.
      split; [now left |]. split; [exact Heq | congruence].
    + rewrite lookup_insert_ne in Hv by exact Hne. now left.
  - right. exists m'. split; [now right | auto].
Qed.

Lemma analyze_baseline (now : nat → Z) (st : State) (snap : QuotaSnapshot) :
  sessionStartQuotas (analyze now st snap).2
  = foldl Spec.baselineStep (sessionStartQuotas st) (models snap).
Proof.
  rewrite analyze_state.
  destruct (analyzeModels_baseline now snap (models snap) 0%nat
              (initSessionStart (recordSnapshot st snap) snap)) as (-> & _).
  reflexivity.
Qed.

(** Property X5. The session baseline. [analyze] keeps the percentage
    recorded for an id; for an id without a record it records the percentage
    of the first resource of the snapshot with that id; it records nothing
    for an id without a record that is not in the snapshot; and it leaves
    the session start unchanged, which is the session start time it
    reports. *)
Theorem session_baseline (now : nat → Z) (st : State) (snap : QuotaSnapshot) :
  let before := sessionStartQuotas st in
  let after := sessionStartQuotas (analyze now st snap).2 in
  (∀ id v, before !! id = Some v → after !! id = Some v)
  ∧ (∀ pre m post,
       models snap = (pre ++ m :: post)%list →
       before !! modelId m = None →
       (∀ m', m' ∈ pre → modelId m' ≠ modelId m) →
       after !! modelId m = Some (remainingPercent m))
  ∧ (∀ id, before !! id = None → (∀ m, m ∈ models snap → modelId m ≠ id) →
       after !! id = None)
  ∧ sessionStart (analyze now st snap).2 = sessionStart st
  ∧ sessionStartTime (analyze now st snap).1 = sessionStart st.
Proof.
  intros before after. subst after. rewrite analyze_baseline. fold before.
  split; [intros id v; apply baseline_keep |].
  split; [intros pre m post ->; apply baseline_first |].
  split; [intros id; apply baseline_absent |].
  assert (Hs : sessionStart (analyze now st snap).2 = sessionStart st).
  { rewrite analyze_state.
    destruct (analyzeModels_baseline now snap (models snap) 0%nat
                (initSessionStart (recordSnapshot st snap) snap)) as (_ & -> & _).
    reflexivity. }
  split; [exact Hs |]. rewrite <- Hs. unfold analyze.
  destruct (analyzeModels now 0 _ snap (models snap)) as [analyzed st3].
  destruct (calculateOverallHealth _). reflexivity.
Qed.

Lemma analyze_sessionUsage (now : nat → Z) (st : State) (snap : QuotaSnapshot)
    (r : ModelWithInsights) :
  r ∈ modelsWithInsights (analyze now st snap).1 →
  quota r ∈ models snap
  ∧ ∃ base,
      sessionStartQuotas (analyze now st snap).2 !! modelId (quota r) = Some base
      ∧ sessionUsage (insights r) = Js.Math_max 0 (base - remainingPercent (quota r)).
Proof.
  intros Hr. destruct (analyzed_resources now st snap) as (Hperm & Hq & _).
  cbn zeta in *. rewrite Hperm in Hr.
  set (st2 := initSessionStart (recordSnapshot st snap) snap) in *.
  assert (Hin : quota r ∈ models snap).
  { rewrite <- Hq. apply list_elem_of_fmap. eauto. }
  split; [exact Hin |].
  destruct (analyzeModels_baseline now snap (models snap) 0%nat st2) as (_ & _ & Hu).
  rewrite (Hu r Hr), analyze_baseline. unfold calculateSessionUsage.
  change (sessionStartQuotas st2)
    with (foldl Spec.baselineStep (sessionStartQuotas st) (models snap)).
  destruct (baseline_covers (models snap) (sessionStartQuotas st) (quota r) Hin)
    as [base Hbase].
  rewrite Hbase. eauto.
Qed.

Lemma foldl_usage_shift (f : ModelWithInsights → Q) (rs : list ModelWithInsights) :
  ∀ a : Q, (foldl (λ sum m, sum + f m) a rs == a + foldl (λ sum m, sum + f m) 0 rs)%Q.
Proof.
  induction rs as [| r rs IH]; intros a; cbn [foldl]; [ring |].
  rewrite (IH (a + f r)%Q), (IH (0 + f r)%Q). ring.
Qed.

Lemma foldl_usage_range (f : ModelWithInsights → Q) (lo hi : Q)
    (rs : list ModelWithInsights) :
  (∀ r, r ∈ rs → (lo <= f r <= hi)%Q) →
  (lo * inject_Z (Z.of_nat (List.length rs))
   <= foldl (λ sum m, sum + f m) 0 rs
   <= hi * inject_Z (Z.of_nat (List.length rs)))%Q.
Proof.
  induction rs as [| r rs IH]; intros Hall.
  - cbn [foldl List.length]. change (inject_Z (Z.of_nat 0)) with 0%Q. lra.
  - cbn [foldl List.length]. rewrite Nat2Z.inj_succ. unfold Z.succ.
    rewrite inject_Z_plus. change (inject_Z 1) with 1%Q.
    rewrite foldl_usage_shift.
    pose proof (Hall r ltac:(now left)).
    assert (IH' := IH ltac:(intros r' Hr'; apply Hall; now right)).
    lra.
Qed.

Lemma mean_range (lo hi s n : Q) :
  (0 < n)%Q → (lo * n <= s <= hi * n)%Q → (lo <= s / n <= hi)%Q.
Proof.
  intros Hn [Hlo Hhi]. split.
  - apply Qle_shift_div_l; [exact Hn | lra].
  - apply Qle_shift_div_r; [exact Hn | lra].
Qed.

Lemma analyze_totalSessionUsage (now : nat → Z) (st : State) (snap : QuotaSnapshot) :
  let out := modelsWithInsights (analyze now st snap).1 in
  totalSessionUsage (analyze now st snap).1
  = Js.Math_round
      match out with
      | [] => 0%Q
      | _ => (foldl (λ sum m, sum + sessionUsage (insights m)) 0 out
              / inject_Z (Z.of_nat (List.length out)))%Q
      end.
Proof.
  unfold analyze.
  destruct (analyzeModels now 0 _ snap (models snap)) as [analyzed st3].
  destruct (calculateOverallHealth _). reflexivity.
Qed.

Lemma totalSessionUsage_range (now : nat → Z) (st : State) (snap : QuotaSnapshot) (hi : Z) :
  0 <= hi →
  (∀ r, r ∈ modelsWithInsights (analyze now st snap).1 →
     (0 <= sessionUsage (insights r) <= inject_Z hi)%Q) →
  0 <= totalSessionUsage (analyze now st snap).1 <= hi.
Proof.
  intros Hhi Hall. rewrite analyze_totalSessionUsage. cbn zeta.
  apply Math_round_range.
  destruct (modelsWithInsights (analyze now st snap).1) as [| r rs] eqn:E.
  - change (inject_Z 0) with 0%Q. split; [lra |].
    change 0%Q with (inject_Z 0). now rewrite <- Zle_Qle.
  - rewrite <- E in *. apply mean_range.
    + change 0%Q with (inject_Z 0). rewrite <- Zlt_Qlt. rewrite E. cbn. lia.
    + apply foldl_usage_range. exact Hall.
Qed.

(** Property X6. The session usage of every analysed resource is the greater
    of 0 and its baseline minus its remaining percentage, so it is never
    negative; it is 0 for a resource whose id had no baseline before the
    call when every resource of the snapshot with that id has its
    percentage; the total session usage is never negative. *)
Theorem session_usage_spec (now : nat → Z) (st : State) (snap : QuotaSnapshot) :
  let out := analyze now st snap in
  (∀ r, r ∈ modelsWithInsights out.1 →
     ∃ base,
       sessionStartQuotas out.2 !! modelId (quota r) = Some base
       ∧ (sessionUsage (insights r) == Qmax 0 (base - remainingPercent (quota r)))%Q
       ∧ (0 <= sessionUsage (insights r))%Q)
  ∧ (∀ r, r ∈ modelsWithInsights out.1 →
       sessionStartQuotas st !! modelId (quota r) = None →
       (∀ m, m ∈ models snap → modelId m = modelId (quota r) →
             remainingPercent m = remainingPercent (quota r)) →
       (sessionUsage (insights r) == 0)%Q)
  ∧ 0 <= totalSessionUsage out.1.
Proof.
  intros out. subst out.
  assert (Hpos : ∀ r, r ∈ modelsWithInsights (analyze now st snap).1 →
                  (0 <= sessionUsage (insights r))%Q).
  { intros r Hr. apply analyze_sessionUsage in Hr as (_ & base & _ & ->).
    destruct (Math_max_cases 0 (base - remainingPercent (quota r)))
      as [[Hle ->] | [Hlt ->]]; lra. }
  split; [| split].
  - intros r Hr. pose proof (Hpos r Hr) as Hp.
    apply analyze_sessionUsage in Hr as (_ & base & Hb & Hu).
    exists base. split; [exact Hb |]. split; [| exact Hp].
    rewrite Hu. apply Math_max_Qmax.
  - intros r Hr Hnew Hsame.
    apply analyze_sessionUsage in Hr as (Hin & base & Hb & ->).
    rewrite analyze_baseline in Hb.
    apply baseline_origin in Hb as [Hb | (m & Hm & Hid & Hrp)]; [congruence |].
    rewrite <- Hrp, (Hsame m Hm Hid).
    destruct (Math_max_cases 0 (remainingPercent (quota r) - remainingPercent (quota r)))
      as [[Hle ->] | [Hlt ->]]; lra.
  - assert (Hmax : ∃ hi : Z, ∀ r, r ∈ modelsWithInsights (analyze now st snap).1 →
                     (sessionUsage (insights r) <= inject_Z hi)%Q).
    { induction (modelsWithInsights (analyze now st snap).1) as [| r rs IH].
      - exists 0. intros r Hr. inversion Hr.
      - destruct IH as [hi IH]; [intros; apply Hpos; now right |].
        exists (Z.max hi (Qceiling (sessionUsage (insights r)))).
        intros r' [-> | Hr']%elem_of_cons.
        + pose proof (Qle_ceiling (sessionUsage (insights r))) as Hc.
          eapply Qle_trans; [exact Hc |]. rewrite <- Zle_Qle. lia.
        + eapply Qle_trans; [apply IH, Hr' |]. rewrite <- Zle_Qle. lia. }
    destruct Hmax as [hi Hmax].
    apply (totalSessionUsage_range now st snap (Z.max 0 hi)); [lia |].
    intros r Hr. split; [now apply Hpos |].
    eapply Qle_trans; [apply Hmax, Hr |]. rewrite <- Zle_Qle. lia.
Qed.

(** Property X7. When every recorded baseline is at most 100 and every
    remaining percentage of the snapshot lies between 0 and 100, every
    session usage that [analyze] returns lies between 0 and 100, so does the
    total session usage, and the baselines are still at most 100 after the
    call. *)
Theorem session_usage_bounded (now : nat → Z) (st : State) (snap : QuotaSnapshot) :
  (∀ id v, sessionStartQuotas st !! id = Some v → (v <= 100)%Q) →
  (∀ m, m ∈ models snap → (0 <= remainingPercent m <= 100)%Q) →
  (∀ r, r ∈ modelsWithInsights (analyze now st snap).1 →
     (0 <= sessionUsage (insights r) <= 100)%Q)
  ∧ 0 <= totalSessionUsage (analyze now st snap).1 <= 100
  ∧ (∀ id v, sessionStartQuotas (analyze now st snap).2 !! id = Some v → (v <= 100)%Q).
Proof.
  intros Hbase Hrange.
  assert (Hafter : ∀ id v, sessionStartQuotas (analyze now st snap).2 !! id = Some v →
                     (v <= 100)%Q).
  { intros id v Hv. rewrite analyze_baseline in Hv.
    apply baseline_origin in Hv as [Hv | (m & Hm & _ & <-)]; [eauto |].
    now apply Hrange. }
  assert (Hall : ∀ r, r ∈ modelsWithInsights (analyze now st snap).1 →
                  (0 <= sessionUsage (insights r) <= inject_Z 100)%Q).
  { intros r Hr. apply analyze_sessionUsage in Hr as (Hin & base & Hb & ->).
    apply Hafter in Hb. apply Hrange in Hin.
    change (inject_Z 100) with 100%Q.
    destruct (Math_max_cases 0 (base - remainingPercent (quota r)))
      as [[Hle ->] | [Hlt ->]]; lra. }
  split; [exact Hall |]. split; [| exact Hafter].
  apply totalSessionUsage_range; [lia | exact Hall].
Qed.

End Baseline.

(** ** Analytics engine: the overall health and the trend *)

Section Health.
Import InsightsService.

Lemma health_fold_range (lo hi : Q) (rs : list ModelWithInsights) :
  (∀ r, r ∈ rs → (lo <= remainingPercent (quota r) <= hi)%Q) →
  ∀ tw ws : Q,
    (0 <= tw)%Q → (lo * tw <= ws <= hi * tw)%Q →
    let out := foldl Spec.healthStep (tw, ws) rs in
    (tw + inject_Z (Z.of_nat (List.length rs)) <= out.1)%Q
    ∧ (lo * out.1 <= out.2 <= hi * out.1)%Q.
Proof.
  induction rs as [| r rs IH]; intros Hall tw ws Htw Hws.
  - cbn [foldl List.length fst snd]. change (inject_Z (Z.of_nat 0)) with 0%Q.
    split; [lra | exact Hws].
  - cbn [foldl]. unfold Spec.healthStep at 2. cbn beta iota zeta.
    pose proof (Hall r ltac:(now left)) as Hr.
    set (w := if isActive (insights r) then 3%Q else 1%Q).
    assert (Hw : (1 <= w)%Q) by (subst w; destruct (isActive (insights r)); lra).
    specialize (IH ltac:(intros r' Hr'; apply Hall; now right)
                   (tw + w)%Q (ws + remainingPercent (quota r) * w)%Q
                   ltac:(lra) ltac:(nra)).
    cbn zeta in IH. destruct IH as [IH1 IH2].
    split; [| exact IH2].
    cbn [List.length]. rewrite Nat2Z.inj_succ. unfold Z.succ.
    rewrite inject_Z_plus. change (inject_Z 1) with 1%Q. lra.
Qed.

Lemma analyze_health (now : nat → Z) (st : State) (snap : QuotaSnapshot) :
  (overallHealth (analyze now st snap).1, healthLabel (analyze now st snap).1)
  = calculateOverallHealth (modelsWithInsights (analyze now st snap).1).
Proof.
  unfold analyze.
  destruct (analyzeModels now 0 _ snap (models snap)) as [analyzed st3].
  destruct (calculateOverallHealth _) as [h l] eqn:E. cbn [fst modelsWithInsights
    overallHealth healthLabel]. now rewrite E.
Qed.

Lemma calculateOverallHealth_range (lo hi : Z) (rs : list ModelWithInsights) :
  rs ≠ [] →
  (∀ r, r ∈ rs → (inject_Z lo <= remainingPercent (quota r) <= inject_Z hi)%Q) →
  lo <= (calculateOverallHealth rs).1 <= hi.
Proof.
  intros Hne Hall. unfold calculateOverallHealth.
  destruct rs as [| r0 rs0] eqn:E; [congruence |]. rewrite <- E in *.
  pose proof (health_fold_range (inject_Z lo) (inject_Z hi) rs Hall 0 0
                ltac:(lra) ltac:(lra)) as Hf.
  cbn zeta in Hf.
  match goal with
  | |- context [foldl ?f (0%Q, 0%Q) rs] =>
      change (foldl f (0%Q, 0%Q) rs) with (foldl Spec.healthStep (0%Q, 0%Q) rs)
  end.
  destruct (foldl Spec.healthStep (0%Q, 0%Q) rs) as [tw ws].
  cbn [fst snd] in *. destruct Hf as [Htw Hws].
  apply Math_round_range, mean_range; [| exact Hws].
  assert (0 < inject_Z (Z.of_nat (List.length rs)))%Q; [| lra].
  change 0%Q with (inject_Z 0). rewrite <- Zlt_Qlt. rewrite E. cbn. lia.
Qed.

Lemma calculateOverallHealth_label (rs : list ModelWithInsights) :
  rs ≠ [] →
  (calculateOverallHealth rs).2
  = let h := (calculateOverallHealth rs).1 in
    if 75 <=? h then "Excellent"
    else if 50 <=? h then "Good"
    else if 25 <=? h then "Low"
    else "Critical".
Proof.
  intros Hne. unfold calculateOverallHealth.
  destruct rs as [| r0 rs0]; [congruence |].
  destruct (foldl _ _ _) as [tw ws]. reflexivity.
Qed.

(** Property X8. The overall health of a snapshot without resources is 100
    with the label "Unknown". Otherwise the label is "Excellent" from 75,
    "Good" from 50, "Low" from 25 and "Critical" below, and the overall
    health lies between any two integers between which all the remaining
    percentages of the snapshot lie. *)
Theorem overall_health_range (now : nat → Z) (st : State) (snap : QuotaSnapshot) :
  let out := (analyze now st snap).1 in
  (models snap = [] → overallHealth out = 100 ∧ healthLabel out = "Unknown")
  ∧ (models snap ≠ [] →
     healthLabel out
     = (if 75 <=? overallHealth out then "Excellent"
        else if 50 <=? overallHealth out then "Good"
        else if 25 <=? overallHealth out then "Low"
        else "Critical")
     ∧ ∀ lo hi : Z,
         (∀ m, m ∈ models snap →
               (inject_Z lo <= remainingPercent m <= inject_Z hi)%Q) →
         lo <= overallHealth out <= hi).
Proof.
  intros out. subst out. split.
  { intros Hnil. unfold analyze, initSessionStart. rewrite Hnil. cbn. split; reflexivity. }
  intros Hne.
  pose proof (analyze_health now st snap) as Hh.
  destruct (analyzed_resources now st snap) as (Hperm & Hq & _). cbn zeta in *.
  set (rs := modelsWithInsights (analyze now st snap).1) in *.
  assert (Hrs : rs ≠ []).
  { intros Hnil. rewrite Hnil in Hperm. symmetry in Hperm.
    apply Permutation_nil_r in Hperm. rewrite Hperm in Hq. cbn in Hq. congruence. }
  pose proof (calculateOverallHealth_label rs Hrs) as Hl. cbn zeta in Hl.
  rewrite <- Hh in Hl. cbn [fst snd] in Hl.
  split; [exact Hl |]. intros lo hi Hall.
  assert (Hrange : ∀ r, r ∈ rs →
            (inject_Z lo <= remainingPercent (quota r) <= inject_Z hi)%Q).
  { intros r Hr. apply Hall. rewrite <- Hq. apply list_elem_of_fmap.
    exists r. split; [reflexivity |]. now rewrite <- Hperm. }
  pose proof (calculateOverallHealth_range lo hi rs Hrs Hrange) as Hb.
  now rewrite <- Hh in Hb.
Qed.

(** Property X9. The trend never gets less alarming when less quota remains
    or the burn rate is higher: with the trends ranked stable, decreasing,
    warning, critical, a remaining percentage that is not higher and a burn
    rate that is not lower give a trend that is not lower. *)
Theorem trend_monotone (p1 b1 p2 b2 : Q) :
  (p1 <= p2)%Q → (b2 <= b1)%Q →
  (Spec.severity (getTrendDirection p2 b2) ≤ Spec.severity (getTrendDirection p1 b1))%nat.
Proof.
  intros Hp Hb. unfold getTrendDirection.
  repeat match goal with
    | |- context [Js.leb ?a ?b] =>
        let E := fresh "E" in destruct (Js.leb a b) eqn:E
    | |- context [Js.ltb ?a ?b] =>
        let E := fresh "E" in destruct (Js.ltb a b) eqn:E
    end;
  cbn [orb Spec.severity]; try lia;
  repeat match goal with
    | H : Js.leb ?a ?b = false |- _ =>
        assert (¬ (a <= b)%Q) by (intros Hc; apply Js_leb_spec in Hc; congruence);
        clear H
    end;
  js_compare; exfalso; lra.
Qed.

End Health.

(** ** Quota client: polls, snapshots and credits *)

Section Client.
Import QuotaService.
Context `{Host}.

(** The readings of the clock that the callback takes. *)
Lemma parseModel_readings (clock : nat → Z) (k : nat) (m : RawModelConfig) (qi : QuotaInfo) :
  let q := (parseModel clock k m qi).1 in
  let j := (parseModel clock k m qi).2 in
  (S k ≤ j ≤ S (S k))%nat
  ∧ timeUntilReset q = (λ t, t - clock (j - 1)%nat) <$> resetTime q
  ∧ timeUntilResetFormatted q = formatTime_number (timeUntilReset q)
  ∧ (raw_resetTime qi = None ∨ raw_resetTime qi = Some EmptyString →
     j = S (S k) ∧ resetTime q = Some (clock k))
  ∧ (∀ s, raw_resetTime qi = Some s → s ≠ EmptyString →
          j = S k ∧ resetTime q = Date_of_string s).
Proof.
  unfold parseModel. destruct (raw_resetTime qi) as [[| c s] |]; cbn;
    rewrite ?Nat.sub_0_r.
  - split; [lia |]. split; [reflexivity |]. split; [reflexivity |].
    split; [intros _; split; reflexivity | intros s [= <-] Hs; congruence].
  - split; [lia |]. split; [reflexivity |]. split; [reflexivity |].
    split; [intros [[=] | [=]] |]. intros s' [= <-] _. split; reflexivity.
  - split; [lia |]. split; [reflexivity |]. split; [reflexivity |].
    split; [intros _; split; reflexivity | intros s [=]].
Qed.

Lemma parseModels_labels (clock : nat → Z) (raw : list RawModelConfig) (k : nat) :
  map label (parseModels clock k raw).1
  = map raw_label (filter (λ m, is_Some (quotaInfo m)) raw).
Proof.
  pose proof (parseModels_entries clock raw k) as Hall.
  induction Hall as [| r m rs ms (qi & j & _ & ->) _ IH]; [reflexivity |].
  cbn [map]. f_equal; [| exact IH].
  now pose proof (parseModel_fields clock j m qi) as (Hl & _).
Qed.

(** Every resource comes from a raw entry with quota info, parsed after
    the readings that the call starts with and before those it ends
    with. *)
Lemma parseModels_origin (clock : nat → Z) (raw : list RawModelConfig) :
  ∀ (k : nat) (q : ModelQuota),
    q ∈ (parseModels clock k raw).1 →
    ∃ (m : RawModelConfig) (qi : QuotaInfo) (j : nat),
      m ∈ raw ∧ quotaInfo m = Some qi ∧ q = (parseModel clock j m qi).1
      ∧ (k ≤ j)%nat ∧ ((parseModel clock j m qi).2 ≤ (parseModels clock k raw).2)%nat.
Proof.
  assert (Hmono : ∀ raw' k', (k' ≤ (parseModels clock k' raw').2)%nat).
  { induction raw' as [| m raw' IH]; intros k'; cbn [parseModels]; [cbn; lia |].
    destruct (quotaInfo m) as [qi |]; [| apply IH].
    pose proof (parseModel_readings clock k' m qi) as ([Hlo _] & _). cbn zeta in Hlo.
    destruct (parseModel clock k' m qi) as [r k1]. specialize (IH k1).
    destruct (parseModels clock k1 raw') as [rs k2]. cbn [snd] in *. lia. }
  induction raw as [| m raw IH]; intros k q; cbn [parseModels].
  - intros Hq. inversion Hq.
  - destruct (quotaInfo m) as [qi |] eqn:Hqi.
    + pose proof (parseModel_readings clock k m qi) as ([Hlo _] & _). cbn zeta in Hlo.
      destruct (parseModel clock k m qi) as [r k1] eqn:E.
      specialize (IH k1 q). pose proof (Hmono raw k1) as Hk1.
      destruct (parseModels clock k1 raw) as [rs k2]. cbn [fst snd] in *.
      intros [-> | Hq]%elem_of_cons.
      * exists m, qi, k. rewrite E. cbn [fst snd].
        split; [now left |]. split; [exact Hqi |]. split; [reflexivity |]. lia.
      * destruct (IH Hq) as (m' & qi' & j & Hm' & Hqi' & -> & Hj & Hend).
        exists m', qi', j. split; [now right |]. split; [exact Hqi' |].
        split; [reflexivity |]. lia.
    + intros Hq. destruct (IH k q Hq) as (m' & qi' & j & Hm' & Hrest).
      exists m', qi', j. split; [now right | exact Hrest].
Qed.

(** The readings that the resources take: one or two each. *)
Lemma parseModels_readings (clock : nat → Z) (raw : list RawModelConfig) :
  ∀ k : nat,
    (k + List.length (parseModels clock k raw).1 ≤ (parseModels clock k raw).2
     ≤ k + 2 * List.length (parseModels clock k raw).1)%nat.
Proof.
  induction raw as [| m raw IH]; intros k; cbn [parseModels]; [cbn; lia |].
  destruct (quotaInfo m) as [qi |]; [| apply IH].
  pose proof (parseModel_readings clock k m qi) as (Hk1 & _). cbn zeta in Hk1.
  destruct (parseModel clock k m qi) as [r k1]. specialize (IH k1).
  destruct (parseModels clock k1 raw) as [rs k2]. cbn [fst snd List.length] in *. lia.
Qed.

(** Property X10. [poll] resolves exactly when the client is configured, the
    request resolves and the response has a [userStatus], and it resolves
    with the resources parsed from the response; the client then retains a
    snapshot with these resources and the time of the poll, which is the
    reading of the clock that follows those of the resources, and keeps its
    connection. A client that is not configured fails with "QuotaService not
    configured" whatever the request would give, and a configured client
    passes on the error of a rejected request. *)
Theorem poll_outcome (st : State) (res : RequestResult) (clock : nat → Z) :
  (∀ ms : list ModelQuota,
     (poll st res clock).1 = inr ms ↔
     isConfigured st = true
     ∧ ∃ response us,
         res = Resolved response ∧ userStatus response = Some us
         ∧ ms = (parseModels clock 0
                   (default [] (cascadeModelConfigData us ≫= clientModelConfigs))).1)
  ∧ (∀ ms : list ModelQuota,
       (poll st res clock).1 = inr ms →
       ∃ (snap : QuotaSnapshot) (k : nat),
         getSnapshot (poll st res clock).2 = Some snap
         ∧ models snap = ms ∧ timestamp snap = clock k
         ∧ (List.length ms ≤ k ≤ 2 * List.length ms)%nat
         ∧ port (poll st res clock).2 = port st
         ∧ QuotaService.csrfToken (poll st res clock).2 = QuotaService.csrfToken st
         ∧ isConfigured (poll st res clock).2 = true)
  ∧ (isConfigured st = false →
       (poll st res clock).1 = inl (Js.GenericError "QuotaService not configured"))
  ∧ (∀ e, isConfigured st = true → res = Rejected e → (poll st res clock).1 = inl e).
Proof.
  split; [| split; [| split]].
  - intros ms. unfold poll. destruct (isConfigured st) eqn:Hc; cbn [negb].
    + destruct res as [e | response].
      * cbn. split; [discriminate |]. intros (_ & r & us & [=] & _).
      * destruct response as [[us |]].
        -- destruct (parseResponse_snapshot clock us) as (snap & -> & Hms & _).
           cbn. rewrite Hms. split.
           ++ intros [= <-]. split; [reflexivity |]. eexists _, us. auto.
           ++ intros (_ & r & us' & [= <-] & [= <-] & ->). reflexivity.
        -- cbn. split; [discriminate |].
           intros (_ & r & us' & [= <-] & [=] & _).
    + cbn. split; [discriminate |]. intros [[=] _].
  - intros ms. unfold poll. destruct (isConfigured st) eqn:Hc; cbn [negb];
      [| discriminate].
    destruct res as [e | response]; [discriminate |].
    destruct (parseResponse clock response) as [e | snap] eqn:Hp; [discriminate |].
    cbn. intros [= <-].
    destruct (parseResponse_inr _ _ _ Hp) as [us ->].
    destruct (parseResponse_snapshot clock us) as (snap' & Hsnap & Hms & Hts).
    rewrite Hp in Hsnap. injection Hsnap as <-.
    exists snap, (parseModels clock 0
                    (default [] (cascadeModelConfigData us ≫= clientModelConfigs))).2.
    split; [reflexivity |]. split; [reflexivity |]. split; [exact Hts |].
    split.
    { rewrite Hms. apply (parseModels_readings clock _ 0). }
    split; [reflexivity |]. split; [reflexivity |]. exact Hc.
  - intros Hc. unfold poll. now rewrite Hc.
  - intros e Hc ->. unfold poll. now rewrite Hc.
Qed.

(** Property X11. The snapshot of a response has one resource for each raw
    entry with quota information, in the order of the response and with its
    label, and its timestamp is a reading of the clock that follows those of
    the resources. For each resource the time until reset is the reset time
    minus a reading of the clock of its own, taken before that of the
    timestamp, and the formatted time is its rendering: "NaNd" for an
    invalid reset time, "Ready" for one that is not after that reading. A
    raw entry without a reset time, or with an empty one, gives as reset
    time the reading that precedes this one, and "Ready" when the clock has
    not gone back in between; any other text is handed to [Date]. *)
Theorem parseResponse_resources (clock : nat → Z) (data : ServerUserStatusResponse)
    (snap : QuotaSnapshot) :
  parseResponse clock data = inr snap →
  let raw :=
    default [] ((userStatus data ≫= cascadeModelConfigData) ≫= clientModelConfigs) in
  ∃ k : nat,
    timestamp snap = clock k
    ∧ (List.length (models snap) ≤ k ≤ 2 * List.length (models snap))%nat
    ∧ map label (models snap) = map raw_label (filter (λ m, is_Some (quotaInfo m)) raw)
    ∧ (List.length (models snap) ≤ List.length raw)%nat
    ∧ ∀ q, q ∈ models snap →
        ∃ j : nat,
          (j < k)%nat
          ∧ timeUntilReset q = (λ t, t - clock j) <$> resetTime q
          ∧ timeUntilResetFormatted q = formatTime_number (timeUntilReset q)
          ∧ (resetTime q = None → timeUntilResetFormatted q = "NaNd")
          ∧ (∀ t, resetTime q = Some t → t <= clock j →
                  timeUntilResetFormatted q = "Ready")
          ∧ ∃ m qi, m ∈ raw ∧ quotaInfo m = Some qi
              ∧ label q = raw_label m
              ∧ (raw_resetTime qi = None ∨ raw_resetTime qi = Some EmptyString →
                 (0 < j)%nat
                 ∧ resetTime q = Some (clock (j - 1)%nat)
                 ∧ timeUntilReset q = Some (clock (j - 1)%nat - clock j)
                 ∧ (clock (j - 1)%nat <= clock j → timeUntilResetFormatted q = "Ready"))
              ∧ (∀ s, raw_resetTime qi = Some s → s ≠ EmptyString →
                      resetTime q = Date_of_string s).
Proof.
  intros Hparse. destruct (parseResponse_inr _ _ _ Hparse) as [us ->].
  destruct (parseResponse_snapshot clock us) as (snap' & Hsnap & Hms & Hts).
  rewrite Hparse in Hsnap. injection Hsnap as <-. cbn [userStatus mbind option_bind].
  set (raw := default [] (cascadeModelConfigData us ≫= clientModelConfigs)) in *.
  cbn zeta. exists (parseModels clock 0 raw).2.
  split; [exact Hts |]. split.
  { rewrite Hms. apply (parseModels_readings clock raw 0). }
  split; [rewrite Hms; apply parseModels_labels |].
  split.
  { rewrite <- (length_map label), Hms, parseModels_labels, length_map.
    apply length_filter. }
  intros q Hq. rewrite Hms in Hq.
  apply parseModels_origin in Hq as (m & qi & j0 & Hm & Hqi & -> & _ & Hend).
  pose proof (parseModel_readings clock j0 m qi) as (Hj & Hdiff & Hfmt & Hnone & Htext).
  pose proof (parseModel_fields clock j0 m qi) as (Hl & _).
  cbn zeta in *.
  set (q := (parseModel clock j0 m qi).1) in *.
  set (j := (parseModel clock j0 m qi).2) in *.
  assert (Hready : ∀ t, resetTime q = Some t → t <= clock (j - 1)%nat →
            timeUntilResetFormatted q = "Ready").
  { intros t Ht Hle. rewrite Hfmt, Hdiff, Ht. cbn. unfold formatTime.
    destruct (Z.leb_spec (t - clock (j - 1)%nat) 0); [reflexivity | lia]. }
  exists (j - 1)%nat. split; [lia |]. split; [exact Hdiff |]. split; [exact Hfmt |].
  split.
  { intros Hn. rewrite Hfmt, Hdiff, Hn. reflexivity. }
  split; [exact Hready |].
  exists m, qi. split; [exact Hm |]. split; [exact Hqi |]. split; [exact Hl |].
  split.
  - intros Hmissing. destruct (Hnone Hmissing) as [Hjj Hreset].
    replace (j - 1 - 1)%nat with j0 by lia.
    split; [lia |]. split; [exact Hreset |].
    split; [now rewrite Hdiff, Hreset |].
    intros Hle. now apply (Hready (clock j0)).
  - intros s Hs Hne. now destruct (Htext s Hs Hne).
Qed.

(** The double quotient of two numbers that are not negative, the divisor
    being positive. *)
Lemma div_error (x y : Q) :
  (0 <= x)%Q → (0 < y)%Q →
  (0 <= Js.div x y)%Q
  ∧ (Qabs (Js.div x y - x / y) <= 2 ^ (-53) * (x / y) + 2 ^ (-1075))%Q.
Proof.
  intros Hx Hy. assert (Hxy : (0 <= x / y)%Q) by (apply Qle_shift_div_l; lra).
  unfold Js.div. split; [now apply fl_nonneg |].
  pose proof (fl_error (x / y)) as He. now rewrite (Qabs_pos (x / y)) in He.
Qed.

(** The error of a difference, as a share of a figure of 1 or more. *)
Lemma share_error (m a d u eta : Q) :
  (1 <= m)%Q → (0 <= eta)%Q →
  (Qabs (d - (m - a)) <= u * (m - a) + eta)%Q →
  (Qabs (d / m - (1 - a / m)) <= u * (1 - a / m) + eta)%Q.
Proof.
  intros Hm Heta Hd. apply Qabs_Qle_condition in Hd.
  assert (HA : (a / m * m == a)%Q) by (field; lra).
  assert (HD : (d / m * m == d)%Q) by (field; lra).
  set (A := (a / m)%Q) in *. set (D := (d / m)%Q) in *.
  assert (Hprod : (eta <= eta * m)%Q) by nra.
  apply Qabs_Qle_condition. split; apply Qnot_lt_le; intros Hc.
  - assert (Hc' : ((D - (1 - A)) * m < - (u * (1 - A) + eta) * m)%Q).
    { apply Qmult_lt_compat_r; lra. }
    nra.
  - assert (Hc' : ((u * (1 - A) + eta) * m < (D - (1 - A)) * m)%Q).
    { apply Qmult_lt_compat_r; lra. }
    nra.
Qed.

(** The two percentages of a balance between 0 and the monthly figure. *)
Lemma credits_sum (m a : Q) :
  Js.isDouble m → (1 <= m)%Q → (0 <= a <= m)%Q →
  let used := Js.mul (Js.div (Js.sub m a) m) 100 in
  let remaining := Js.mul (Js.div a m) 100 in
  (0 <= used <= 100)%Q ∧ (0 <= remaining <= 100)%Q
  ∧ (Qabs (used + remaining - 100) <= 2 ^ (-44))%Q.
Proof.
  intros Hdouble Hm Ha. cbv zeta.
  assert (Hshare : (a / m * m == a)%Q) by (field; lra).
  assert (HA0 : (0 <= a / m)%Q) by (apply Qle_shift_div_l; lra).
  assert (HA1 : (a / m <= 1)%Q) by (apply Qle_shift_div_r; lra).
  (* the remaining share *)
  destruct (div_error a m ltac:(lra) ltac:(lra)) as [Hx0 Hx].
  assert (Hx1 : (Js.div a m <= 1)%Q).
  { apply (fl_le _ 1); [now apply (isDouble_Z 1) | exact HA1]. }
  destruct (mul_error (Js.div a m) 100 Hx0 ltac:(lra)) as [Hr0 Hr].
  assert (Hr1 : (Js.mul (Js.div a m) 100 <= 100)%Q).
  { apply (fl_le _ 100); [now apply (isDouble_Z 100) | lra]. }
  (* the used share *)
  assert (Hd0 : (0 <= Js.sub m a)%Q) by (apply fl_nonneg; lra).
  assert (Hd1 : (Js.sub m a <= m)%Q) by (apply fl_le; [exact Hdouble | lra]).
  pose proof (fl_error (m - a)) as Hd. rewrite (Qabs_pos (m - a)) in Hd by lra.
  change (Js.fl (m - a)) with (Js.sub m a) in Hd.
  destruct (div_error (Js.sub m a) m Hd0 ltac:(lra)) as [Hy0 Hy].
  assert (HD : (Js.sub m a / m * m == Js.sub m a)%Q) by (field; lra).
  assert (HD0 : (0 <= Js.sub m a / m)%Q) by (apply Qle_shift_div_l; lra).
  assert (HD1 : (Js.sub m a / m <= 1)%Q) by (apply Qle_shift_div_r; lra).
  assert (Hy1 : (Js.div (Js.sub m a) m <= 1)%Q).
  { apply (fl_le _ 1); [now apply (isDouble_Z 1) | exact HD1]. }
  destruct (mul_error (Js.div (Js.sub m a) m) 100 Hy0 ltac:(lra)) as [Hu0 Hu].
  assert (Hu1 : (Js.mul (Js.div (Js.sub m a) m) 100 <= 100)%Q).
  { apply (fl_le _ 100); [now apply (isDouble_Z 100) | lra]. }
  split; [split; assumption |]. split; [split; assumption |].
  apply Qabs_Qle_condition in Hx, Hr, Hd, Hy, Hu.
  assert (Heta : (2 ^ (-1075) <= 1 # 1000000000000000000000)%Q) by (now vm_compute).
  pose proof (pow2_pos (-1075)) as Heta0.
  set (eta := (2 ^ (-1075))%Q) in *.
  change (2 ^ (-53))%Q with (1 # 9007199254740992)%Q in *.
  change (2 ^ (-44))%Q with (1 # 17592186044416)%Q.
  set (A := (a / m)%Q) in *. set (x := Js.div a m) in *.
  set (r := Js.mul x 100) in *.
  set (d := Js.sub m a) in *. set (D := (d / m)%Q) in *.
  set (y := Js.div d m) in *. set (u := Js.mul y 100) in *.
  assert (HDA : (Qabs (D - (1 - A)) <= (1 # 9007199254740992) * (1 - A) + eta)%Q).
  { apply share_error; [exact Hm | lra |]. apply Qabs_Qle_condition. exact Hd. }
  apply Qabs_Qle_condition in HDA.
  apply Qabs_Qle_condition. lra.
Qed.

(** Property X12. When the snapshot of a response has credits, the monthly
    figure is positive. If the available figure is not a number, neither
    percentage is one. Otherwise the two percentages are the double
    quotients of the used and of the available credits by the monthly
    figure, times 100: the remaining percentage is not negative when the
    available figure is not, and not positive when that is not; the used
    percentage is not negative when the available figure does not exceed
    the monthly one, and not positive when it is not below it; and for a
    monthly figure of 1 or more and an available figure between 0 and the
    monthly one both percentages lie between 0 and 100 and add up to 100
    within 2^-44. *)
Theorem credits_percentages (clock : nat → Z) (data : ServerUserStatusResponse)
    (snap : QuotaSnapshot) (c : PromptCredits) :
  parseResponse clock data = inr snap →
  promptCredits snap = Some c →
  ∃ m : Q,
    monthly c = Some m ∧ (0 < m)%Q
    ∧ (available c = None → usedPercentage c = None ∧ remainingPercentage c = None)
    ∧ ∀ a : Q, available c = Some a →
        ∃ used remaining : Q,
          usedPercentage c = Some used ∧ remainingPercentage c = Some remaining
          ∧ used = Js.mul (Js.div (Js.sub m a) m) 100
          ∧ remaining = Js.mul (Js.div a m) 100
          ∧ ((0 <= a)%Q → (0 <= remaining)%Q)
          ∧ ((a <= 0)%Q → (remaining <= 0)%Q)
          ∧ ((a <= m)%Q → (0 <= used)%Q)
          ∧ ((m <= a)%Q → (used <= 0)%Q)
          ∧ (Js.isDouble m → (1 <= m)%Q → (0 <= a <= m)%Q →
             (0 <= used <= 100)%Q ∧ (0 <= remaining <= 100)%Q
             ∧ (Qabs (used + remaining - 100) <= 2 ^ (-44))%Q).
Proof.
  intros Hparse. destruct (parseResponse_inr _ _ _ Hparse) as [us ->].
  revert Hparse. unfold parseResponse. cbn [userStatus].
  destruct (parseModels clock 0 _) as [ms k]. intros [= <-]. cbn [promptCredits].
  destruct (planStatus us ≫= planInfo) as [pi |]; [| discriminate].
  destruct (planStatus us ≫= availablePromptCredits) as [ac |]; [| discriminate].
  destruct (Number (monthlyPromptCredits pi)) as [m |]; [| discriminate].
  destruct (Js.ltb 0 m) eqn:Hm; [| discriminate].
  apply Js_ltb_spec in Hm. intros [= <-]. cbn.
  exists m. split; [reflexivity |]. split; [exact Hm |].
  split.
  { intros ->. split; reflexivity. }
  intros a ->. cbn. eexists _, _. split; [reflexivity |]. split; [reflexivity |].
  split; [reflexivity |]. split; [reflexivity |].
  assert (Hsign : ∀ x : Q,
            ((0 <= x)%Q → (0 <= Js.mul (Js.div x m) 100)%Q)
            ∧ ((x <= 0)%Q → (Js.mul (Js.div x m) 100 <= 0)%Q)).
  { intros x. split; intros Hx.
    - apply fl_nonneg.
      assert (0 <= Js.div x m)%Q by (apply fl_nonneg, Qle_shift_div_l; lra). lra.
    - apply fl_nonpos.
      assert (Js.div x m <= 0)%Q by (apply fl_nonpos, Qle_shift_div_r; lra). lra. }
  split; [apply Hsign |]. split; [apply Hsign |].
  split.
  { intros Ha. apply Hsign. apply fl_nonneg. lra. }
  split.
  { intros Ha. apply Hsign. apply fl_nonpos. lra. }
  intros Hdouble Hm1 Ha. exact (credits_sum m a Hdouble Hm1 Ha).
Qed.

End Client.

(** ** Quota client and analytics engine *)

Section Pipeline.
Context `{Host}.

(** Property X13. Quota client and analytics engine together. For the
    snapshot of a response whose remaining fractions lie between 0 and 1,
    every remaining percentage lies between 0 and 100; whatever the engine
    has seen before, the overall health that [analyze] reports for it lies
    between 0 and 100, and so does the total session usage when the recorded
    baselines are at most 100; and [analyze] returns as many resources as
    the snapshot has. *)
Theorem polled_snapshot_analysis (nowPoll nowAnalyze : nat → Z)
    (data : ServerUserStatusResponse)
    (snap : QuotaSnapshot) (st : InsightsService.State) :
  QuotaService.parseResponse nowPoll data = inr snap →
  (∀ m, m ∈ models snap → (0 <= remainingFraction m <= 1)%Q) →
  let out := (InsightsService.analyze nowAnalyze st snap).1 in
  (∀ m, m ∈ models snap → (0 <= remainingPercent m <= 100)%Q)
  ∧ 0 <= overallHealth out <= 100
  ∧ ((∀ id v, InsightsService.sessionStartQuotas st !! id = Some v → (v <= 100)%Q) →
     0 <= totalSessionUsage out <= 100)
  ∧ List.length (modelsWithInsights out) = List.length (models snap).
Proof.
  intros Hparse Hfrac out.
  assert (Hpct : ∀ m, m ∈ models snap → (0 <= remainingPercent m <= 100)%Q).
  { intros m Hm. pose proof (Hfrac m Hm) as Hf.
    destruct (parseResponse_inr _ _ _ Hparse) as [us ->].
    destruct (parseResponse_snapshot nowPoll us) as (snap' & Hsnap & Hms & _).
    rewrite Hparse in Hsnap. injection Hsnap as <-. rewrite Hms in Hm.
    apply parseModels_origin in Hm as (raw & qi & j & _ & _ & -> & _).
    pose proof (parseModel_fields nowPoll j raw qi) as (_ & _ & Hfr & Hp & _).
    cbn zeta in *. rewrite Hfr in Hf. rewrite Hp.
    destruct (percent_product _ Hf) as [Hrange _].
    pose proof (Math_round_range (Js.mul (default 1%Q (raw_remainingFraction qi)) 100)
                  0 100) as Hr.
    change (inject_Z 0) with 0%Q in Hr. change (inject_Z 100) with 100%Q in Hr.
    specialize (Hr Hrange).
    change 0%Q with (inject_Z 0). change 100%Q with (inject_Z 100).
    rewrite <- !Zle_Qle. exact Hr. }
  split; [exact Hpct |]. split; [| split].
  - destruct (models snap) as [| m0 ms] eqn:E.
    + subst out. unfold InsightsService.analyze, InsightsService.initSessionStart.
      rewrite E. cbn. lia.
    + pose proof (calculateOverallHealth_range 0 100
                    (modelsWithInsights (InsightsService.analyze nowAnalyze st snap).1))
        as Hh.
      pose proof (analyze_health nowAnalyze st snap) as Heq.
      destruct (analyzed_resources nowAnalyze st snap) as (Hperm & Hq & _).
      cbn zeta in *. rewrite <- Heq in Hh. cbn [fst] in Hh. apply Hh.
      * intros Hnil. rewrite Hnil in Hperm. symmetry in Hperm.
        apply Permutation_nil_r in Hperm. rewrite Hperm, E in Hq. discriminate.
      * intros r Hr. change (inject_Z 0) with 0%Q. change (inject_Z 100) with 100%Q.
        rewrite <- E in *. apply Hpct. rewrite <- Hq. apply list_elem_of_fmap.
        exists r. split; [reflexivity |]. now rewrite <- Hperm.
  - intros Hbase. subst out. apply totalSessionUsage_range; [lia |].
    intros r Hr. pose proof Hr as Hr'.
    apply analyze_sessionUsage in Hr as (Hin & base & Hb & ->).
    rewrite analyze_baseline in Hb.
    assert (Hle : (base <= 100)%Q).
    { apply baseline_origin in Hb as [Hb | (m & Hm & _ & <-)]; [eauto |].
      now apply Hpct. }
    apply Hpct in Hin. change (inject_Z 100) with 100%Q.
    destruct (Math_max_cases 0 (base - remainingPercent (quota r)))
      as [[Hc ->] | [Hc ->]]; lra.
  - destruct (analyzed_resources nowAnalyze st snap) as (Hperm & Hq & _).
    cbn zeta in *. subst out. apply Permutation_length in Hperm. rewrite Hperm.
    rewrite <- (length_map quota). f_equal. exact Hq.
Qed.

End Pipeline.

(** ** The low-quota warning *)

Section Warnings.
Import InsightsService.

Lemma find_filter {A} (f g : A → bool) (l : list A) :
  List.find g (List.filter f l) = List.find (λ x, f x && g x) l.
Proof.
  induction l as [| x l IH]; [reflexivity |].
  cbn [List.filter List.find]. destruct (f x); cbn [andb]; [| exact IH].
  cbn [List.find]. destruct (g x); [reflexivity | exact IH].
Qed.

Lemma find_first {A} (f : A → bool) (l : list A) (x : A) :
  List.find f l = Some x →
  ∃ l1 l2, l = (l1 ++ x :: l2)%list ∧ f x = true ∧ ∀ y, y ∈ l1 → f y = false.
Proof.
  induction l as [| y l IH]; cbn [List.find]; [discriminate |].
  destruct (f y) eqn:E.
  - intros [= <-]. exists [], l. split; [reflexivity |].
    split; [exact E | intros z Hz; inversion Hz].
  - intros (l1 & l2 & -> & Hx & Hno)%IH. exists (y :: l1), l2.
    split; [reflexivity |]. split; [exact Hx |].
    intros z [-> | Hz]%elem_of_cons; auto.
Qed.

Lemma find_nothing {A} (f : A → bool) (l : list A) :
  List.find f l = None → ∀ y, y ∈ l → f y = false.
Proof.
  induction l as [| x l IH]; cbn [List.find]; [intros _ y Hy; inversion Hy |].
  destruct (f x) eqn:E; [discriminate |].
  intros Hn y [-> | Hy]%elem_of_cons; auto.
Qed.

(** Property X14. The low-quota warning after an [analyze] call. When
    [checkForWarnings] warns, it warns about a resource of the result that
    is active and whose remaining percentage is above 0 and at most the
    alert threshold, and no other such resource has a lower remaining
    percentage. When it does not warn, no active resource has a remaining
    percentage above 0 and at most the threshold. *)
Theorem checkForWarnings_lowest (now : nat → Z) (st : State) (snap : QuotaSnapshot)
    (alertThreshold : Q) :
  let out := (analyze now st snap).1 in
  let low (m : ModelWithInsights) :=
    (0 < remainingPercent (quota m) <= alertThreshold)%Q in
  match Extension.checkForWarnings out alertThreshold with
  | Some warned =>
      warned ∈ modelsWithInsights out
      ∧ isActive (insights warned) = true
      ∧ low warned
      ∧ ∀ m, m ∈ modelsWithInsights out → isActive (insights m) = true → low m →
          (remainingPercent (quota warned) <= remainingPercent (quota m))%Q
  | None =>
      ∀ m, m ∈ modelsWithInsights out → isActive (insights m) = true → ¬ low m
  end.
Proof.
  intros out low. subst out. unfold Extension.checkForWarnings. cbn zeta.
  rewrite find_filter.
  assert (Hlow : ∀ m, Extension.isLow alertThreshold m = true ↔ low m).
  { intros m. unfold Extension.isLow, low.
    rewrite andb_true_iff, Js_ltb_spec, Js_leb_spec. tauto. }
  destruct (List.find _ _) as [warned |] eqn:E.
  - apply find_first in E as (l1 & l2 & Hdec & Hw & Hno).
    apply andb_true_iff in Hw as [Hwl Hwa].
    split; [rewrite Hdec; apply elem_of_app; right; now left |].
    split; [exact Hwa |]. split; [now apply Hlow |].
    intros m Hm Hact Hml.
    pose proof (Array_sort_sorted compareModels Spec.displayOrder
                  compareModels_before compareModels_not_before displayOrder_trans)
      as Hsorted.
    rewrite analyze_models in Hdec, Hm.
    specialize (Hsorted
      (analyzeModels now 0 (initSessionStart (recordSnapshot st snap) snap) snap
         (models snap)).1).
    rewrite Hdec in Hsorted, Hm.
    apply elem_of_app in Hm as [Hm | Hm].
    + apply Hlow in Hml. specialize (Hno m Hm). rewrite Hml, Hact in Hno. discriminate.
    + apply elem_of_cons in Hm as [-> | Hm]; [lra |].
      apply StronglySorted_app_1_r in Hsorted.
      apply StronglySorted_inv in Hsorted as [_ Hall].
      rewrite Forall_forall in Hall.
      destruct (Hall m Hm) as [[_ Hc] | [_ Hle]]; [congruence | exact Hle].
  - intros m Hm Hact Hml. apply Hlow in Hml.
    pose proof (find_nothing _ _ E m Hm) as Hf. cbn in Hf.
    rewrite Hml, Hact in Hf. discriminate.
Qed.

End Warnings.

(** ** The lists of ports *)

Lemma pushUnique_spec (ports : list Z) (port : Z) :
  NoDup ports →
  NoDup (Js.pushUnique ports port)
  ∧ ∀ p, p ∈ Js.pushUnique ports port ↔ p ∈ ports ∨ p = port.
Proof.
  intros Hnd. unfold Js.pushUnique. case_bool_decide as Hin.
  - split; [exact Hnd |]. intros p. split; [now left |].
    intros [Hp | ->]; assumption.
  - split.
    + apply NoDup_app. split; [exact Hnd |]. split; [| apply NoDup_singleton].
      intros p Hp ->%list_elem_of_singleton. contradiction.
    + intros p. rewrite elem_of_app, list_elem_of_singleton. reflexivity.
Qed.

Lemma foldl_pushUnique_spec (l : list Z) :
  ∀ acc : list Z,
    NoDup acc →
    NoDup (foldl Js.pushUnique acc l)
    ∧ ∀ p, p ∈ foldl Js.pushUnique acc l ↔ p ∈ acc ∨ p ∈ l.
Proof.
  induction l as [| x l IH]; intros acc Hnd; cbn [foldl].
  - split; [exact Hnd |]. intros p. split; [now left |].
    intros [Hp | Hp]; [exact Hp | inversion Hp].
  - destruct (pushUnique_spec acc x Hnd) as [Hnd' Hin'].
    destruct (IH _ Hnd') as [Hnd'' Hin'']. split; [exact Hnd'' |].
    intros p. rewrite Hin'', Hin', elem_of_cons. tauto.
Qed.

Lemma sortPorts_Permutation (ports : list Z) : Js.sortPorts ports ≡ₚ ports.
Proof. apply Array_sort_Permutation. Qed.

Lemma sortPorts_sorted (ports : list Z) : StronglySorted Z.le (Js.sortPorts ports).
Proof.
  apply Array_sort_sorted.
  - intros x y Hlt. apply Js_ltb_spec in Hlt.
    change 0%Q with (inject_Z 0) in Hlt. rewrite <- Zlt_Qlt in Hlt. lia.
  - intros x y Hlt.
    assert (Hge : ¬ (inject_Z (x - y) < 0)%Q).
    { intros Hc. apply Js_ltb_spec in Hc. congruence. }
    change 0%Q with (inject_Z 0) in Hge. rewrite <- Zlt_Qlt in Hge. lia.
  - intros x y z. lia.
Qed.

Lemma StronglySorted_le_NoDup (l : list Z) :
  StronglySorted Z.le l → NoDup l → StronglySorted Z.lt l.
Proof.
  induction 1 as [| x l Hs IH Hx]; intros Hnd; [constructor |].
  apply NoDup_cons in Hnd as [Hnotin Hnd].
  constructor; [now apply IH |].
  apply Forall_forall. intros y Hy. rewrite Forall_forall in Hx.
  specialize (Hx y Hy). assert (x ≠ y) by (intros ->; contradiction). lia.
Qed.

(** The captures of a loop over a global expression are captures of the
    expression at places of the text. *)
Lemma exec_all_go_capture (here : string → option (string * string)) (s : string) :
  ∀ (skip : nat) (capture : string),
    capture ∈ Js.exec_all_go here skip s →
    ∃ t rest : string, here t = Some (capture, rest).
Proof.
  induction s as [| c s IH]; intros skip capture.
  - destruct skip as [| k]; cbn [Js.exec_all_go]; [| inversion 1].
    destruct (here EmptyString) as [[cap rest] |] eqn:E; [| inversion 1].
    intros [-> | Hc]%elem_of_cons; [eauto | inversion Hc].
  - destruct skip as [| k]; cbn [Js.exec_all_go]; [| apply IH].
    destruct (here (String c s)) as [[cap rest] |] eqn:E; [| apply IH].
    intros [-> | Hc]%elem_of_cons; [eauto | eapply IH; eassumption].
Qed.

Lemma span_forall (cls : ascii → bool) (s : string) :
  forallb cls (list_ascii_of_string (Js.span cls s).1) = true.
Proof.
  induction s as [| c s IH]; [reflexivity |].
  cbn [Js.span]. destruct (cls c) eqn:E; [| reflexivity].
  destruct (Js.span cls s) as [run rest]. cbn in *. now rewrite E, IH.
Qed.

Lemma run1_spec (cls : ascii → bool) (s run rest : string) :
  Js.run1 cls s = Some (run, rest) →
  run ≠ EmptyString ∧ forallb cls (list_ascii_of_string run) = true.
Proof.
  unfold Js.run1. pose proof (span_forall cls s) as Hall.
  destruct (Js.span cls s) as [r t]. cbn in Hall.
  destruct r; [discriminate |]. intros [= <- <-]. split; [discriminate | exact Hall].
Qed.

Lemma digits_value_nonneg (s : string) :
  forallb Js.isDigit (list_ascii_of_string s) = true →
  ∀ acc, 0 <= acc → 0 <= Js.digits_value acc s.
Proof.
  induction s as [| c s IH]; intros Hall acc Hacc; [exact Hacc |].
  cbn in Hall. apply andb_true_iff in Hall as [Hc Hs].
  cbn [Js.digits_value]. apply IH; [exact Hs |].
  unfold Js.isDigit in Hc. apply andb_true_iff in Hc as [Hlo _].
  apply Nat.leb_le in Hlo. lia.
Qed.

Lemma span_all (cls : ascii → bool) (s : string) :
  forallb cls (list_ascii_of_string s) = true → Js.span cls s = (s, EmptyString).
Proof.
  induction s as [| c s IH]; [reflexivity |].
  cbn. intros [Hc Hs]%andb_true_iff. rewrite Hc, (IH Hs). reflexivity.
Qed.

Lemma parseInt_digits (s : string) :
  s ≠ EmptyString →
  forallb Js.isDigit (list_ascii_of_string s) = true →
  Js.parseInt s = Some (Js.digits_value 0 s) ∧ 0 <= Js.digits_value 0 s.
Proof.
  intros Hne Hall. split; [| now apply digits_value_nonneg].
  destruct s as [| c s]; [contradiction |].
  pose proof Hall as Hall'. cbn in Hall'. apply andb_true_iff in Hall' as [Hc _].
  unfold Js.parseInt.
  assert (Hws : Js.isWhiteSpace c = false).
  { unfold Js.isDigit in Hc. unfold Js.isWhiteSpace.
    apply andb_true_iff in Hc as [Hlo Hhi].
    apply Nat.leb_le in Hlo, Hhi.
    repeat (apply orb_false_iff; split);
      try apply andb_false_iff; try (apply Nat.eqb_neq; lia).
    right. apply Nat.leb_gt. lia. }
  cbn [Js.trimStart]. rewrite Hws.
  assert (Hsign : c ≠ "-"%char ∧ c ≠ "+"%char).
  { split; intros ->; vm_compute in Hc; discriminate. }
  destruct Hsign as [Hminus Hplus].
  assert (Hbody : (let '(negative, body) :=
                     match String c s with
                     | String "-" r => (true, r)
                     | String "+" r => (false, r)
                     | _ => (false, String c s)
                     end in (negative, body)) = (false, String c s)).
  { destruct c as [[|] [|] [|] [|] [|] [|] [|] [|]]; try reflexivity;
      exfalso; (apply Hminus; reflexivity) || (apply Hplus; reflexivity). }
  destruct (match String c s with
            | String "-" r => (true, r)
            | String "+" r => (false, r)
            | _ => (false, String c s)
            end) as [negative body].
  injection Hbody as -> ->.
  rewrite (span_all Js.isDigit (String c s) Hall). reflexivity.
Qed.

Lemma netstat_here_digits : Spec.capturesDigits WindowsStrategy.netstat_here.
Proof.
  intros t capture rest. unfold WindowsStrategy.netstat_here. intros Hm.
  repeat (simplify_option_eq; repeat case_match; simplify_eq).
  eapply run1_spec; eassumption.
Qed.

Lemma lsof_here_digits : Spec.capturesDigits UnixStrategy.lsof_here.
Proof.
  intros t capture rest. unfold UnixStrategy.lsof_here. intros Hm.
  repeat (simplify_option_eq; repeat case_match; simplify_eq);
    eapply run1_spec; eassumption.
Qed.

Lemma ss_here_digits : Spec.capturesDigits UnixStrategy.ss_here.
Proof.
  intros t capture rest. unfold UnixStrategy.ss_here. intros Hm.
  repeat (simplify_option_eq; repeat case_match; simplify_eq).
  eapply run1_spec; eassumption.
Qed.

Lemma collectPorts_spec (here : string → option (string * string)) (stdout : string) :
  Spec.capturesDigits here →
  let ports := Js.collectPorts here stdout in
  NoDup ports
  ∧ (∀ p, p ∈ ports ↔
          ∃ capture, capture ∈ Js.exec_all here stdout ∧ Js.parseInt capture = Some p)
  ∧ (ports = [] ↔ Js.exec_all here stdout = []).
Proof.
  intros Hdigits ports. subst ports. unfold Js.collectPorts.
  destruct (foldl_pushUnique_spec
              (map (λ digits, default 0 (Js.parseInt digits)) (Js.exec_all here stdout))
              [] (NoDup_nil_2)) as [Hnd Hin].
  split; [exact Hnd |]. split.
  - intros p. rewrite Hin, list_elem_of_fmap. split.
    + intros [Hp | (capture & -> & Hc)]; [inversion Hp |].
      exists capture. split; [exact Hc |].
      destruct (exec_all_go_capture here stdout O capture Hc) as (t & rest & Ht).
      destruct (Hdigits t capture rest Ht) as [Hne Hall].
      destruct (parseInt_digits capture Hne Hall) as [-> _]. reflexivity.
    + intros (capture & Hc & Hp). right. exists capture. now rewrite Hp.
  - destruct (Js.exec_all here stdout) as [| c cs] eqn:E; [tauto |].
    split; [| discriminate]. intros Hempty. exfalso.
    assert (Hmem : default 0 (Js.parseInt c)
                   ∈ foldl Js.pushUnique []
                       (map (λ digits, default 0 (Js.parseInt digits)) (c :: cs))).
    { apply Hin. right. now left. }
    rewrite Hempty in Hmem. inversion Hmem.
Qed.

Lemma sorted_ports_spec (here : string → option (string * string)) (stdout : string) :
  Spec.capturesDigits here →
  let ports := Js.sortPorts (Js.collectPorts here stdout) in
  StronglySorted Z.lt ports
  ∧ Forall (λ p, 0 <= p) ports
  ∧ ∀ p, p ∈ ports ↔
         ∃ capture, capture ∈ Js.exec_all here stdout ∧ Js.parseInt capture = Some p.
Proof.
  intros Hdigits ports. subst ports.
  destruct (collectPorts_spec here stdout Hdigits) as (Hnd & Hin & _).
  assert (Hmem : ∀ p, p ∈ Js.sortPorts (Js.collectPorts here stdout) ↔
            ∃ capture, capture ∈ Js.exec_all here stdout ∧ Js.parseInt capture = Some p).
  { intros p. rewrite sortPorts_Permutation. apply Hin. }
  split; [| split; [| exact Hmem]].
  - apply StronglySorted_le_NoDup; [apply sortPorts_sorted |].
    now rewrite sortPorts_Permutation.
  - apply Forall_forall. intros p (capture & Hc & Hp)%Hmem.
    destruct (exec_all_go_capture here stdout O capture Hc) as (t & rest & Ht).
    destruct (Hdigits t capture rest Ht) as [Hne Hall].
    destruct (parseInt_digits capture Hne Hall) as [Hparse Hpos].
    congruence.
Qed.

Lemma windows_ports_sorted (stdout : string) :
  StronglySorted Z.lt (WindowsStrategy.parseListeningPorts stdout)
  ∧ Forall (λ p, 0 <= p) (WindowsStrategy.parseListeningPorts stdout).
Proof. split; apply (sorted_ports_spec _ stdout netstat_here_digits). Qed.

Lemma unix_ports_sorted (platform : UnixStrategy.Platform) (stdout : string) :
  StronglySorted Z.lt (UnixStrategy.parseListeningPorts platform stdout)
  ∧ Forall (λ p, 0 <= p) (UnixStrategy.parseListeningPorts platform stdout).
Proof.
  unfold UnixStrategy.parseListeningPorts. destruct platform.
  - split; apply (sorted_ports_spec _ stdout lsof_here_digits).
  - destruct (List.length (Js.collectPorts UnixStrategy.ss_here stdout) =? 0)%nat.
    + split; apply (sorted_ports_spec _ stdout lsof_here_digits).
    + split; apply (sorted_ports_spec _ stdout ss_here_digits).
Qed.

(** Property X15. The ports that [parseListeningPorts] returns, on Windows
    and on both Unix platforms, are strictly ascending, hence without
    repetition, and none is negative. *)
Theorem parseListeningPorts_ascending (stdout : string) :
  (∀ platform : UnixStrategy.Platform,
     StronglySorted Z.lt (UnixStrategy.parseListeningPorts platform stdout)
     ∧ Forall (λ p, 0 <= p) (UnixStrategy.parseListeningPorts platform stdout))
  ∧ StronglySorted Z.lt (WindowsStrategy.parseListeningPorts stdout)
  ∧ Forall (λ p, 0 <= p) (WindowsStrategy.parseListeningPorts stdout).
Proof.
  split; [intros platform; apply unix_ports_sorted | apply windows_ports_sorted].
Qed.

(** Property X16. A port is returned by [parseListeningPorts] exactly when it
    is the number captured by a match of the expression of the platform in
    the output: the [netstat] expression on Windows, the [lsof] expression
    on macOS, and on Linux the [ss] expression, or the [lsof] expression
    when the [ss] expression has no match at all. *)
Theorem parseListeningPorts_matches (stdout : string) (p : Z) :
  let matched (here : string → option (string * string)) :=
    ∃ capture, capture ∈ Js.exec_all here stdout ∧ Js.parseInt capture = Some p in
  (p ∈ WindowsStrategy.parseListeningPorts stdout
   ↔ matched WindowsStrategy.netstat_here)
  ∧ (p ∈ UnixStrategy.parseListeningPorts UnixStrategy.darwin stdout
     ↔ matched UnixStrategy.lsof_here)
  ∧ (p ∈ UnixStrategy.parseListeningPorts UnixStrategy.linux stdout
     ↔ if decide (Js.exec_all UnixStrategy.ss_here stdout = [])
       then matched UnixStrategy.lsof_here
       else matched UnixStrategy.ss_here).
Proof.
  intros matched. split; [| split].
  - apply (sorted_ports_spec _ stdout netstat_here_digits).
  - apply (sorted_ports_spec _ stdout lsof_here_digits).
  - unfold UnixStrategy.parseListeningPorts.
    destruct (collectPorts_spec _ stdout ss_here_digits) as (_ & _ & Hempty).
    destruct (Nat.eqb_spec (List.length (Js.collectPorts UnixStrategy.ss_here stdout)) 0)
      as [Hz | Hnz].
    + apply length_zero_iff_nil in Hz. rewrite decide_True by now apply Hempty.
      apply (sorted_ports_spec _ stdout lsof_here_digits).
    + rewrite decide_False.
      * apply (sorted_ports_spec _ stdout ss_here_digits).
      * intros Hc. apply Hempty in Hc. rewrite Hc in Hnz. contradiction.
Qed.

(** ** Decimal numerals *)

Lemma append_cons (c : ascii) (a b : string) : String c a +:+ b = String c (a +:+ b).
Proof. reflexivity. Qed.

Lemma list_ascii_of_string_app (a b : string) :
  list_ascii_of_string (a +:+ b)
  = (list_ascii_of_string a ++ list_ascii_of_string b)%list.
Proof. induction a as [| c a IH]; [reflexivity |]. rewrite !append_cons. cbn [list_ascii_of_string String.length app]. now rewrite IH. Qed.

Lemma string_app_assoc (a b c : string) : (a +:+ b) +:+ c = a +:+ (b +:+ c).
Proof. induction a as [| x a IH]; [reflexivity |]. rewrite !append_cons. cbn [list_ascii_of_string String.length app]. now rewrite IH. Qed.

Lemma string_app_length (a b : string) :
  String.length (a +:+ b) = (String.length a + String.length b)%nat.
Proof. induction a as [| x a IH]; [reflexivity |]. rewrite !append_cons. cbn [list_ascii_of_string String.length app]. now rewrite IH. Qed.

Lemma digits_value_app (a b : string) :
  ∀ acc, Js.digits_value acc (a +:+ b) = Js.digits_value (Js.digits_value acc a) b.
Proof.
  induction a as [| c a IH]; intros acc; [reflexivity |].
  rewrite append_cons. cbn [Js.digits_value]. apply IH.
Qed.

Lemma pretty_N_char_digit (n : N) :
  (n < 10)%N →
  Js.isDigit (pretty_N_char n) = true
  ∧ Z.of_nat (nat_of_ascii (pretty_N_char n)) - 48 = Z.of_N n.
Proof.
  intros Hn.
  assert (Hcases : n = 0%N ∨ n = 1%N ∨ n = 2%N ∨ n = 3%N ∨ n = 4%N ∨ n = 5%N
                   ∨ n = 6%N ∨ n = 7%N ∨ n = 8%N ∨ n = 9%N) by lia.
  repeat destruct Hcases as [-> | Hcases]; try subst n; split; reflexivity.
Qed.

Lemma pretty_N_go_digits (x : N) :
  ∀ s : string,
    ∃ d : string,
      pretty_N_go x s = d +:+ s
      ∧ forallb Js.isDigit (list_ascii_of_string d) = true
      ∧ ((0 < x)%N → d ≠ EmptyString)
      ∧ ∀ acc, Js.digits_value acc d = acc * 10 ^ Z.of_nat (String.length d) + Z.of_N x.
Proof.
  induction (N.lt_wf_0 x) as [x _ IH]. intros s.
  destruct (decide (0 < x)%N) as [Hpos | Hzero].
  - rewrite pretty_N_go_step by exact Hpos.
    destruct (IH (x `div` 10)%N ltac:(apply N.div_lt; lia)
                 (String (pretty_N_char (x `mod` 10)) s)) as (d & Hd & Hall & _ & Hval).
    destruct (pretty_N_char_digit (x `mod` 10)%N ltac:(apply N.mod_lt; lia))
      as [Hdig Hcode].
    exists (d +:+ String (pretty_N_char (x `mod` 10)) EmptyString).
    split; [now rewrite string_app_assoc |]. split; [| split].
    + rewrite list_ascii_of_string_app, forallb_app, Hall. cbn. now rewrite Hdig.
    + destruct d; discriminate.
    + intros acc. rewrite digits_value_app, Hval. cbn [Js.digits_value].
      rewrite Hcode, string_app_length. cbn [String.length].
      rewrite Nat2Z.inj_add, Z.pow_add_r by lia.
      pose proof (N.div_mod x 10 ltac:(lia)) as Hdm.
      change (Z.of_nat 1) with 1. rewrite Z.pow_1_r.
      rewrite Hdm at 3. rewrite N2Z.inj_add, N2Z.inj_mul. change (Z.of_N 10) with 10.
      ring.
  - assert (x = 0%N) as -> by lia. rewrite pretty_N_go_0. exists EmptyString.
    split; [reflexivity |]. split; [reflexivity |]. split; [lia |].
    intros acc. cbn. lia.
Qed.

(** The decimal numeral of a number that is not negative is a run of
    digits, which [parseInt] reads back. *)
Lemma pretty_digits (z : Z) :
  0 <= z →
  pretty z ≠ EmptyString
  ∧ forallb Js.isDigit (list_ascii_of_string (pretty z)) = true
  ∧ Js.parseInt (pretty z) = Some z.
Proof.
  intros Hz. destruct z as [| p | p]; [| | lia].
  - repeat split; discriminate.
  - change (pretty (Z.pos p)) with (pretty_N_go (N.pos p) EmptyString).
    destruct (pretty_N_go_digits (N.pos p) EmptyString) as (d & Hd & Hall & Hne & Hval).
    rewrite Hd.
    assert (Heq : d +:+ EmptyString = d).
    { clear. induction d as [| c d IH]; [reflexivity |]. rewrite append_cons.
      now rewrite IH. }
    rewrite Heq. specialize (Hne ltac:(lia)).
    split; [exact Hne |]. split; [exact Hall |].
    destruct (parseInt_digits d Hne Hall) as [-> _]. rewrite Hval. reflexivity.
Qed.

(** ** Skipping what cannot start a flag *)

Lemma match_flag_cons_none (ci : bool) (flag : string) (value : ascii → bool)
    (c : ascii) (s : string) :
  Js.flag_here ci flag value (String c s) = None →
  Js.match_flag ci flag value (String c s) = Js.match_flag ci flag value s.
Proof. intros Hn. cbn [Js.match_flag]. now rewrite Hn. Qed.

Lemma flag_here_first (f : ascii) (flag : string) (value : ascii → bool)
    (c : ascii) (s : string) :
  Ascii.eqb f c = false → Js.flag_here false (String f flag) value (String c s) = None.
Proof. intros Hne. unfold Js.flag_here. cbn [Js.startsWith_by]. now rewrite Hne. Qed.

Lemma match_flag_skip (f : ascii) (flag : string) (value : ascii → bool) (s : string) :
  ∀ pre : string,
    forallb (λ c, negb (Ascii.eqb f c)) (list_ascii_of_string pre) = true →
    Js.match_flag false (String f flag) value (pre +:+ s)
    = Js.match_flag false (String f flag) value s.
Proof.
  induction pre as [| c pre IH]; [reflexivity |].
  cbn [list_ascii_of_string forallb]. intros [Hc Hpre]%andb_true_iff.
  apply negb_true_iff in Hc. rewrite append_cons.
  rewrite match_flag_cons_none by now apply flag_here_first. now apply IH.
Qed.

Lemma forallb_weaken (p q : ascii → bool) (l : list ascii) :
  (∀ c, p c = true → q c = true) → forallb p l = true → forallb q l = true.
Proof.
  intros Hpq. induction l as [| c l IH]; [reflexivity |].
  cbn. intros [Hc Hl]%andb_true_iff. now rewrite (Hpq c Hc), IH.
Qed.

Lemma span_app (cls : ascii → bool) (d : string) (c : ascii) (r : string) :
  forallb cls (list_ascii_of_string d) = true → cls c = false →
  Js.span cls (d +:+ String c r) = (d, String c r).
Proof.
  intros Hall Hc. induction d as [| x d IH].
  - change (EmptyString +:+ String c r) with (String c r). cbn [Js.span]. now rewrite Hc.
  - cbn in Hall. apply andb_true_iff in Hall as [Hx Hd].
    rewrite append_cons. cbn [Js.span]. now rewrite Hx, (IH Hd).
Qed.

Lemma substring_from_app (a b : string) :
  Js.substring_from (String.length a) (a +:+ b) = b.
Proof.
  induction a as [| c a IH]; [now destruct b |].
  rewrite append_cons. cbn [String.length Js.substring_from]. exact IH.
Qed.

Lemma trimEnd_all (t : string) :
  forallb (λ c, negb (Js.isWhiteSpace c)) (list_ascii_of_string t) = true →
  Js.trimEnd t = t.
Proof.
  induction t as [| c t IH]; [reflexivity |].
  cbn [list_ascii_of_string forallb]. intros [Hc Ht]%andb_true_iff.
  apply negb_true_iff in Hc. cbn [Js.trimEnd]. rewrite (IH Ht), Hc.
  now destruct t.
Qed.

Lemma trimEnd_app (p t : string) :
  t ≠ EmptyString → Js.trimEnd t = t → Js.trimEnd (p +:+ t) = p +:+ t.
Proof.
  intros Hne Ht. induction p as [| c p IH]; [exact Ht |].
  rewrite append_cons. cbn [Js.trimEnd]. rewrite IH.
  destruct (p +:+ t) eqn:E; [| reflexivity].
  destruct p; [change (EmptyString +:+ t) with t in E; congruence
              | rewrite append_cons in E; discriminate].
Qed.

Lemma trimStart_app (c : ascii) (r : string) :
  Js.isWhiteSpace c = false →
  ∀ p : string, ∃ p' q : string, p = q +:+ p' ∧ Js.trimStart (p +:+ String c r) = p' +:+ String c r.
Proof.
  intros Hc. induction p as [| x p (p' & q & Hp & IH)].
  - exists EmptyString, EmptyString.
    change (EmptyString +:+ String c r) with (String c r). cbn [Js.trimStart].
    now rewrite Hc.
  - rewrite append_cons. cbn [Js.trimStart]. destruct (Js.isWhiteSpace x).
    + exists p', (String x q). split; [rewrite append_cons; congruence | exact IH].
    + exists (String x p), EmptyString. split; reflexivity.
Qed.

Lemma split_ws_head (d : string) (c : ascii) (r : string) :
  forallb (λ c, negb (Js.isWhiteSpace c)) (list_ascii_of_string d) = true →
  Js.isWhiteSpace c = true →
  hd EmptyString (Js.split_ws (d +:+ String c r)) = d.
Proof.
  intros Hall Hc. unfold Js.split_ws.
  induction d as [| x d IH]; [change (EmptyString +:+ String c r) with (String c r)
                            | rewrite append_cons]; cbn [Js.split_ws_go].
  - now rewrite Hc.
  - cbn in Hall. apply andb_true_iff in Hall as [Hx Hd]. apply negb_true_iff in Hx.
    rewrite Hx. specialize (IH Hd).
    destruct (Js.split_ws_go false (d +:+ String c r)) as [| piece rest]; cbn in *;
      congruence.
Qed.

Lemma ascii_classes (c : ascii) :
  (Js.isDigit c = true → UnixStrategy.isTokenChar c = true)
  ∧ (UnixStrategy.isTokenChar c = true →
     Js.isWhiteSpace c = false ∧ Js.isFlagSep c = false ∧ Ascii.eqb c "010" = false)
  ∧ (Js.isDigit c = true → Ascii.eqb "-" c = false).
Proof.
  destruct c as [[] [] [] [] [] [] [] []]; vm_compute; repeat split; congruence.
Qed.

Lemma startsWith_self (flag t : string) :
  Js.startsWith_by Ascii.eqb (flag +:+ t) flag = true.
Proof.
  induction flag as [| c flag IH]; [reflexivity |].
  rewrite append_cons. cbn [Js.startsWith_by]. now rewrite Ascii.eqb_refl, IH.
Qed.

Lemma span_app_stop (cls : ascii → bool) (d rest : string) :
  forallb cls (list_ascii_of_string d) = true →
  Js.span cls rest = (EmptyString, rest) →
  Js.span cls (d +:+ rest) = (d, rest).
Proof.
  intros Hall Hrest. induction d as [| x d IH]; [exact Hrest |].
  cbn in Hall. apply andb_true_iff in Hall as [Hx Hd].
  rewrite append_cons. cbn [Js.span]. now rewrite Hx, (IH Hd).
Qed.

Lemma span_stop (cls : ascii → bool) (c : ascii) (r : string) :
  cls c = false → Js.span cls (String c r) = (EmptyString, String c r).
Proof. intros Hc. cbn [Js.span]. now rewrite Hc. Qed.

(** A flag followed by separators and a value is found where it stands. *)
Lemma flag_here_value (flag : string) (value : ascii → bool) (seps v rest : string) :
  seps ≠ EmptyString →
  forallb Js.isFlagSep (list_ascii_of_string seps) = true →
  v ≠ EmptyString →
  forallb value (list_ascii_of_string v) = true →
  (∀ c, value c = true → Js.isFlagSep c = false) →
  Js.span value rest = (EmptyString, rest) →
  Js.flag_here false flag value (flag +:+ seps +:+ v +:+ rest) = Some v.
Proof.
  intros Hseps Hsep Hv Hval Hdisj Hrest. unfold Js.flag_here.
  rewrite startsWith_self, substring_from_app.
  assert (Hstop : Js.span Js.isFlagSep (v +:+ rest) = (EmptyString, v +:+ rest)).
  { destruct v as [| c v]; [contradiction |]. rewrite append_cons.
    apply span_stop, Hdisj. cbn in Hval. now apply andb_true_iff in Hval as [-> _]. }
  rewrite (span_app_stop _ _ _ Hsep Hstop).
  destruct seps; [contradiction |].
  rewrite (span_app_stop _ _ _ Hval Hrest). now destruct v.
Qed.

Lemma append_empty (s : string) : s +:+ EmptyString = s.
Proof.
  induction s as [| c s IH]; [reflexivity |]. rewrite append_cons. now rewrite IH.
Qed.

Lemma digits_not_space (d : string) :
  forallb Js.isDigit (list_ascii_of_string d) = true →
  forallb (λ c, negb (Js.isWhiteSpace c)) (list_ascii_of_string d) = true.
Proof.
  apply forallb_weaken. intros c Hc. apply negb_true_iff.
  now apply (ascii_classes c), (ascii_classes c).
Qed.

Lemma digits_noDash (d : string) :
  forallb Js.isDigit (list_ascii_of_string d) = true →
  forallb Spec.noDash (list_ascii_of_string d) = true.
Proof.
  apply forallb_weaken. intros c Hc. apply negb_true_iff. now apply (ascii_classes c).
Qed.

Section UnixLine.
Import UnixStrategy.

Context (pidDigits path portDigits token : string).
Hypothesis pid_digits : forallb Js.isDigit (list_ascii_of_string pidDigits) = true.
Hypothesis pid_nonempty : pidDigits ≠ EmptyString.
Hypothesis port_digits : forallb Js.isDigit (list_ascii_of_string portDigits) = true.
Hypothesis port_nonempty : portDigits ≠ EmptyString.
Hypothesis path_chars : forallb Spec.noDash (list_ascii_of_string path) = true.
Hypothesis token_chars : forallb isTokenChar (list_ascii_of_string token) = true.
Hypothesis token_nonempty : token ≠ EmptyString.

Lemma token_not_space :
  forallb (λ c, negb (Js.isWhiteSpace c)) (list_ascii_of_string token) = true.
Proof.
  apply (forallb_weaken isTokenChar); [| exact token_chars].
  intros c Hc. apply negb_true_iff. now apply (ascii_classes c).
Qed.

Lemma trimEnd_tokenFlag :
  Js.trimEnd (Spec.tokenFlag token) = Spec.tokenFlag token
  ∧ Spec.tokenFlag token ≠ EmptyString.
Proof.
  unfold Spec.tokenFlag. split; [| discriminate]. rewrite append_empty.
  rewrite <- string_app_assoc. apply trimEnd_app; [exact token_nonempty |].
  apply trimEnd_all, token_not_space.
Qed.

Lemma trimEnd_portFlag :
  Js.trimEnd (Spec.portFlag portDigits token) = Spec.portFlag portDigits token
  ∧ Spec.portFlag portDigits token ≠ EmptyString.
Proof.
  destruct trimEnd_tokenFlag as [Ht Hne].
  unfold Spec.portFlag. split; [| discriminate].
  change (String " " (Spec.tokenFlag token)) with (" " +:+ Spec.tokenFlag token).
  rewrite <- !string_app_assoc. now apply trimEnd_app.
Qed.

Lemma portFlag_port (pre : string) :
  forallb Spec.noDash (list_ascii_of_string pre) = true →
  Js.match_flag false "--extension_server_port" Js.isDigit
    (pre +:+ Spec.portFlag portDigits token)
  = Some portDigits.
Proof.
  intros Hpre. rewrite match_flag_skip by exact Hpre.
  assert (Hhere : Js.flag_here false "--extension_server_port" Js.isDigit
                    (Spec.portFlag portDigits token)
                  = Some portDigits).
  { unfold Spec.portFlag.
    apply flag_here_value; try assumption; try discriminate; try reflexivity.
    intros c Hc. now apply (ascii_classes c), (ascii_classes c). }
  unfold Spec.portFlag in *. rewrite append_cons in *. cbn [Js.match_flag].
  now rewrite Hhere.
Qed.

Lemma portFlag_token (pre : string) :
  forallb Spec.noDash (list_ascii_of_string pre) = true →
  Js.match_flag false "--csrf_token" isTokenChar (pre +:+ Spec.portFlag portDigits token)
  = Some token.
Proof.
  intros Hpre. rewrite match_flag_skip by exact Hpre.
  assert (Hshape : Spec.portFlag portDigits token
                   = String "-" (String "-"
                       (("extension_server_port=" +:+ portDigits +:+ " ")
                        +:+ Spec.tokenFlag token))).
  { unfold Spec.portFlag. rewrite !string_app_assoc. reflexivity. }
  rewrite Hshape.
  rewrite match_flag_cons_none by reflexivity.
  rewrite match_flag_cons_none by reflexivity.
  rewrite match_flag_skip.
  2:{ pose proof (digits_noDash _ port_digits) as Hd. unfold Spec.noDash in Hd.
      rewrite !list_ascii_of_string_app, !forallb_app, Hd. reflexivity. }
  assert (Hhere : Js.flag_here false "--csrf_token" isTokenChar (Spec.tokenFlag token)
                  = Some token).
  { unfold Spec.tokenFlag.
    apply flag_here_value; try assumption; try discriminate; try reflexivity.
    intros c Hc. now apply (ascii_classes c). }
  unfold Spec.tokenFlag in *. rewrite append_cons in *. cbn [Js.match_flag].
  now rewrite Hhere.
Qed.

Lemma unixLine_shape :
  Spec.unixLine pidDigits path portDigits token
  = pidDigits +:+ String " " ((path +:+ " ") +:+ Spec.portFlag portDigits token).
Proof.
  unfold Spec.unixLine, Spec.portFlag, Spec.tokenFlag.
  rewrite append_empty, !string_app_assoc. reflexivity.
Qed.

(** What [parseLine] makes of a line with both flags. *)
Lemma parseLine_unixLine :
  parseLine (Spec.unixLine pidDigits path portDigits token)
  = {| pid := Js.parseInt pidDigits;
       extensionPort := default 0 (Js.parseInt portDigits);
       csrfToken := token |}.
Proof.
  rewrite unixLine_shape. unfold parseLine.
  destruct trimEnd_portFlag as [Hend Hne].
  set (flags := Spec.portFlag portDigits token) in *.
  set (body := String " " ((path +:+ " ") +:+ flags)).
  assert (Hbody : Js.trimEnd body = body ∧ body ≠ EmptyString).
  { split; [| discriminate]. subst body.
    change (String " " ((path +:+ " ") +:+ flags)) with (" " +:+ (path +:+ " ") +:+ flags).
    rewrite <- string_app_assoc. now apply trimEnd_app. }
  assert (Htrim : Js.trim (pidDigits +:+ body) = pidDigits +:+ body).
  { unfold Js.trim.
    assert (Hstart : Js.trimStart (pidDigits +:+ body) = pidDigits +:+ body).
    { destruct pidDigits as [| d ds] eqn:E; [contradiction |].
      rewrite append_cons. cbn [Js.trimStart].
      pose proof pid_digits as Hd. cbn in Hd. apply andb_true_iff in Hd as [Hd _].
      destruct (ascii_classes d) as (H1 & H2 & _).
      destruct (H2 (H1 Hd)) as (-> & _). reflexivity. }
    rewrite Hstart. apply trimEnd_app; apply Hbody. }
  rewrite Htrim.
  assert (Hpart : hd EmptyString (Js.split_ws (pidDigits +:+ body)) = pidDigits).
  { subst body. apply split_ws_head; [now apply digits_not_space | reflexivity]. }
  rewrite Hpart, substring_from_app.
  assert (Hcmd : ∃ pre, forallb Spec.noDash (list_ascii_of_string pre) = true
                        ∧ Js.trim body = pre +:+ flags).
  { unfold Js.trim. subst body.
    change (String " " ((path +:+ " ") +:+ flags)) with (" " +:+ (path +:+ " ") +:+ flags).
    rewrite <- string_app_assoc.
    assert (Hdash : ∃ r, flags = String "-" r) by (eexists; reflexivity).
    destruct Hdash as [r Hr]. rewrite Hr.
    destruct (trimStart_app "-" r eq_refl (" " +:+ path +:+ " ")) as (pre & q & Hq & ->).
    exists pre. rewrite <- Hr. split.
    - assert (Hall : forallb Spec.noDash (list_ascii_of_string (" " +:+ path +:+ " "))
                     = true).
      { rewrite !list_ascii_of_string_app, !forallb_app, path_chars. reflexivity. }
      rewrite Hq, list_ascii_of_string_app, forallb_app in Hall.
      now apply andb_true_iff in Hall as [_ ->].
    - now apply trimEnd_app. }
  destruct Hcmd as (pre & Hpre & ->). subst flags.
  rewrite (portFlag_port pre Hpre), (portFlag_token pre Hpre). reflexivity.
Qed.

End UnixLine.

(** ** Lines *)

Lemma split_char_nonempty (sep : ascii) (s : string) : Js.split_char sep s ≠ [].
Proof.
  destruct s as [| c s]; cbn [Js.split_char]; [discriminate |].
  destruct (Ascii.eqb c sep); [discriminate |].
  destruct (Js.split_char sep s); discriminate.
Qed.

Lemma split_char_app (sep : ascii) (b : string) :
  ∀ a : string,
    Js.split_char sep (a +:+ String sep b)
    = (Js.split_char sep a ++ Js.split_char sep b)%list.
Proof.
  induction a as [| c a IH].
  - change (EmptyString +:+ String sep b) with (String sep b).
    cbn [Js.split_char]. now rewrite Ascii.eqb_refl.
  - rewrite append_cons. cbn [Js.split_char]. rewrite IH.
    destruct (Ascii.eqb c sep); [reflexivity |].
    pose proof (split_char_nonempty sep a) as Hne.
    destruct (Js.split_char sep a); [contradiction | reflexivity].
Qed.

Lemma split_char_single (sep : ascii) (s : string) :
  forallb (λ c, negb (Ascii.eqb c sep)) (list_ascii_of_string s) = true →
  Js.split_char sep s = [s].
Proof.
  induction s as [| c s IH]; [reflexivity |].
  cbn [list_ascii_of_string forallb]. intros [Hc Hs]%andb_true_iff.
  apply negb_true_iff in Hc. cbn [Js.split_char]. now rewrite Hc, (IH Hs).
Qed.

Lemma split_char_head_prefix (sep : ascii) :
  ∀ (s piece : string) (rest : list string),
    Js.split_char sep s = piece :: rest → ∃ t : string, s = piece +:+ t.
Proof.
  induction s as [| c s IH]; intros piece rest; cbn [Js.split_char].
  - intros [= <- _]. now exists EmptyString.
  - destruct (Ascii.eqb c sep).
    + intros [= <- _]. now exists (String c s).
    + destruct (Js.split_char sep s) as [| p r] eqn:E.
      * now destruct (split_char_nonempty sep s).
      * intros [= <- _]. destruct (IH p r eq_refl) as [t ->].
        exists t. now rewrite append_cons.
Qed.

Lemma includes_empty (s : string) : Js.includes s EmptyString = true.
Proof. now destruct s. Qed.

(** A line of a text holds nothing that the text does not hold. *)
Lemma split_char_includes (sep : ascii) (sub : string) :
  ∀ (s l : string),
    l ∈ Js.split_char sep s → Js.includes l sub = true → Js.includes s sub = true.
Proof.
  induction s as [| c s IH]; intros l; cbn [Js.split_char].
  - now intros ->%list_elem_of_singleton.
  - destruct (Ascii.eqb c sep).
    + intros [-> | Hl]%elem_of_cons Hinc.
      * destruct sub; [apply includes_empty | discriminate].
      * apply includes_tail. now apply (IH l).
    + destruct (Js.split_char sep s) as [| p r] eqn:E;
        [now destruct (split_char_nonempty sep s) |].
      intros [-> | Hl]%elem_of_cons Hinc.
      * cbn [Js.includes] in Hinc |- *.
        apply orb_true_iff in Hinc as [Hst | Hinc].
        -- destruct (split_char_head_prefix sep s p r E) as [t ->].
           unfold Js.startsWith in *.
           rewrite <- append_cons. now rewrite startsWith_app.
        -- rewrite (IH p); [apply orb_true_r | now left | exact Hinc].
      * apply includes_tail. apply (IH l); [now right | exact Hinc].
Qed.

Lemma startsWith_head (sep : ascii) :
  ∀ (sub s : string),
    forallb (λ c, negb (Ascii.eqb c sep)) (list_ascii_of_string sub) = true →
    Js.startsWith s sub = true →
    Js.startsWith (hd EmptyString (Js.split_char sep s)) sub = true.
Proof.
  unfold Js.startsWith.
  induction sub as [| a sub IH]; intros s Hsub Hst; [reflexivity |].
  destruct s as [| c s]; [discriminate |].
  cbn [list_ascii_of_string forallb] in Hsub. apply andb_true_iff in Hsub as [Ha Hsub].
  apply negb_true_iff in Ha.
  cbn [Js.startsWith_by] in Hst. apply andb_true_iff in Hst as [Hac Hst].
  apply Ascii.eqb_eq in Hac as <-.
  cbn [Js.split_char]. rewrite Ha.
  specialize (IH s Hsub Hst). pose proof (split_char_nonempty sep s) as Hne.
  destruct (Js.split_char sep s) as [| p r]; [contradiction |]. cbn [hd] in *.
  cbn [Js.startsWith_by]. now rewrite Ascii.eqb_refl, IH.
Qed.

(** What a text holds and that does not span two lines is held by one of
    its lines. *)
Lemma includes_split_char (sep : ascii) (sub : string) :
  forallb (λ c, negb (Ascii.eqb c sep)) (list_ascii_of_string sub) = true →
  ∀ s : string,
    Js.includes s sub = true →
    ∃ l, l ∈ Js.split_char sep s ∧ Js.includes l sub = true.
Proof.
  intros Hsub. induction s as [| c s IH]; intros Hinc.
  - exists EmptyString. split; [now left | exact Hinc].
  - cbn [Js.includes] in Hinc. apply orb_true_iff in Hinc as [Hst | Hinc].
    + pose proof (startsWith_head sep sub (String c s) Hsub Hst) as Hhead.
      pose proof (split_char_nonempty sep (String c s)) as Hne.
      destruct (Js.split_char sep (String c s)) as [| p r]; [contradiction |].
      exists p. split; [now left |]. cbn [hd] in Hhead.
      destruct p; cbn [Js.includes]; now rewrite Hhead.
    + destruct (IH Hinc) as (l & Hl & Hlinc). cbn [Js.split_char].
      destruct (Ascii.eqb c sep); [exists l; split; [now right | exact Hlinc] |].
      destruct (Js.split_char sep s) as [| p r]; [inversion Hl |].
      apply elem_of_cons in Hl as [-> | Hl].
      * exists (String c p). split; [now left | now apply includes_tail].
      * exists l. split; [now right | exact Hlinc].
Qed.

Lemma includes_app_r (sub t : string) :
  ∀ p : string, Js.includes t sub = true → Js.includes (p +:+ t) sub = true.
Proof.
  induction p as [| c p IH]; intros Ht; [exact Ht |].
  rewrite append_cons. apply includes_tail. now apply IH.
Qed.

Lemma includes_prefix (sub t : string) : Js.includes (sub +:+ t) sub = true.
Proof.
  pose proof (startsWith_self sub t) as Hs.
  destruct (sub +:+ t); cbn [Js.includes]; unfold Js.startsWith; now rewrite Hs.
Qed.

Lemma unix_parseLines_none (lines : list string) :
  UnixStrategy.parseLines lines = None
  ↔ ∀ l, l ∈ lines → Js.includes l "--extension_server_port" = false.
Proof.
  induction lines as [| line lines IH]; cbn [UnixStrategy.parseLines].
  - split; [intros _ l Hl; inversion Hl | reflexivity].
  - destruct (Js.includes line "--extension_server_port") eqn:E.
    + split; [discriminate |]. intros Hall. rewrite (Hall line) in E by now left.
      discriminate.
    + rewrite IH. split.
      * intros Hall l [-> | Hl]%elem_of_cons; auto.
      * intros Hall l Hl. apply Hall. now right.
Qed.

Lemma unix_parseLines_some (lines : list string) (found : ProcessMatch (option Z)) :
  UnixStrategy.parseLines lines = Some found →
  ∃ before line after,
    lines = (before ++ line :: after)%list
    ∧ (∀ l, l ∈ before → Js.includes l "--extension_server_port" = false)
    ∧ Js.includes line "--extension_server_port" = true
    ∧ found = UnixStrategy.parseLine line.
Proof.
  induction lines as [| line lines IH]; cbn [UnixStrategy.parseLines]; [discriminate |].
  destruct (Js.includes line "--extension_server_port") eqn:E.
  - intros [= <-]. exists [], line, lines. split; [reflexivity |].
    split; [intros l Hl; inversion Hl | auto].
  - intros (before & l0 & after & -> & Hbefore & Hl0 & ->)%IH.
    exists (line :: before), l0, after. split; [reflexivity |].
    split; [| auto]. intros l [-> | Hl]%elem_of_cons; auto.
Qed.

(** Property X17. The Unix [parseProcessInfo] returns no match exactly when
    the output does not contain the text [--extension_server_port]; a match
    is what the first line containing that text gives. *)
Theorem unix_parseProcessInfo_none (stdout : string) :
  (UnixStrategy.parseProcessInfo stdout = None
   ↔ Js.includes stdout "--extension_server_port" = false)
  ∧ ∀ found,
      UnixStrategy.parseProcessInfo stdout = Some found →
      ∃ before line after,
        Js.split_char "010" stdout = (before ++ line :: after)%list
        ∧ (∀ l, l ∈ before → Js.includes l "--extension_server_port" = false)
        ∧ Js.includes line "--extension_server_port" = true
        ∧ found = UnixStrategy.parseLine line.
Proof.
  split; [| intros found; apply unix_parseLines_some].
  unfold UnixStrategy.parseProcessInfo. rewrite unix_parseLines_none. split.
  - intros Hall.
    destruct (Js.includes stdout "--extension_server_port") eqn:E; [| reflexivity].
    apply (includes_split_char "010") in E as (l & Hl & Hinc); [| reflexivity].
    rewrite (Hall l Hl) in Hinc. discriminate.
  - intros Hno l Hl.
    destruct (Js.includes l "--extension_server_port") eqn:E; [| reflexivity].
    rewrite (split_char_includes _ _ _ _ Hl E) in Hno. discriminate.
Qed.

(** Property X18. The Unix [parseProcessInfo] reads back a line of the
    process list. For a process id and a port that are not negative, a path
    without hyphen and line feed, and a non-empty token of letters, digits
    and hyphens, the line made of the id, the path, the port flag and the
    token flag, both written with [=], gives that id, port and token: as a
    line of its own, followed by other lines, and preceded by text that does
    not contain the port flag. *)
Theorem unix_parseProcessInfo_round_trip (pid port : Z) (path token before after : string) :
  0 <= pid → 0 <= port →
  forallb Spec.lineChar (list_ascii_of_string path) = true →
  token ≠ EmptyString →
  forallb UnixStrategy.isTokenChar (list_ascii_of_string token) = true →
  Js.includes before "--extension_server_port" = false →
  let line :=
    pretty pid +:+ " " +:+ path +:+ " --extension_server_port=" +:+ pretty port
    +:+ " --csrf_token=" +:+ token in
  let found := {| pid := Some pid; extensionPort := port; csrfToken := token |} in
  UnixStrategy.parseLine line = found
  ∧ UnixStrategy.parseProcessInfo line = Some found
  ∧ UnixStrategy.parseProcessInfo (line +:+ String "010" after) = Some found
  ∧ UnixStrategy.parseProcessInfo (before +:+ String "010" (line +:+ String "010" after))
    = Some found.
Proof.
  intros Hpid Hport Hpath Htoken Hchars Hbefore line found.
  destruct (pretty_digits pid Hpid) as (Hpne & Hpd & Hpv).
  destruct (pretty_digits port Hport) as (Hqne & Hqd & Hqv).
  assert (Hdash : forallb Spec.noDash (list_ascii_of_string path) = true).
  { revert Hpath. apply forallb_weaken. intros c Hc. unfold Spec.lineChar in Hc.
    unfold Spec.noDash. now apply andb_true_iff in Hc as [-> _]. }
  assert (Hparse : UnixStrategy.parseLine line = found).
  { subst line found.
    pose proof (parseLine_unixLine (pretty pid) path (pretty port) token
                  Hpd Hpne Hqd Hqne Hdash Hchars Htoken) as Hl.
    unfold Spec.unixLine in Hl. rewrite Hl, Hpv, Hqv. reflexivity. }
  assert (Hinc : Js.includes line "--extension_server_port" = true).
  { assert (Heq : line
                  = (pretty pid +:+ " " +:+ path +:+ " ")
                    +:+ "--extension_server_port"
                    +:+ "=" +:+ pretty port +:+ " --csrf_token=" +:+ token).
    { subst line. rewrite !string_app_assoc. reflexivity. }
    rewrite Heq. apply includes_app_r, includes_prefix. }
  assert (Hsingle : Js.split_char "010" line = [line]).
  { apply split_char_single. subst line.
    rewrite !list_ascii_of_string_app, !forallb_app.
    assert (Hd : ∀ d, forallb Js.isDigit (list_ascii_of_string d) = true →
                   forallb (λ c, negb (Ascii.eqb c "010")) (list_ascii_of_string d) = true).
    { intros d. apply forallb_weaken. intros c Hc. apply negb_true_iff.
      now apply (ascii_classes c), (ascii_classes c). }
    rewrite (Hd _ Hpd), (Hd _ Hqd).
    assert (Hp : forallb (λ c, negb (Ascii.eqb c "010")) (list_ascii_of_string path) = true).
    { revert Hpath. apply forallb_weaken. intros c Hc. unfold Spec.lineChar in Hc.
      now apply andb_true_iff in Hc as [_ ->]. }
    assert (Ht : forallb (λ c, negb (Ascii.eqb c "010")) (list_ascii_of_string token) = true).
    { revert Hchars. apply forallb_weaken. intros c Hc. apply negb_true_iff.
      now apply (ascii_classes c). }
    rewrite Hp, Ht. reflexivity. }
  split; [exact Hparse |]. unfold UnixStrategy.parseProcessInfo.
  split; [| split].
  - rewrite Hsingle. cbn [UnixStrategy.parseLines]. now rewrite Hinc, Hparse.
  - rewrite split_char_app, Hsingle. cbn [app UnixStrategy.parseLines].
    now rewrite Hinc, Hparse.
  - rewrite !split_char_app, Hsingle. cbn [app].
    rewrite unix_parseLines_first; [now rewrite Hparse | | exact Hinc].
    intros l Hl. destruct (Js.includes l "--extension_server_port") eqn:E; [| reflexivity].
    rewrite (split_char_includes _ _ _ _ Hl E) in Hbefore. discriminate.
Qed.

(** ** What the strategies return *)

Lemma flag_here_capture (ci : bool) (flag : string) (value : ascii → bool)
    (s capture : string) :
  Js.flag_here ci flag value s = Some capture →
  capture ≠ EmptyString ∧ forallb value (list_ascii_of_string capture) = true.
Proof.
  unfold Js.flag_here. destruct (Js.startsWith_by _ s flag); [| discriminate].
  destruct (Js.span Js.isFlagSep _) as [seps rest].
  destruct seps; [discriminate |].
  pose proof (span_forall value rest) as Hall.
  destruct (Js.span value rest) as [run ?]. cbn [fst] in Hall.
  destruct run; [discriminate |]. intros [= <-]. split; [discriminate | exact Hall].
Qed.

Lemma match_flag_capture (ci : bool) (flag : string) (value : ascii → bool)
    (capture : string) :
  ∀ s : string,
    Js.match_flag ci flag value s = Some capture →
    capture ≠ EmptyString ∧ forallb value (list_ascii_of_string capture) = true.
Proof.
  induction s as [| c s IH]; cbn [Js.match_flag];
    destruct (Js.flag_here ci flag value _) eqn:E;
    try discriminate; try (intros [= <-]; eapply flag_here_capture; eassumption).
  exact IH.
Qed.

Lemma port_of_flag_nonneg (commandLine : string) :
  0 <= match Js.match_flag false "--extension_server_port" Js.isDigit commandLine with
       | Some digits => default 0 (Js.parseInt digits)
       | None => 0
       end.
Proof.
  destruct (Js.match_flag false _ _ commandLine) as [digits |] eqn:E; [| lia].
  apply match_flag_capture in E as [Hne Hall].
  destruct (parseInt_digits digits Hne Hall) as [-> Hpos]. exact Hpos.
Qed.


Section Matches.
Import WindowsStrategy.
Context `{Host}.

Lemma matchOfCommandLine_wellFormed {P} (p : P) (commandLine : string)
    (found : ProcessMatch P) :
  matchOfCommandLine p commandLine = Some found → Spec.wellFormed isHexTokenChar found.
Proof.
  unfold matchOfCommandLine.
  destruct (Js.match_flag true "--csrf_token" isHexTokenChar commandLine) as [t |] eqn:E;
    [| discriminate].
  intros [= <-]. apply match_flag_capture in E as [Hne Hall].
  split; [apply port_of_flag_nonneg |]. split; assumption.
Qed.

Lemma matchOfRecord_wellFormed (data : Json) (found : ProcessMatch Json) :
  matchOfRecord data = inr (Some found) → Spec.wellFormed isHexTokenChar found.
Proof.
  unfold matchOfRecord.
  destruct (getProperty data "CommandLine") as [e | cl]; [discriminate |].
  destruct (getProperty data "ProcessId") as [e | p]; [discriminate |].
  destruct (negb (truthy p)); [discriminate |].
  intros [= Hm]. eapply matchOfCommandLine_wellFormed; eassumption.
Qed.

Lemma parsePowerShell_wellFormed (stdout : string) (found : ProcessMatch Json) :
  parsePowerShell stdout = inr (Some found) → Spec.wellFormed isHexTokenChar found.
Proof.
  unfold parsePowerShell.
  destruct (JSON_parse (Js.trim stdout)) as [data |]; [| discriminate].
  assert (Hother : match hasAntigravityCommandLine data with
                   | inl e => inl e
                   | inr false => inr None
                   | inr true => matchOfRecord data
                   end = inr (Some found) → Spec.wellFormed isHexTokenChar found).
  { destruct (hasAntigravityCommandLine data) as [e | [|]]; try discriminate.
    apply matchOfRecord_wellFormed. }
  destruct data as [| b | q | s | items | fields]; try exact Hother.
  destruct items as [| item items]; [discriminate |].
  destruct (filterAntigravity (item :: items)) as [e | [| first kept]]; try discriminate.
  apply matchOfRecord_wellFormed.
Qed.

Lemma parseWmic_wellFormed (stdout : string) (found : ProcessMatch Json) :
  parseWmic stdout = Some found →
  Spec.wellFormed isHexTokenChar found
  ∧ ∃ n : Z, 0 <= n ∧ pid found = JNumber (inject_Z n).
Proof.
  unfold parseWmic.
  generalize (filter (λ block, (0 < String.length (Js.trim block))%nat)
                     (Js.split_blankLines stdout)).
  intros blocks.
  induction blocks as [| block blocks IH]; cbn [parseBlocks]; [discriminate |].
  destruct (parseBlock block) as [m |] eqn:E; [| exact IH].
  intros [= ->]. unfold parseBlock in E.
  destruct (Js.match_literal_run "ProcessId=" _ block) as [pidDigits |] eqn:Ep;
    [| discriminate].
  destruct (Js.match_literal_run "CommandLine=" _ block); [| discriminate].
  destruct (negb _); [discriminate |].
  split; [eapply matchOfCommandLine_wellFormed; eassumption |].
  assert (Hpid : pidDigits ≠ EmptyString
                 ∧ forallb Js.isDigit (list_ascii_of_string pidDigits) = true).
  { clear - Ep. induction block as [| c block IH]; cbn [Js.match_literal_run] in Ep.
    - unfold Js.literal_run_here in Ep. cbn in Ep. discriminate.
    - destruct (Js.literal_run_here "ProcessId=" Js.isDigit (String c block)) as [r |] eqn:E.
      + injection Ep as ->. unfold Js.literal_run_here in E.
        destruct (Js.startsWith _ _); [| discriminate].
        pose proof (span_forall Js.isDigit
                      (Js.substring_from (String.length "ProcessId=") (String c block)))
          as Hall.
        destruct (Js.span Js.isDigit _) as [run rest]. cbn [fst] in Hall.
        destruct run; [discriminate |]. injection E as <-.
        split; [discriminate | exact Hall].
      + now apply IH. }
  destruct Hpid as [Hne Hall].
  destruct (parseInt_digits pidDigits Hne Hall) as [Hp Hpos].
  unfold matchOfCommandLine in E. rewrite Hp in E.
  destruct (Js.match_flag true _ _ _); [| discriminate].
  injection E as <-. cbn [pid]. eauto.
Qed.

End Matches.

(** Property X19. What the strategies return. The port of a match is never
    negative. On Unix the token is a run, possibly empty, of letters, digits
    and hyphens; on Windows it is a non-empty run of hexadecimal digits and
    hyphens. The process id of a match found in the WMIC format is a number
    that is not negative. *)
Theorem process_match_wellFormed :
  (∀ (stdout : string) (found : ProcessMatch (option Z)),
     UnixStrategy.parseProcessInfo stdout = Some found →
     0 <= extensionPort found
     ∧ forallb UnixStrategy.isTokenChar (list_ascii_of_string (csrfToken found)) = true)
  ∧ (∀ (host : Host) (stdout : string) (found : ProcessMatch Json),
       WindowsStrategy.parseProcessInfo stdout = Some found →
       0 <= extensionPort found
       ∧ csrfToken found ≠ EmptyString
       ∧ forallb WindowsStrategy.isHexTokenChar (list_ascii_of_string (csrfToken found))
         = true)
  ∧ (∀ (stdout : string) (found : ProcessMatch Json),
       WindowsStrategy.parseWmic stdout = Some found →
       ∃ n : Z, 0 <= n ∧ pid found = JNumber (inject_Z n)).
Proof.
  split; [| split].
  - intros stdout found (before & line & after & _ & _ & _ & ->)%unix_parseLines_some.
    unfold UnixStrategy.parseLine. cbn [extensionPort csrfToken].
    split; [apply port_of_flag_nonneg |].
    destruct (Js.match_flag false "--csrf_token" _ _) as [t |] eqn:E; [| reflexivity].
    now apply match_flag_capture in E as [_ Hall].
  - intros host stdout found. unfold WindowsStrategy.parseProcessInfo.
    destruct (WindowsStrategy.usePowerShell || _ || _);
      [| intros Hw; now apply parseWmic_wellFormed in Hw as [Hw _]].
    destruct (WindowsStrategy.parsePowerShell stdout) as [e | result] eqn:E.
    + intros Hw. now apply parseWmic_wellFormed in Hw as [Hw _].
    + intros ->. eapply parsePowerShell_wellFormed. eassumption.
  - intros stdout found Hw. now apply parseWmic_wellFormed in Hw as [_ Hp].
Qed.


(** ** Process detector *)

Section Detector.
Import ProcessDetector.
Context {P : Type} `{PlatformStrategy P} (world : World P).

Lemma findWorkingPort_spec (i : nat) (token : string) (ports : list Z) (port : Z) :
  findWorkingPort world i ports token = Some port ↔
  ∃ before after : list Z,
    ports = (before ++ port :: after)%list
    ∧ (∀ p, p ∈ before → answers world i p token = false)
    ∧ answers world i port token = true.
Proof.
  induction ports as [| q ports IH]; cbn [findWorkingPort].
  - split; [discriminate |]. intros ([| ? ?] & ? & [=] & _).
  - destruct (answers world i q token) eqn:Hq.
    + split.
      * intros [= <-]. exists [], ports. split; [reflexivity |].
        split; [intros p Hp; inversion Hp | exact Hq].
      * intros (before & after & Hdec & Hno & Hyes).
        destruct before as [| b before]; cbn in Hdec.
        -- now injection Hdec as ->.
        -- injection Hdec as <- _. rewrite (Hno q) in Hq by now left. discriminate.
    + rewrite IH. split.
      * intros (before & after & -> & Hno & Hyes).
        exists (q :: before), after. split; [reflexivity |]. split; [| exact Hyes].
        intros p [-> | Hp]%elem_of_cons; auto.
      * intros (before & after & Hdec & Hno & Hyes).
        destruct before as [| b before]; cbn in Hdec.
        -- injection Hdec as -> _. congruence.
        -- injection Hdec as <- ->. exists before, after.
           split; [reflexivity |]. split; [| exact Hyes].
           intros p Hp. apply Hno. now right.
Qed.

Lemma attempt_found (i : nat) (info : ProcessInfo P) :
  attempt world i = Some info →
  ∃ (stdout : string) (found : ProcessMatch P) (before after : list Z),
    processList world i = Some stdout
    ∧ parseProcessInfo stdout = Some found
    ∧ info_pid info = pid found
    ∧ info_extensionPort info = extensionPort found
    ∧ info_csrfToken info = csrfToken found
    ∧ getListeningPorts world i (pid found) = (before ++ connectPort info :: after)%list
    ∧ (∀ p, p ∈ before → answers world i p (csrfToken found) = false)
    ∧ answers world i (connectPort info) (csrfToken found) = true
    ∧ connectPort info ≠ 0.
Proof.
  unfold attempt.
  destruct (processList world i) as [stdout |]; [| discriminate].
  destruct (parseProcessInfo stdout) as [found |] eqn:Hparse; [| discriminate].
  destruct (0 <? List.length _)%nat; [| discriminate].
  destruct (findWorkingPort world i _ (csrfToken found)) as [port |] eqn:Hfind;
    [| discriminate].
  destruct (Z.eqb_spec port 0) as [| Hnz]; [discriminate |].
  intros [= <-]. cbn.
  apply findWorkingPort_spec in Hfind as (before & after & Hdec & Hno & Hyes).
  exists stdout, found, before, after. repeat split; assumption.
Qed.

Lemma detect_from_spec (remaining : nat) :
  ∀ (i : nat) (info : ProcessInfo P),
    detect_from world i remaining = Some info ↔
    ∃ k : nat,
      (k < remaining)%nat
      ∧ attempt world (i + k) = Some info
      ∧ ∀ j : nat, (j < k)%nat → attempt world (i + j) = None.
Proof.
  induction remaining as [| remaining IH]; intros i info; cbn [detect_from].
  - split; [discriminate | intros (k & Hk & _); lia].
  - destruct (attempt world i) as [found |] eqn:Ha.
    + split.
      * intros [= <-]. exists 0%nat. rewrite Nat.add_0_r.
        split; [lia |]. split; [exact Ha | intros j Hj; lia].
      * intros (k & Hk & Hyes & Hno). destruct k as [| k].
        -- rewrite Nat.add_0_r in Hyes. congruence.
        -- specialize (Hno 0%nat ltac:(lia)). rewrite Nat.add_0_r in Hno. congruence.
    + rewrite IH. split.
      * intros (k & Hk & Hyes & Hno). exists (S k).
        split; [lia |]. split; [now rewrite Nat.add_succ_r |].
        intros [| j] Hj; [now rewrite Nat.add_0_r |].
        rewrite Nat.add_succ_r. apply Hno. lia.
      * intros (k & Hk & Hyes & Hno). destruct k as [| k].
        -- rewrite Nat.add_0_r in Hyes. congruence.
        -- exists k. split; [lia |]. rewrite Nat.add_succ_r in Hyes.
           split; [exact Hyes |]. intros j Hj.
           specialize (Hno (S j) ltac:(lia)). now rewrite Nat.add_succ_r in Hno.
Qed.

Lemma detect_from_none (remaining : nat) :
  ∀ i : nat,
    detect_from world i remaining = None ↔
    ∀ k : nat, (k < remaining)%nat → attempt world (i + k) = None.
Proof.
  induction remaining as [| remaining IH]; intros i; cbn [detect_from].
  - split; [intros _ k Hk; lia | reflexivity].
  - destruct (attempt world i) as [found |] eqn:Ha.
    + split; [discriminate |]. intros Hall.
      specialize (Hall 0%nat ltac:(lia)). rewrite Nat.add_0_r in Hall. congruence.
    + rewrite IH. split.
      * intros Hall [| k] Hk; [now rewrite Nat.add_0_r |].
        rewrite Nat.add_succ_r. apply Hall. lia.
      * intros Hall k Hk. specialize (Hall (S k) ltac:(lia)).
        now rewrite Nat.add_succ_r in Hall.
Qed.

(** Property X20. What [detect] returns comes from the first attempt that
    succeeds: the process list of that attempt parses to a match whose
    process id, extension port and token are returned, and the connect port
    is the first of the listening ports of that process, in the order of
    [parseListeningPorts], that answers the probe made with the token; it is
    not 0. Every earlier attempt failed. *)
Theorem detect_found (maxRetries : nat) (info : ProcessInfo P) :
  detect world maxRetries = Some info →
  ∃ (i : nat) (stdout : string) (found : ProcessMatch P) (before after : list Z),
    (i < maxRetries)%nat
    ∧ (∀ j : nat, (j < i)%nat → attempt world j = None)
    ∧ processList world i = Some stdout
    ∧ parseProcessInfo stdout = Some found
    ∧ info_pid info = pid found
    ∧ info_extensionPort info = extensionPort found
    ∧ info_csrfToken info = csrfToken found
    ∧ getListeningPorts world i (pid found) = (before ++ connectPort info :: after)%list
    ∧ (∀ p, p ∈ before → answers world i p (csrfToken found) = false)
    ∧ answers world i (connectPort info) (csrfToken found) = true
    ∧ connectPort info ≠ 0.
Proof.
  unfold detect. intros (k & Hk & Hyes & Hno)%detect_from_spec. cbn in Hyes, Hno.
  destruct (attempt_found k info Hyes)
    as (stdout & found & before & after & H1 & H2 & H3 & H4 & H5 & H6 & H7 & H8 & H9).
  exists k, stdout, found, before, after. repeat split; assumption.
Qed.

(** Property X21. [detect] returns nothing exactly when every one of its
    attempts fails, and a detection that succeeds is not changed by allowing
    more attempts. An attempt fails when the process-list command fails, and
    when the port-list command fails for the process found. *)
Theorem detect_retries (maxRetries : nat) :
  (detect world maxRetries = None ↔
     ∀ i : nat, (i < maxRetries)%nat → attempt world i = None)
  ∧ (∀ (info : ProcessInfo P) (more : nat),
       detect world maxRetries = Some info →
       detect world (maxRetries + more) = Some info)
  ∧ (∀ i : nat, processList world i = None → attempt world i = None)
  ∧ (∀ (i : nat) (stdout : string) (found : ProcessMatch P),
       processList world i = Some stdout →
       parseProcessInfo stdout = Some found →
       portList world i (pid found) = None →
       attempt world i = None).
Proof.
  split; [| split; [| split]].
  - unfold detect. apply detect_from_none.
  - unfold detect. intros info more (k & Hk & Hyes & Hno)%detect_from_spec.
    apply detect_from_spec. exists k. split; [lia | auto].
  - intros i Hp. unfold attempt. now rewrite Hp.
  - intros i stdout found Hp Hparse Hports. unfold attempt, getListeningPorts.
    rewrite Hp, Hparse, Hports. reflexivity.
Qed.

End Detector.

Section SortedStrategy.
Import ProcessDetector.
Context {P : Type} `{PlatformStrategy P} (world : World P).
Hypothesis ports_ascending :
  ∀ stdout : string,
    StronglySorted Z.lt (parseListeningPorts stdout)
    ∧ Forall (λ p, 0 <= p) (parseListeningPorts stdout).

Lemma getListeningPorts_ascending (i : nat) (p : P) :
  StronglySorted Z.lt (getListeningPorts world i p)
  ∧ Forall (λ q, 0 <= q) (getListeningPorts world i p).
Proof.
  unfold getListeningPorts. destruct (portList world i p); [apply ports_ascending |].
  split; constructor.
Qed.

Lemma detect_lowest (maxRetries : nat) (info : ProcessInfo P) :
  detect world maxRetries = Some info →
  0 < connectPort info
  ∧ ∃ i : nat,
      (i < maxRetries)%nat
      ∧ Spec.lowestAnsweringPort world i (info_pid info) (info_csrfToken info)
          (connectPort info).
Proof.
  unfold detect. intros (i & Hi & Hfound & _)%detect_from_spec. cbn in Hfound.
  destruct (attempt_found world i info Hfound)
    as (stdout & found & before & after & _ & _ & Hpid & _ & Htok
        & Hports & Hno & Hyes & Hnz).
  destruct (getListeningPorts_ascending i (pid found)) as [Hsorted Hpos].
  rewrite Hports in Hsorted, Hpos.
  assert (Hin : connectPort info ∈ (before ++ connectPort info :: after)%list).
  { apply elem_of_app. right. now left. }
  split.
  { rewrite Forall_forall in Hpos. specialize (Hpos _ Hin). lia. }
  exists i. split; [exact Hi |]. unfold Spec.lowestAnsweringPort.
  rewrite Hpid, Htok, Hports. split; [exact Hin |]. split; [exact Hyes |].
  intros q Hq Hans.
  apply elem_of_app in Hq as [Hq | Hq].
  - rewrite (Hno q Hq) in Hans. discriminate.
  - apply elem_of_cons in Hq as [-> | Hq]; [lia |].
    apply StronglySorted_app_1_r in Hsorted.
    apply StronglySorted_inv in Hsorted as [_ Hlt].
    rewrite Forall_forall in Hlt. specialize (Hlt q Hq). lia.
Qed.

End SortedStrategy.

(** Property X22. With the Windows and with the Unix strategies, the connect
    port that [detect] returns is positive and is the lowest of the ports,
    on which the process listens during some attempt, that answer the probe
    made with the token. *)
Theorem detect_lowest_port :
  (∀ (host : Host) (world : ProcessDetector.World Json) (maxRetries : nat)
     (info : ProcessDetector.ProcessInfo Json),
     ProcessDetector.detect (H := ProcessDetector.windowsStrategy) world maxRetries
     = Some info →
     0 < ProcessDetector.connectPort info
     ∧ ∃ i : nat,
         (i < maxRetries)%nat
         ∧ Spec.lowestAnsweringPort (H := ProcessDetector.windowsStrategy) world i
             (ProcessDetector.info_pid info) (ProcessDetector.info_csrfToken info)
             (ProcessDetector.connectPort info))
  ∧ (∀ (platform : UnixStrategy.Platform) (world : ProcessDetector.World (option Z))
       (maxRetries : nat) (info : ProcessDetector.ProcessInfo (option Z)),
       ProcessDetector.detect (H := ProcessDetector.unixStrategy platform) world maxRetries
       = Some info →
       0 < ProcessDetector.connectPort info
       ∧ ∃ i : nat,
           (i < maxRetries)%nat
           ∧ Spec.lowestAnsweringPort (H := ProcessDetector.unixStrategy platform) world i
               (ProcessDetector.info_pid info) (ProcessDetector.info_csrfToken info)
               (ProcessDetector.connectPort info)).
Proof.
  split.
  - intros host world maxRetries info.
    apply (detect_lowest (H := ProcessDetector.windowsStrategy)).
    exact windows_ports_sorted.
  - intros platform world maxRetries info.
    apply (detect_lowest (H := ProcessDetector.unixStrategy platform)).
    exact (unix_ports_sorted platform).
Qed.

(** Property X23. Detector and quota client together. On Windows, a quota
    client that is given the connect port and the token of a detected
    process is configured. On Unix it is configured exactly when the token
    of the detected process is not empty. *)
Theorem detect_configures (st : QuotaService.State) :
  (∀ (host : Host) (world : ProcessDetector.World Json) (maxRetries : nat)
     (info : ProcessDetector.ProcessInfo Json),
     ProcessDetector.detect (H := ProcessDetector.windowsStrategy) world maxRetries
     = Some info →
     QuotaService.isConfigured
       (QuotaService.setConnection st (ProcessDetector.connectPort info)
          (ProcessDetector.info_csrfToken info)) = true)
  ∧ (∀ (platform : UnixStrategy.Platform) (world : ProcessDetector.World (option Z))
       (maxRetries : nat) (info : ProcessDetector.ProcessInfo (option Z)),
       ProcessDetector.detect (H := ProcessDetector.unixStrategy platform) world maxRetries
       = Some info →
       QuotaService.isConfigured
         (QuotaService.setConnection st (ProcessDetector.connectPort info)
            (ProcessDetector.info_csrfToken info))
       = negb (String.eqb (ProcessDetector.info_csrfToken info) EmptyString)).
Proof.
  split.
  - intros host world maxRetries info Hd.
    destruct (detect_lowest (H := ProcessDetector.windowsStrategy) world
                windows_ports_sorted maxRetries info Hd) as [Hpos _].
    unfold ProcessDetector.detect in Hd.
    apply detect_from_spec in Hd as (i & _ & Hfound & _).
    cbn in Hfound.
    destruct (attempt_found (H := ProcessDetector.windowsStrategy) world i info Hfound)
      as (stdout & found & _ & _ & _ & Hparse & _ & _ & Htok & _).
    cbn in Hparse. apply windows_match_has_token in Hparse.
    unfold QuotaService.isConfigured. cbn. rewrite Htok.
    apply andb_true_iff. split; [now apply Z.ltb_lt |].
    destruct (csrfToken found); [contradiction | reflexivity].
  - intros platform world maxRetries info Hd.
    destruct (detect_lowest (H := ProcessDetector.unixStrategy platform) world
                (unix_ports_sorted platform) maxRetries info Hd) as [Hpos _].
    unfold QuotaService.isConfigured. cbn.
    replace (0 <? ProcessDetector.connectPort info) with true
      by (symmetry; now apply Z.ltb_lt).
    now destruct (ProcessDetector.info_csrfToken info).
Qed.

(** ** The further statements on the data of the examples *)

Lemma first_analysis_quiet_witness :
  Forall (λ r, isActive (insights r) = false ∧ burnRate (insights r) = 0%Q)
    (modelsWithInsights
       (InsightsService.analyze (Examples.stopped Examples.hour) (InsightsService.init 0)
          Examples.tiedSnapshot).1)
  ∧ InsightsService.lastActiveModelId
      (InsightsService.analyze (Examples.stopped Examples.hour) (InsightsService.init 0)
         Examples.tiedSnapshot).2 = None.
Proof.
  destruct (first_analysis_quiet 0 (Examples.stopped Examples.hour) Examples.tiedSnapshot) as [Hall Hnone].
  split; [| exact Hnone].
  apply Forall_forall. intros r Hr. destruct (Hall r Hr) as (Hrate & Hactive & _).
  split; assumption.
Defined.

Lemma burn_rate_since_oldest_witness :
  (burnRate (insights Examples.handoverFirst) == 10)%Q.
Proof.
  destruct (burn_rate_since_oldest (Examples.stopped (2 * Examples.hour))
              Examples.handoverEngine
              Examples.handoverSnapshot Examples.handoverOldest [Examples.handoverNewest]
              Examples.handoverFirst 100) as [Hrate _].
  - vm_compute. reflexivity.
  - vm_compute. lia.
  - apply (bool_decide_unpack _). vm_compute. exact I.
  - apply list_elem_of_lookup_2 with 0%nat. vm_compute. reflexivity.
  - vm_compute. reflexivity.
  - destruct Hrate as [Hrate _]; [vm_compute; reflexivity |].
    rewrite Hrate. vm_compute. reflexivity.
Defined.

Lemma session_baseline_witness :
  InsightsService.sessionStartQuotas
    (InsightsService.analyze (Examples.stopped Examples.hour) Examples.seenEngine Examples.laterSnapshot).2
  !! "a" = Some 100%Q
  ∧ InsightsService.sessionStartQuotas
      (InsightsService.analyze (Examples.stopped Examples.hour) Examples.seenEngine Examples.laterSnapshot).2
    !! "b" = Some 80%Q.
Proof.
  destruct (session_baseline (Examples.stopped Examples.hour) Examples.seenEngine
              Examples.laterSnapshot)
    as (Hkeep & Hfirst & _).
  split.
  - apply Hkeep. vm_compute. reflexivity.
  - apply (Hfirst [Examples.mockModel "a" 60] (Examples.mockModel "b" 80) []).
    + reflexivity.
    + vm_compute. reflexivity.
    + intros m Hm. apply list_elem_of_singleton in Hm as ->. discriminate.
Defined.

Lemma session_usage_spec_witness :
  Forall (λ r, (0 <= sessionUsage (insights r))%Q)
    (modelsWithInsights
       (InsightsService.analyze (Examples.stopped Examples.hour) Examples.seenEngine
          Examples.laterSnapshot).1)
  ∧ 0 <= totalSessionUsage
           (InsightsService.analyze (Examples.stopped Examples.hour) Examples.seenEngine
              Examples.laterSnapshot).1.
Proof.
  destruct (session_usage_spec (Examples.stopped Examples.hour) Examples.seenEngine
              Examples.laterSnapshot)
    as (Hall & _ & Htotal).
  split; [| exact Htotal].
  apply Forall_forall. intros r Hr. destruct (Hall r Hr) as (base & _ & _ & Hpos).
  exact Hpos.
Defined.

Lemma session_usage_bounded_witness :
  0 <= totalSessionUsage
         (InsightsService.analyze (Examples.stopped Examples.hour) (InsightsService.init 0)
            Examples.laterSnapshot).1 <= 100.
Proof.
  destruct (session_usage_bounded (Examples.stopped Examples.hour) (InsightsService.init 0)
              Examples.laterSnapshot) as (_ & Htotal & _).
  - intros id v Hv.
    change (InsightsService.sessionStartQuotas (InsightsService.init 0))
      with (∅ : gmap string Q) in Hv.
    rewrite lookup_empty in Hv. discriminate.
  - intros m Hm. repeat (apply elem_of_cons in Hm as [-> | Hm]);
      [| | inversion Hm]; vm_compute; split; discriminate.
  - exact Htotal.
Defined.

Lemma overall_health_range_witness :
  60 <= overallHealth
          (InsightsService.analyze (Examples.stopped Examples.hour) (InsightsService.init 0)
             Examples.laterSnapshot).1 <= 80.
Proof.
  destruct (overall_health_range (Examples.stopped Examples.hour) (InsightsService.init 0)
              Examples.laterSnapshot) as [_ Hrange].
  destruct (Hrange ltac:(discriminate)) as [_ Hbounds].
  apply Hbounds. intros m Hm.
  repeat (apply elem_of_cons in Hm as [-> | Hm]);
    [| | inversion Hm]; vm_compute; split; discriminate.
Defined.

Lemma trend_monotone_witness :
  (Spec.severity (InsightsService.getTrendDirection 50 1)
   ≤ Spec.severity (InsightsService.getTrendDirection 20 12))%nat.
Proof. apply trend_monotone; vm_compute; discriminate. Defined.

Lemma poll_outcome_witness :
  (QuotaService.poll (H := exampleHost) Examples.configuredClient
     (QuotaService.Resolved Examples.creditsResponse) (Examples.stopped 0)).1
  = inr (QuotaService.parseModels (H := exampleHost) (Examples.stopped 0) 0
           Examples.creditsEntries).1.
Proof.
  destruct (poll_outcome (H := exampleHost) Examples.configuredClient
              (QuotaService.Resolved Examples.creditsResponse) (Examples.stopped 0))
    as (Hiff & _).
  apply Hiff. split; [reflexivity |].
  exists Examples.creditsResponse,
    (Examples.rawStatus (Some Examples.creditsPlan) Examples.creditsEntries).
  repeat split.
Defined.

Lemma parseResponse_resources_witness :
  timestamp (Examples.parsed 0 Examples.creditsResponse) = 0
  ∧ map label (models (Examples.parsed 0 Examples.creditsResponse))
    = ["Claude 3.5 Sonnet"; "GPT-4"; "Gemini Pro"].
Proof.
  destruct (parseResponse_resources (H := exampleHost) (Examples.stopped 0)
              Examples.creditsResponse
              (Examples.parsed 0 Examples.creditsResponse)
              ltac:(vm_compute; reflexivity)) as (k & Htime & _ & Hlabels & _).
  split; [exact Htime |]. rewrite Hlabels. reflexivity.
Defined.

Lemma credits_percentages_witness :
  ∃ (c : PromptCredits) (m : Q),
    promptCredits (Examples.parsed 0 Examples.creditsResponse) = Some c
    ∧ monthly c = Some m ∧ (0 < m)%Q.
Proof.
  destruct (promptCredits (Examples.parsed 0 Examples.creditsResponse)) as [c |] eqn:E;
    [| vm_compute in E; discriminate].
  destruct (credits_percentages (H := exampleHost) (Examples.stopped 0)
              Examples.creditsResponse
              (Examples.parsed 0 Examples.creditsResponse) c
              ltac:(vm_compute; reflexivity) E) as (m & Hm & Hpos & _).
  exists c, m. repeat split; assumption.
Defined.

Lemma polled_snapshot_analysis_witness :
  0 <= overallHealth
         (InsightsService.analyze (Examples.stopped Examples.hour) (InsightsService.init 0)
            (Examples.parsed 0 Examples.creditsResponse)).1 <= 100.
Proof.
  destruct (polled_snapshot_analysis (H := exampleHost) (Examples.stopped 0)
              (Examples.stopped Examples.hour)
              Examples.creditsResponse (Examples.parsed 0 Examples.creditsResponse)
              (InsightsService.init 0)) as (_ & Hhealth & _).
  - vm_compute. reflexivity.
  - intros m Hm.
    remember (models (Examples.parsed 0 Examples.creditsResponse)) as ms eqn:E.
    vm_compute in E. subst ms.
    repeat (apply elem_of_cons in Hm as [-> | Hm]);
      [| | | inversion Hm]; vm_compute; split; discriminate.
  - exact Hhealth.
Defined.

Lemma unix_parseProcessInfo_none_witness :
  UnixStrategy.parseProcessInfo "4242 /usr/bin/node server.js --port 8080" = None.
Proof.
  destruct (unix_parseProcessInfo_none "4242 /usr/bin/node server.js --port 8080")
    as [Hiff _].
  apply Hiff. reflexivity.
Defined.

Lemma unix_parseProcessInfo_round_trip_witness :
  UnixStrategy.parseProcessInfo
    (pretty 4242 +:+ " " +:+ "/opt/antigravity/language_server"
     +:+ " --extension_server_port=" +:+ pretty 42100 +:+ " --csrf_token=" +:+ "abc-123")
  = Some {| pid := Some 4242; extensionPort := 42100; csrfToken := "abc-123" |}.
Proof.
  destruct (unix_parseProcessInfo_round_trip 4242 42100
              "/opt/antigravity/language_server" "abc-123" EmptyString EmptyString
              ltac:(lia) ltac:(lia) ltac:(vm_compute; reflexivity) ltac:(discriminate)
              ltac:(vm_compute; reflexivity) ltac:(reflexivity))
    as (_ & Hline & _).
  exact Hline.
Defined.

Lemma process_match_wellFormed_witness :
  ∃ found : ProcessMatch (option Z),
    UnixStrategy.parseProcessInfo Examples.serverLine = Some found
    ∧ 0 <= extensionPort found.
Proof.
  destruct (UnixStrategy.parseProcessInfo Examples.serverLine) as [found |] eqn:E;
    [| vm_compute in E; discriminate].
  destruct process_match_wellFormed as (Hunix & _).
  destruct (Hunix Examples.serverLine found E) as [Hport _].
  exists found. split; [reflexivity | exact Hport].
Defined.

Lemma detect_found_witness :
  ∃ (i : nat) (before after : list Z),
    (i < 3)%nat
    ∧ ProcessDetector.getListeningPorts
        (H := ProcessDetector.unixStrategy UnixStrategy.darwin)
        Examples.unixWorld i (Some 4242)
      = (before ++ 42102 :: after)%list
    ∧ ∀ p, p ∈ before → ProcessDetector.answers Examples.unixWorld i p "abc-123" = false.
Proof.
  destruct (detect_found (H := ProcessDetector.unixStrategy UnixStrategy.darwin)
              Examples.unixWorld 3 Examples.unixInfo ltac:(vm_compute; reflexivity))
    as (i & stdout & found & before & after & Hi & _ & _ & _ & Hpid & _ & Htoken
        & Hports & Hno & _).
  exists i, before, after. cbn in Hpid, Htoken.
  rewrite <- Hpid in Hports. rewrite <- Htoken in Hno.
  split; [exact Hi |]. split; [exact Hports | exact Hno].
Defined.

Lemma detect_retries_witness :
  ProcessDetector.detect (H := ProcessDetector.unixStrategy UnixStrategy.darwin)
    Examples.unixWorld 1 = None.
Proof.
  destruct (detect_retries (H := ProcessDetector.unixStrategy UnixStrategy.darwin)
              Examples.unixWorld 1) as (Hnone & _).
  apply Hnone. intros i Hi. assert (i = 0%nat) as -> by lia. reflexivity.
Defined.

Lemma detect_lowest_port_witness :
  (∃ i : nat,
     (i < 3)%nat
     ∧ Spec.lowestAnsweringPort (H := ProcessDetector.unixStrategy UnixStrategy.darwin)
         Examples.unixWorld i (Some 4242) "abc-123" 42102)
  ∧ ∃ i : nat,
      (i < 1)%nat
      ∧ Spec.lowestAnsweringPort
          (H := ProcessDetector.windowsStrategy (H := exampleHost))
          Examples.windowsWorld i (JNumber 4242) "abc-123" 42102.
Proof.
  destruct detect_lowest_port as [Hwindows Hunix]. split.
  - destruct (Hunix UnixStrategy.darwin Examples.unixWorld 3%nat Examples.unixInfo
                ltac:(vm_compute; reflexivity)) as [_ Hlowest].
    exact Hlowest.
  - destruct (Hwindows exampleHost Examples.windowsWorld 1%nat Examples.windowsInfo
                ltac:(vm_compute; reflexivity)) as [_ Hlowest].
    exact Hlowest.
Defined.

Lemma detect_configures_witness :
  QuotaService.isConfigured
    (QuotaService.setConnection QuotaService.init 42102 "abc-123") = true.
Proof.
  destruct (detect_configures QuotaService.init) as [Hwindows _].
  exact (Hwindows exampleHost Examples.windowsWorld 1%nat Examples.windowsInfo
           ltac:(vm_compute; reflexivity)).
Defined.

Lemma checkForWarnings_lowest_witness :
  ∃ warned : ModelWithInsights,
    Extension.checkForWarnings
      (InsightsService.analyze (Examples.stopped (2 * Examples.hour)) Examples.handoverEngine
         Examples.handoverSnapshot).1 85
    = Some warned
    ∧ isActive (insights warned) = true.
Proof.
  pose proof (checkForWarnings_lowest (Examples.stopped (2 * Examples.hour))
                Examples.handoverEngine
                Examples.handoverSnapshot 85) as Hwarn.
  cbn zeta in Hwarn.
  destruct (Extension.checkForWarnings _ 85) as [warned |] eqn:E.
  - exists warned. split; [reflexivity | apply Hwarn].
  - vm_compute in E. discriminate.
Defined.
